(** * Campaign message dispatch engine (marketing/services.py, marketing/models.py)

    A shallow embedding of [CampaignOrchestrator] and of
    [CampaignAnalyticsService.update_campaign_metrics], with the Django rows
    they read and write kept as explicit tables.

    Conventions of the embedding:
    - a table is the list of its rows in creation order, so that
      [order_by('created_at')] is the order of the list;
    - primary keys (UUIDs in the source) are natural numbers drawn from a
      counter kept with the tables;
    - JSON columns are finite maps from keys to JSON values;
    - a Python exception is an [exn] carried by [Raise]; the state reached
      when it is raised is kept, since the source opens no transaction
      around the orchestrator;
    - timestamps ([created_at], [updated_at], [sent_at], [last_run_at]) are
      not kept: no decision of the code modelled here reads them. *)

From Stdlib Require Import QArith Ascii String.
From stdpp Require Import base list strings pretty gmap.

Local Open Scope string_scope.
Local Open Scope nat_scope.

(** ** JSON values and Python truthiness *)

Inductive json :=
  | JNull
  | JBool (b : bool)
  | JNum (z : Z)
  | JReal (q : Q)
  | JStr (s : string)
  | JList (l : list string).

#[global] Instance Q_eq_dec : EqDecision Q.
Proof. solve_decision. Defined.

#[global] Instance json_eq_dec : EqDecision json.
Proof. solve_decision. Defined.

(** [bool(x)] for a JSON value. *)
Definition truthy (j : json) : bool :=
  match j with
  | JNull => false
  | JBool b => b
  | JNum z => negb (Z.eqb z 0)
  | JReal q => negb (Qeq_bool q 0)
  | JStr s => negb (String.eqb s "")
  | JList l => match l with [] => false | _ => true end
  end.

(** [d.get(key)]: a missing key reads as [None]. *)
Definition dict_get (d : gmap string json) (key : string) : json :=
  default JNull (d !! key).

(** [x or y]. *)
Definition py_or (x y : json) : json := if truthy x then x else y.

(** ** Python string primitives *)

(** [s.replace(old, new)]: all non-overlapping occurrences, left to right.
    [skip] counts the characters of a matched occurrence still to drop. *)
Fixpoint replace_from (old new : string) (skip : nat) (s : string) : string :=
  match s with
  | EmptyString => EmptyString
  | String c s' =>
      match skip with
      | S k => replace_from old new k s'
      | O =>
          if String.prefix old s
          then new +:+ replace_from old new (String.length old - 1) s'
          else String c (replace_from old new 0 s')
      end
  end.

Fixpoint interleave (new s : string) : string :=
  match s with
  | EmptyString => new
  | String c s' => new +:+ String c (interleave new s')
  end.

Definition str_replace (s old new : string) : string :=
  match old with
  | EmptyString => interleave new s
  | _ => replace_from old new 0 s
  end.

(** [c.isspace()] for a character below 256: tab to carriage return, the
    four separators 28 to 31, the blank, NEL (133) and the no-break space
    (160). *)
Definition isspace (c : ascii) : bool :=
  let n := nat_of_ascii c in
  (Nat.leb 9 n && Nat.leb n 13) || (Nat.leb 28 n && Nat.leb n 32)
  || Nat.eqb n 133 || Nat.eqb n 160.

Fixpoint lstrip (s : string) : string :=
  match s with
  | String c s' => if isspace c then lstrip s' else s
  | EmptyString => EmptyString
  end.

Definition str_rev (s : string) : string :=
  string_of_list_ascii (rev (list_ascii_of_string s)).

(** [s.strip()]: all leading and trailing whitespace is removed. *)
Definition strip (s : string) : string := str_rev (lstrip (str_rev (lstrip s))).

(** ** Exceptions and the orchestrator's result type *)

Inductive exn :=
  | TypeError (msg : string)
  | AttributeError (msg : string)
  | ValueError (msg : string)
  | RuntimeError (msg : string)
  | MultipleObjectsReturned.

Inductive outcome (A : Type) :=
  | Ok (a : A)
  | Raise (e : exn).
Arguments Ok {A} a.
Arguments Raise {A} e.

(** ** Models (marketing/models.py) *)

Module Customer.
Record t := mk {
    id : nat;
    email : string;
    phone_number : string;
    first_name : string;
    last_name : string;
    preferred_channels : list string
  }.
End Customer.

Module Product.
Record t := mk { name : string }.
End Product.

Module Campaign.
Module Status.
Inductive t := DRAFT | SCHEDULED | RUNNING | COMPLETED | FAILED.
#[global] Instance campaign_status_eq_dec : EqDecision t.
Proof. solve_decision. Defined.
End Status.

Record t := mk {
    id : nat;
    name : string;
    product : option Product.t;
    title : string;
    subject_line : string;
    language_code : string;
    (** the JSON object [channels], as its items in iteration order *)
    channels : list (string * bool);
    status : Status.t;
    metrics : gmap string json;
    optimization_metadata : gmap string json
  }.

Definition set_status (s : Status.t) (c : t) : t :=
    mk (id c) (name c) (product c) (title c) (subject_line c) (language_code c)
       (channels c) s (metrics c) (optimization_metadata c).

Definition set_metrics (m : gmap string json) (c : t) : t :=
    mk (id c) (name c) (product c) (title c) (subject_line c) (language_code c)
       (channels c) (status c) m (optimization_metadata c).

Definition set_optimization_metadata (m : gmap string json) (c : t) : t :=
    mk (id c) (name c) (product c) (title c) (subject_line c) (language_code c)
       (channels c) (status c) (metrics c) m.
End Campaign.

Definition default_metrics : gmap string json :=
  <["sent" := JNum 0]> (<["opened" := JNum 0]> (<["clicked" := JNum 0]>
    (<["revenue" := JReal 0]> ∅))).

Module CampaignVariant.
  (** The [metrics] object of a variant. [default_variant_metrics] and
      [update_campaign_metrics], its only writers, store these five counters. *)
Record Metrics := mk_metrics {
    sent : nat;
    delivered : nat;
    opened : nat;
    clicked : nat;
    conversions : nat
  }.

Record t := mk {
    id : nat;
    campaign : nat;
    label : string;
    channel_payload : gmap string json;
    metrics : Metrics;
    is_winner : bool
  }.

Definition set_metrics (m : Metrics) (v : t) : t :=
    mk (id v) (campaign v) (label v) (channel_payload v) m (is_winner v).

Definition set_is_winner (b : bool) (v : t) : t :=
    mk (id v) (campaign v) (label v) (channel_payload v) (metrics v) b.
End CampaignVariant.

Definition default_variant_metrics : CampaignVariant.Metrics :=
  CampaignVariant.mk_metrics 0 0 0 0 0.

Module CampaignMessage.
Module Channel.
Definition EMAIL := "email".
Definition WHATSAPP := "whatsapp".
Definition SMS := "sms".
Definition FACEBOOK := "facebook".
Definition INSTAGRAM := "instagram".
Definition TWITTER := "twitter".
End Channel.

Module Status.
Inductive t := PENDING | SCHEDULED | SENDING | SENT | FAILED | OPENED | CLICKED.
#[global] Instance message_status_eq_dec : EqDecision t.
Proof. solve_decision. Defined.
End Status.

Record t := mk {
    id : nat;
    campaign : nat;
    (** the related row, as [select_related('customer')] loads it *)
    customer : Customer.t;
    channel : string;
    content : string;
    status : Status.t;
    attempts : nat;
    max_attempts : nat;
    last_error : string;
    external_id : string;
    metadata : gmap string json;
    variant : option nat
  }.

Definition set_status (s : Status.t) (m : t) : t :=
    mk (id m) (campaign m) (customer m) (channel m) (content m) s (attempts m)
       (max_attempts m) (last_error m) (external_id m) (metadata m) (variant m).

Definition set_attempts (n : nat) (m : t) : t :=
    mk (id m) (campaign m) (customer m) (channel m) (content m) (status m) n
       (max_attempts m) (last_error m) (external_id m) (metadata m) (variant m).

Definition set_last_error (e : string) (m : t) : t :=
    mk (id m) (campaign m) (customer m) (channel m) (content m) (status m)
       (attempts m) (max_attempts m) e (external_id m) (metadata m) (variant m).

Definition set_external_id (e : string) (m : t) : t :=
    mk (id m) (campaign m) (customer m) (channel m) (content m) (status m)
       (attempts m) (max_attempts m) (last_error m) e (metadata m) (variant m).

Definition set_metadata (d : gmap string json) (m : t) : t :=
    mk (id m) (campaign m) (customer m) (channel m) (content m) (status m)
       (attempts m) (max_attempts m) (last_error m) (external_id m) d (variant m).

Definition set_content (c : string) (m : t) : t :=
    mk (id m) (campaign m) (customer m) (channel m) c (status m)
       (attempts m) (max_attempts m) (last_error m) (external_id m) (metadata m)
       (variant m).

Definition set_variant (v : option nat) (m : t) : t :=
    mk (id m) (campaign m) (customer m) (channel m) (content m) (status m)
       (attempts m) (max_attempts m) (last_error m) (external_id m) (metadata m) v.
End CampaignMessage.

Module CampaignLog.
Record t := mk {
    campaign : nat;
    message : option nat;
    action : string;
    details : string;
    metadata : gmap string json
  }.
End CampaignLog.

Module Notification.
Module Level.
Inductive t := INFO | SUCCESS | WARNING | ERROR.
End Level.
Record t := mk {
    campaign_name : string;
    campaign_status : Campaign.Status.t;
    (** the metrics object rendered into [details] *)
    details : gmap string json;
    level : Level.t
  }.
End Notification.


(** ** The state the services run in

    [self_campaign] is the Python object [self.campaign] held by the
    orchestrator, [campaign_row] the row of that campaign in the database;
    the two differ whenever the code writes one without the other. *)

Record State := mkState {
  self_campaign : Campaign.t;
  campaign_row : Campaign.t;
  messages : list CampaignMessage.t;
  variants : list CampaignVariant.t;
  logs : list CampaignLog.t;
  notifications : list Notification.t;
  next_id : nat
}.

Definition set_self_campaign (c : Campaign.t) (s : State) : State :=
  mkState c (campaign_row s) (messages s) (variants s) (logs s)
          (notifications s) (next_id s).

Definition set_campaign_row (c : Campaign.t) (s : State) : State :=
  mkState (self_campaign s) c (messages s) (variants s) (logs s)
          (notifications s) (next_id s).

Definition set_messages (l : list CampaignMessage.t) (s : State) : State :=
  mkState (self_campaign s) (campaign_row s) l (variants s) (logs s)
          (notifications s) (next_id s).

Definition set_variants (l : list CampaignVariant.t) (s : State) : State :=
  mkState (self_campaign s) (campaign_row s) (messages s) l (logs s)
          (notifications s) (next_id s).

Definition set_logs (l : list CampaignLog.t) (s : State) : State :=
  mkState (self_campaign s) (campaign_row s) (messages s) (variants s) l
          (notifications s) (next_id s).

Definition set_notifications (l : list Notification.t) (s : State) : State :=
  mkState (self_campaign s) (campaign_row s) (messages s) (variants s) (logs s)
          l (next_id s).

Definition set_next_id (n : nat) (s : State) : State :=
  mkState (self_campaign s) (campaign_row s) (messages s) (variants s) (logs s)
          (notifications s) n.

(** A computation that reads and writes the state and may raise. *)
Definition M (A : Type) : Type := State -> outcome A * State.

Definition ret {A} (a : A) : M A := fun s => (Ok a, s).

Definition raise {A} (e : exn) : M A := fun s => (Raise e, s).

Definition bind {A B} (m : M A) (k : A -> M B) : M B :=
  fun s =>
    match m s with
    | (Ok a, s') => k a s'
    | (Raise e, s') => (Raise e, s')
    end.

Definition get_state : M State := fun s => (Ok s, s).

Definition modify (f : State -> State) : M unit := fun s => (Ok tt, f s).

Notation "'let*' x ':=' m 'in' k" := (bind m (fun x => k))
  (at level 10, x name, m at level 100, k at level 200).

(** [for x in l: acc = body(acc, x)]; an exception leaves the loop. *)
Fixpoint for_fold {A B} (l : list A) (acc : B) (body : B -> A -> M B) : M B :=
  match l with
  | [] => ret acc
  | x :: l' => let* acc' := body acc x in for_fold l' acc' body
  end.

(** ** Settings and providers *)

Module DispatchResult.
Record t := mk {
  status : CampaignMessage.Status.t;
  metadata : gmap string json;
  external_id : option string
}.
End DispatchResult.

(** What the orchestrator takes from its environment: one Django setting,
    the provider credentials read by [BulkMessenger.__init__], and the two
    network calls. A call is given the message being sent, whose [attempts]
    differ from one try to the next, so that it may fail on one try and
    succeed on a later one. [Some e] and [inl e] stand for an exception whose
    text is [e]. *)
Record Env := mkEnv {
  CAMPAIGN_MAX_RETRIES : option nat;
  twilio_client : bool;
  twilio_from : bool;
  sms_api_key : bool;
  send_mail : CampaignMessage.t -> json -> option string;
  twilio_messages_create : CampaignMessage.t -> string + string
}.

(** [getattr(settings, 'CAMPAIGN_MAX_RETRIES', 3)] *)
Definition default_max_attempts (env : Env) : nat :=
  default 3 (CAMPAIGN_MAX_RETRIES env).

(** ** Queries on the message table *)

Definition pending_statuses : list CampaignMessage.Status.t :=
  [CampaignMessage.Status.PENDING; CampaignMessage.Status.SCHEDULED].

Definition is_pending (m : CampaignMessage.t) : bool :=
  bool_decide (CampaignMessage.status m ∈ pending_statuses).

(** [campaign.messages] *)
Definition of_campaign (cid : nat) (m : CampaignMessage.t) : bool :=
  Nat.eqb (CampaignMessage.campaign m) cid.

(** The lookup [campaign=..., customer=..., channel=...]. *)
Definition same_triple (cid : nat) (cust : Customer.t) (ch : string)
    (m : CampaignMessage.t) : bool :=
  Nat.eqb (CampaignMessage.campaign m) cid
  && Nat.eqb (Customer.id (CampaignMessage.customer m)) (Customer.id cust)
  && String.eqb (CampaignMessage.channel m) ch.

(** [UPDATE ... WHERE id = pk] *)
Definition update_message (pk : nat) (f : CampaignMessage.t -> CampaignMessage.t)
    (l : list CampaignMessage.t) : list CampaignMessage.t :=
  map (fun r => if Nat.eqb (CampaignMessage.id r) pk then f r else r) l.

(** The four fields both [update_or_create] and [get_or_create] are given
    as [defaults]. *)
Record Defaults := mkDefaults {
  d_content : string;
  d_status : CampaignMessage.Status.t;
  d_metadata : gmap string json;
  d_variant : option nat
}.

Definition apply_defaults (d : Defaults) (m : CampaignMessage.t) : CampaignMessage.t :=
  CampaignMessage.set_variant (d_variant d)
    (CampaignMessage.set_metadata (d_metadata d)
      (CampaignMessage.set_status (d_status d)
        (CampaignMessage.set_content (d_content d) m))).

Definition log_create (entry : CampaignLog.t) : M unit :=
  modify (fun s => set_logs (logs s ++ [entry]) s).

Section Orchestrator.

Variable env : Env.

(** [CampaignMessage.objects.create] on the lookup and the defaults: the
    fields not given take the model's defaults. *)
Definition create_message (cid : nat) (cust : Customer.t) (ch : string)
    (d : Defaults) : M unit :=
  modify (fun s =>
    let row := CampaignMessage.mk (next_id s) cid cust ch (d_content d)
                 (d_status d) 0 (default_max_attempts env) "" ""
                 (d_metadata d) (d_variant d) in
    set_next_id (S (next_id s)) (set_messages (messages s ++ [row]) s)).

Definition update_or_create (cid : nat) (cust : Customer.t) (ch : string)
    (d : Defaults) : M unit :=
  let* s := get_state in
  match List.filter (same_triple cid cust ch) (messages s) with
  | [] => create_message cid cust ch d
  | [obj] =>
      modify (fun s =>
        set_messages
          (update_message (CampaignMessage.id obj) (fun _ => apply_defaults d obj)
             (messages s)) s)
  | _ => raise MultipleObjectsReturned
  end.

Definition get_or_create (cid : nat) (cust : Customer.t) (ch : string)
    (d : Defaults) : M unit :=
  let* s := get_state in
  match List.filter (same_triple cid cust ch) (messages s) with
  | [] => create_message cid cust ch d
  | [_] => ret tt
  | _ => raise MultipleObjectsReturned
  end.

(** ** CampaignOrchestrator *)

Definition _template_key (channel : string) : string :=
  if String.eqb channel CampaignMessage.Channel.EMAIL then "email_body"
  else if String.eqb channel CampaignMessage.Channel.WHATSAPP then "whatsapp_message"
  else if String.eqb channel CampaignMessage.Channel.SMS then "sms_text"
  else if String.eqb channel CampaignMessage.Channel.FACEBOOK then "social_post"
  else if String.eqb channel CampaignMessage.Channel.INSTAGRAM then "social_post"
  else if String.eqb channel CampaignMessage.Channel.TWITTER then "social_post"
  else "email_body".

Definition _variant_content (content : gmap string json) (template_key : string)
    (variant : option CampaignVariant.t) : json :=
  match variant with
  | Some v =>
      py_or (dict_get (CampaignVariant.channel_payload v) template_key)
            (dict_get content template_key)
  | None => dict_get content template_key
  end.

Definition str_in (x : string) (l : list string) : bool :=
  existsb (String.eqb x) l.

(** The loop of [_resolve_channels] that fills [deduped]. *)
Fixpoint resolve_loop (enabled : list string) (phone_number : string)
    (ordered deduped : list string) : list string :=
  match ordered with
  | [] => deduped
  | ch :: rest =>
      if negb (str_in ch enabled) then resolve_loop enabled phone_number rest deduped
      else if String.eqb ch CampaignMessage.Channel.WHATSAPP
              && String.eqb phone_number ""
      then resolve_loop enabled phone_number rest deduped
      else if String.eqb ch CampaignMessage.Channel.SMS
              && String.eqb phone_number ""
      then resolve_loop enabled phone_number rest deduped
      else if negb (str_in ch deduped)
      then resolve_loop enabled phone_number rest (deduped ++ [ch])
      else resolve_loop enabled phone_number rest deduped
  end.

Definition _resolve_channels (campaign : Campaign.t) (customer : Customer.t)
    : list string :=
  let preferred := Customer.preferred_channels customer in
  let enabled :=
    map fst (List.filter (fun item => snd item) (Campaign.channels campaign)) in
  let ordered :=
    (preferred ++ List.filter (fun ch => negb (str_in ch preferred)) enabled)%list in
  resolve_loop enabled (Customer.phone_number customer) ordered [].

Definition _fallback_channels (campaign : Campaign.t) (primary_channel : string)
    (customer : Customer.t) : list string :=
  let candidates := _resolve_channels campaign customer in
  List.filter (fun ch => negb (String.eqb ch primary_channel)) candidates.

(** The dictionary [replacements], in insertion order. *)
Definition replacements (campaign : Campaign.t) (customer : Customer.t)
    : list (string * string) :=
  [ ("first_name", Customer.first_name customer);
    ("last_name", Customer.last_name customer);
    ("full_name",
      strip (Customer.first_name customer +:+ " " +:+ Customer.last_name customer));
    ("product_name",
      match Campaign.product campaign with
      | Some product => Product.name product
      | None => ""
      end);
    ("customer_email", Customer.email customer) ].

(** The body of [_personalize(self, template, customer)]. *)
Definition _personalize (campaign : Campaign.t) (template : string)
    (customer : Customer.t) : string :=
  fold_left
    (fun content kv => str_replace content ("{{" +:+ fst kv +:+ "}}") (snd kv))
    (replacements campaign customer) template.

(** *** build_messages *)

(** The values passed in the one call of [_personalize]. *)
Inductive pyval :=
  | PJson (j : json)
  | PStr (s : string)
  | PCustomer (c : Customer.t).

(** A call [self._personalize( *args )]. The method is declared with the two
    parameters [template] and [customer] after [self]; Python raises
    [TypeError] before running the body when it is given any other number of
    positional arguments. In the body, [replace] exists on strings only. *)
Definition call__personalize (campaign : Campaign.t) (args : list pyval)
    : outcome string :=
  match args with
  | [PJson (JStr template); PCustomer customer] =>
      Ok (_personalize campaign template customer)
  | [PStr template; PCustomer customer] =>
      Ok (_personalize campaign template customer)
  | [_; PCustomer _] =>
      Raise (AttributeError "object has no attribute 'replace'")
  | [_; _] =>
      Raise (AttributeError "object has no attribute 'first_name'")
  | _ =>
      Raise (TypeError
        ("CampaignOrchestrator._personalize() takes 3 positional arguments but "
         +:+ pretty (S (length args)) +:+ " were given"))
  end.

(** The call at line 429, [self._personalize(base_content, customer, channel)]. *)
Definition personalize_as_called (campaign : Campaign.t) (base_content : json)
    (customer : Customer.t) (channel : string) : outcome string :=
  call__personalize campaign [PJson base_content; PCustomer customer; PStr channel].

(** The same call with the arguments the method declares,
    [self._personalize(base_content, customer)]. *)
Definition personalize_two_args (campaign : Campaign.t) (base_content : json)
    (customer : Customer.t) (channel : string) : outcome string :=
  call__personalize campaign [PJson base_content; PCustomer customer].

Definition message_metadata (campaign : Campaign.t) (content : gmap string json)
    (channel : string) (customer : Customer.t)
    (variant : option CampaignVariant.t) : gmap string json :=
  <["language_code" := JStr (Campaign.language_code campaign)]>
  (<["subject_line" :=
       py_or (dict_get content "subject_line") (JStr (Campaign.subject_line campaign))]>
  (<["title" := py_or (dict_get content "title") (JStr (Campaign.title campaign))]>
  (<["hashtags" := default (JList []) (content !! "hashtags")]>
  (<["fallback_channels" := JList (_fallback_channels campaign channel customer)]>
  (<["variant_label" :=
       match variant with
       | Some v => JStr (CampaignVariant.label v)
       | None => JNull
       end]> ∅))))).

Section BuildMessages.

(** How the personalization call at line 429 behaves. *)
Variable personalize_call :
  Campaign.t -> json -> Customer.t -> string -> outcome string.

(** The body of [for channel in channels]. *)
Definition build_channel (content : gmap string json)
    (variant : option CampaignVariant.t) (customer : Customer.t)
    (created : nat) (channel : string) : M nat :=
  let* s := get_state in
  let campaign := self_campaign s in
  let template_key := _template_key channel in
  let base_content := _variant_content content template_key variant in
  if negb (truthy base_content) then ret created
  else
    match personalize_call campaign base_content customer channel with
    | Raise e => raise e
    | Ok personalized =>
        let defaults :=
          mkDefaults personalized CampaignMessage.Status.PENDING
            (message_metadata campaign content channel customer variant)
            (CampaignVariant.id <$> variant) in
        let* _ := update_or_create (Campaign.id campaign) customer channel defaults in
        ret (S created)
    end.

(** The body of [for customer in customers]. *)
Definition build_customer (content : gmap string json)
    (variant : option CampaignVariant.t) (created : nat)
    (customer : Customer.t) : M nat :=
  let* s := get_state in
  let channels := _resolve_channels (self_campaign s) customer in
  for_fold channels created (build_channel content variant customer).

Definition build_messages_with (customers : list Customer.t)
    (content : gmap string json) (variant : option CampaignVariant.t) : M nat :=
  let* created := for_fold customers 0 (build_customer content variant) in
  let* s := get_state in
  let* _ :=
    log_create
      (CampaignLog.mk (Campaign.id (self_campaign s)) None "Messages prepared" ""
         (<["created" := JNum (Z.of_nat created)]>
          (<["variant" :=
               match variant with
               | Some v => JStr (CampaignVariant.label v)
               | None => JNull
               end]> ∅))) in
  ret created.

End BuildMessages.

(** [CampaignOrchestrator.build_messages], as written. *)
Definition build_messages : list Customer.t -> gmap string json ->
    option CampaignVariant.t -> M nat :=
  build_messages_with personalize_as_called.

(** *** BulkMessenger.dispatch_message

    [wait_for_slot] only delays the caller and is not modelled. The result
    is [inl (str exc)] when the call raises, which is all that the
    [except Exception] clause of the delivery loop reads. *)

Definition _send_email (campaign : Campaign.t) (message : CampaignMessage.t)
    : string + DispatchResult.t :=
  let subject :=
    py_or (py_or (dict_get (CampaignMessage.metadata message) "subject_line")
                 (JStr (Campaign.subject_line campaign)))
          (JStr (Campaign.name campaign)) in
  match send_mail env message subject with
  | Some exc => inl exc
  | None =>
      inr (DispatchResult.mk CampaignMessage.Status.SENT
             (<["channel" := JStr "email"]> ∅) None)
  end.

Definition _send_whatsapp (message : CampaignMessage.t)
    : string + DispatchResult.t :=
  if negb (twilio_client env) || negb (twilio_from env)
  then inl "WhatsApp provider is not configured"
  else if String.eqb (Customer.phone_number (CampaignMessage.customer message)) ""
  then inl "Customer does not have a WhatsApp-compatible number"
  else
    match twilio_messages_create env message with
    | inl msg => inl ("WhatsApp send failed: " +:+ msg)
    | inr sid =>
        inr (DispatchResult.mk CampaignMessage.Status.SENT
               (<["channel" := JStr "whatsapp"]> ∅) (Some sid))
    end.

Definition _send_sms (message : CampaignMessage.t) : string + DispatchResult.t :=
  if negb (sms_api_key env)
  then inl "SMS provider is not configured"
  else if String.eqb (Customer.phone_number (CampaignMessage.customer message)) ""
  then inl "Customer does not have a SMS-compatible number"
  else
    inr (DispatchResult.mk CampaignMessage.Status.SENT
           (<["channel" := JStr "sms"]> ∅)
           (Some ("sms-" +:+ pretty (CampaignMessage.id message)))).

Definition _send_social (message : CampaignMessage.t) : string + DispatchResult.t :=
  inr (DispatchResult.mk CampaignMessage.Status.SENT
         (<["channel" := JStr (CampaignMessage.channel message)]> ∅) None).

Definition dispatch_message (campaign : Campaign.t) (message : CampaignMessage.t)
    : string + DispatchResult.t :=
  let channel := CampaignMessage.channel message in
  if String.eqb channel CampaignMessage.Channel.EMAIL then _send_email campaign message
  else if String.eqb channel CampaignMessage.Channel.WHATSAPP then _send_whatsapp message
  else if String.eqb channel CampaignMessage.Channel.SMS then _send_sms message
  else if str_in channel
            [CampaignMessage.Channel.FACEBOOK; CampaignMessage.Channel.INSTAGRAM;
             CampaignMessage.Channel.TWITTER]
  then _send_social message
  else
    inr (DispatchResult.mk CampaignMessage.Status.SENT
           (<["note" := JStr "Social asset ready"]> ∅) None).

(** *** The delivery loop *)

(** [fallback_channels[0]] and [fallback_channels[1:]] for a truthy value:
    lists and strings can be indexed and sliced, the other values cannot. *)
Definition head_and_tail (fallback_channels : json) : outcome (string * json) :=
  match fallback_channels with
  | JList (ch :: rest) => Ok (ch, JList rest)
  | JStr (String c rest) => Ok (String c EmptyString, JStr rest)
  | _ => Raise (TypeError "object is not subscriptable")
  end.

Definition _queue_fallback (message : CampaignMessage.t) : M unit :=
  let metadata := CampaignMessage.metadata message in
  let fallback_channels :=
    if bool_decide (metadata = ∅) then JList []
    else dict_get metadata "fallback_channels" in
  if negb (truthy fallback_channels) then ret tt
  else
    match head_and_tail fallback_channels with
    | Raise e => raise e
    | Ok (next_channel, rest) =>
        let* s := get_state in
        let* _ :=
          get_or_create (Campaign.id (self_campaign s))
            (CampaignMessage.customer message) next_channel
            (mkDefaults (CampaignMessage.content message)
               CampaignMessage.Status.PENDING
               (<["fallback_of" := JStr (pretty (CampaignMessage.id message))]>
                 (<["fallback_channels" := rest]> metadata))
               (CampaignMessage.variant message)) in
        log_create
          (CampaignLog.mk (Campaign.id (self_campaign s))
             (Some (CampaignMessage.id message)) "Fallback scheduled" ""
             (<["next_channel" := JStr next_channel]> ∅))
    end.

Definition _handle_failure (message : CampaignMessage.t) (error : string) : M unit :=
  let message := CampaignMessage.set_last_error (substring 0 500 error) message in
  let can_retry :=
    Nat.ltb (CampaignMessage.attempts message) (CampaignMessage.max_attempts message) in
  let message :=
    CampaignMessage.set_status
      (if can_retry then CampaignMessage.Status.PENDING
       else CampaignMessage.Status.FAILED) message in
  let* _ :=
    modify (fun s =>
      set_messages
        (update_message (CampaignMessage.id message)
           (fun r =>
              CampaignMessage.set_last_error (CampaignMessage.last_error message)
                (CampaignMessage.set_status (CampaignMessage.status message) r))
           (messages s)) s) in
  let* s := get_state in
  let* _ :=
    log_create
      (CampaignLog.mk (Campaign.id (self_campaign s))
         (Some (CampaignMessage.id message)) "Message failed" error ∅) in
  if negb can_retry then _queue_fallback message else ret tt.

Definition _handle_success (message : CampaignMessage.t)
    (result : DispatchResult.t) : M unit :=
  let external_id :=
    match DispatchResult.external_id result with
    | Some e => if String.eqb e "" then CampaignMessage.external_id message else e
    | None => CampaignMessage.external_id message
    end in
  let metadata := DispatchResult.metadata result ∪ CampaignMessage.metadata message in
  let status := DispatchResult.status result in
  let* _ :=
    modify (fun s =>
      set_messages
        (update_message (CampaignMessage.id message)
           (fun r =>
              CampaignMessage.set_last_error ""
                (CampaignMessage.set_metadata metadata
                  (CampaignMessage.set_external_id external_id
                    (CampaignMessage.set_status status r))))
           (messages s)) s) in
  let* s := get_state in
  log_create
    (CampaignLog.mk (Campaign.id (self_campaign s))
       (Some (CampaignMessage.id message)) "Message sent" ""
       (DispatchResult.metadata result)).

Definition count_status (cid : nat) (st : CampaignMessage.Status.t)
    (l : list CampaignMessage.t) : nat :=
  length (List.filter
            (fun m => of_campaign cid m && bool_decide (CampaignMessage.status m = st)) l).

(** [metrics.update(...)] with the three counts. *)
Definition with_counts (sent opened clicked : nat) (metrics : gmap string json)
    : gmap string json :=
  <["clicked" := JNum (Z.of_nat clicked)]>
    (<["opened" := JNum (Z.of_nat opened)]>
      (<["sent" := JNum (Z.of_nat sent)]> metrics)).

(** [metrics = self.campaign.metrics or {}] is the object's own dictionary
    unless that one is empty, so [update] changes the object too in the first
    case; the row is written in both. The same [update] stamps the row's
    [last_run_at] with the current time; the model has no clock and no such
    column, so nothing below speaks about that column. *)
Definition refresh_metrics : M unit :=
  modify (fun s =>
    let cid := Campaign.id (self_campaign s) in
    let sent := count_status cid CampaignMessage.Status.SENT (messages s) in
    let opened := count_status cid CampaignMessage.Status.OPENED (messages s) in
    let clicked := count_status cid CampaignMessage.Status.CLICKED (messages s) in
    let old := Campaign.metrics (self_campaign s) in
    let metrics := with_counts sent opened clicked old in
    let self' :=
      if bool_decide (old = ∅) then self_campaign s
      else Campaign.set_metrics metrics (self_campaign s) in
    set_campaign_row (Campaign.set_metrics metrics (campaign_row s))
      (set_self_campaign self' s)).

(** [self.campaign.status = status] followed by
    [self.campaign.save(update_fields=('status', ...))]. *)
Definition save_campaign_status (status : Campaign.Status.t) : M unit :=
  modify (fun s =>
    set_campaign_row (Campaign.set_status status (campaign_row s))
      (set_self_campaign (Campaign.set_status status (self_campaign s)) s)).

(** [notify_campaign_status] creates the notification row; the alerts it
    then sends to the administrator are outside the model. *)
Definition _finalize (status : Campaign.Status.t) : M unit :=
  let* _ := save_campaign_status status in
  modify (fun s =>
    set_notifications
      (notifications s ++
        [Notification.mk (Campaign.name (self_campaign s)) status
           (Campaign.metrics (self_campaign s))
           (if bool_decide (status = Campaign.Status.COMPLETED)
            then Notification.Level.INFO else Notification.Level.WARNING)]) s).

Record Counts := mkCounts { sent : nat; failed : nat }.

(** [self.campaign.messages.filter(status__in=pending_statuses)
      .order_by('created_at')] *)
Definition pending_queryset (s : State) : list CampaignMessage.t :=
  List.filter (fun m => of_campaign (Campaign.id (self_campaign s)) m && is_pending m)
    (messages s).

(** The body of [for message in queryset]. *)
Definition send_one (counts : Counts) (message : CampaignMessage.t) : M Counts :=
  let message :=
    CampaignMessage.set_attempts (CampaignMessage.attempts message + 1)
      (CampaignMessage.set_status CampaignMessage.Status.SENDING message) in
  let* _ :=
    modify (fun s =>
      set_messages
        (update_message (CampaignMessage.id message)
           (fun r =>
              CampaignMessage.set_attempts (CampaignMessage.attempts message)
                (CampaignMessage.set_status (CampaignMessage.status message) r))
           (messages s)) s) in
  let* s := get_state in
  match dispatch_message (self_campaign s) message with
  | inl exc =>
      let counts := mkCounts (sent counts) (failed counts + 1) in
      let* _ := _handle_failure message exc in
      ret counts
  | inr result =>
      let* _ := _handle_success message result in
      ret (mkCounts (sent counts + 1) (failed counts))
  end.

Definition send_pending_messages (force : bool) : M Counts :=
  let* s := get_state in
  if negb force && bool_decide (Campaign.status (self_campaign s) = Campaign.Status.DRAFT)
  then raise (ValueError "Campaign must be scheduled or running before dispatch")
  else
    let counts := mkCounts 0 0 in
    match pending_queryset s with
    | [] => ret counts
    | _ :: _ =>
        let* _ := save_campaign_status Campaign.Status.RUNNING in
        let* s := get_state in
        let* counts := for_fold (pending_queryset s) counts send_one in
        let* _ := refresh_metrics in
        let* s := get_state in
        let remaining := length (pending_queryset s) in
        let* _ :=
          if Nat.eqb remaining 0
          then _finalize (if negb (Nat.eqb (failed counts) 0)
                          then Campaign.Status.FAILED
                          else Campaign.Status.COMPLETED)
          else ret tt in
        ret counts
    end.

End Orchestrator.

(** ** CampaignAnalyticsService.update_campaign_metrics *)

(** [Count('id', filter=Q(status=st))] within the group of [variant_id]. *)
Definition count_variant_status (cid : nat) (vid : option nat)
    (st : CampaignMessage.Status.t) (l : list CampaignMessage.t) : nat :=
  length (List.filter
            (fun m => of_campaign cid m
                      && bool_decide (CampaignMessage.variant m = vid)
                      && bool_decide (CampaignMessage.status m = st)) l).

(** The groups of [values('variant_id')]: the distinct values of the column
    among the campaign's messages. *)
Definition variant_groups (cid : nat) (l : list CampaignMessage.t) : list (option nat) :=
  remove_dups (map CampaignMessage.variant (List.filter (of_campaign cid) l)).

(** The body of [for row in stats]. *)
Definition update_variant_row (cid : nat) (l : list CampaignMessage.t)
    (vs : list CampaignVariant.t) (row : option nat) : list CampaignVariant.t :=
  match row with
  | None => vs
  | Some vid =>
      let sent := count_variant_status cid row CampaignMessage.Status.SENT l in
      let opened := count_variant_status cid row CampaignMessage.Status.OPENED l in
      let clicked := count_variant_status cid row CampaignMessage.Status.CLICKED l in
      let metrics := CampaignVariant.mk_metrics sent sent opened clicked 0 in
      map (fun v => if Nat.eqb (CampaignVariant.id v) vid
                    then CampaignVariant.set_metrics metrics v else v) vs
  end.

(** The sort key of [order_by('-metrics__clicked', '-metrics__opened')]. *)
Definition rank (v : CampaignVariant.t) : nat * nat :=
  (CampaignVariant.clicked (CampaignVariant.metrics v),
   CampaignVariant.opened (CampaignVariant.metrics v)).

(** [a] sorts strictly before [b]. *)
Definition outranks (a b : CampaignVariant.t) : bool :=
  Nat.ltb (fst (rank b)) (fst (rank a))
  || (Nat.eqb (fst (rank a)) (fst (rank b)) && Nat.ltb (snd (rank b)) (snd (rank a))).

(** [.first()] of the ordered rows. Rows with equal keys come out in an
    order the database chooses; here it is the order of the table. *)
Fixpoint first_by_rank (best : CampaignVariant.t) (l : list CampaignVariant.t)
    : CampaignVariant.t :=
  match l with
  | [] => best
  | v :: l' => first_by_rank (if outranks v best then v else best) l'
  end.

Definition variants_of (cid : nat) (vs : list CampaignVariant.t)
    : list CampaignVariant.t :=
  List.filter (fun v => Nat.eqb (CampaignVariant.campaign v) cid) vs.

Definition winner_of (cid : nat) (vs : list CampaignVariant.t)
    : option CampaignVariant.t :=
  match variants_of cid vs with
  | [] => None
  | v :: l => Some (first_by_rank v l)
  end.

Definition update_campaign_metrics : M unit :=
  modify (fun s =>
    let cid := Campaign.id (self_campaign s) in
    let vs :=
      fold_left (update_variant_row cid (messages s))
        (variant_groups cid (messages s)) (variants s) in
    match winner_of cid vs with
    | None => set_variants vs s
    | Some winner =>
        if CampaignVariant.is_winner winner then set_variants vs s
        else
          let vs :=
            map (fun v => if Nat.eqb (CampaignVariant.campaign v) cid
                          then CampaignVariant.set_is_winner false v else v) vs in
          let vs :=
            map (fun v => if Nat.eqb (CampaignVariant.id v) (CampaignVariant.id winner)
                          then CampaignVariant.set_is_winner true v else v) vs in
          let optimization_metadata :=
            <["winner" := JStr (CampaignVariant.label winner)]>
              (Campaign.optimization_metadata (self_campaign s)) in
          set_campaign_row
            (Campaign.set_optimization_metadata optimization_metadata (campaign_row s))
            (set_self_campaign
               (Campaign.set_optimization_metadata optimization_metadata (self_campaign s))
               (set_variants vs s))
    end).

(** The exception of a call with one positional argument too many. *)
Definition arity_error : exn :=
  TypeError
    "CampaignOrchestrator._personalize() takes 3 positional arguments but 4 were given".

(** ** The end-to-end scenario of the specification *)

Module Scenario.
Definition alice : Customer.t :=
  Customer.mk 1 "alice@example.com" "" "Alice" "" [].

Definition campaign : Campaign.t :=
  Campaign.mk 7 "Launch" None "" "" "en" [("email", true); ("whatsapp", true)]
    Campaign.Status.DRAFT default_metrics ∅.

Definition content : gmap string json :=
  <["email_body" := JStr "Hi {{first_name}}"]>
    (<["whatsapp_message" := JStr "..."]> ∅).

Definition start : State := mkState campaign campaign [] [] [] [] 1.

(** Providers that are configured and accept every send. *)
Definition providers_up : Env :=
  mkEnv None true true true (fun _ _ => None) (fun _ => inr "SM1").

(** Providers that reject every send. *)
Definition providers_down : Env :=
  mkEnv None true true true (fun _ _ => Some "connection refused")
    (fun _ => inl "unreachable").
End Scenario.

(** ** Predicates used in the statements *)

(** The value read by [_queue_fallback] as [fallback_channels]. *)
Definition fallback_value (message : CampaignMessage.t) : json :=
  if bool_decide (CampaignMessage.metadata message = ∅) then JList []
  else dict_get (CampaignMessage.metadata message) "fallback_channels".

(** A row that neither is on a phone channel nor lists one as a fallback. *)
Definition phone_free (r : CampaignMessage.t) : Prop :=
  CampaignMessage.channel r <> CampaignMessage.Channel.WHATSAPP
  /\ CampaignMessage.channel r <> CampaignMessage.Channel.SMS
  /\ forall l, CampaignMessage.metadata r !! "fallback_channels" = Some (JList l) ->
       ~ In CampaignMessage.Channel.WHATSAPP l /\ ~ In CampaignMessage.Channel.SMS l.

(** Every row is one of the table [before] the build, or belongs to another
    customer than [cid], or is free of phone channels. *)
Definition eligible (cid : nat) (before : list CampaignMessage.t) (s : State) : Prop :=
  forall r, In r (messages s) ->
    In r before
    \/ (Customer.id (CampaignMessage.customer r) = cid -> phone_free r).

(** [len(x)] for a list or a string, 0 for the values that have no length. *)
Definition json_len (j : json) : nat :=
  match j with
  | JList l => length l
  | JStr s => String.length s
  | _ => 0
  end.

(** The number of fallback channels a message still carries. *)
Definition fallback_len (message : CampaignMessage.t) : nat :=
  json_len (fallback_value message).

(** The row [_queue_fallback] asks [get_or_create] to create. *)
Definition fallback_row (env : Env) (s : State) (message : CampaignMessage.t)
    (next_channel : string) (rest : json) : CampaignMessage.t :=
  CampaignMessage.mk (next_id s) (Campaign.id (self_campaign s))
    (CampaignMessage.customer message) next_channel
    (CampaignMessage.content message) CampaignMessage.Status.PENDING 0
    (default_max_attempts env) "" ""
    (<["fallback_of" := JStr (pretty (CampaignMessage.id message))]>
      (<["fallback_channels" := rest]> (CampaignMessage.metadata message)))
    (CampaignMessage.variant message).

(** [r] is a row that [_queue_fallback message] adds to the table in some
    state. *)
Definition spawns (env : Env) (message r : CampaignMessage.t) : Prop :=
  exists s, In r (messages (snd (_queue_fallback env message s)))
            /\ ~ In r (messages s).

(** ** The order of [order_by('-metrics__clicked', '-metrics__opened')] *)

(** [p] is at most [q] in the lexicographic order on (clicked, opened). *)
Definition lex_le (p q : nat * nat) : Prop :=
  fst p < fst q \/ (fst p = fst q /\ snd p <= snd q).

(** At most one variant of the campaign carries the winner flag. The
    aggregator keeps this once it holds; nothing else enforces it, and the
    flag can be set by hand. *)
Definition at_most_one_winner (cid : nat) (vs : list CampaignVariant.t) : Prop :=
  forall a b, In a vs -> In b vs ->
    CampaignVariant.campaign a = cid -> CampaignVariant.campaign b = cid ->
    CampaignVariant.is_winner a = true -> CampaignVariant.is_winner b = true ->
    CampaignVariant.id a = CampaignVariant.id b.

(** The columns of a variant that the recomputation of metrics leaves alone. *)
Definition variant_frame (v : CampaignVariant.t) : nat * nat * bool :=
  (CampaignVariant.id v, CampaignVariant.campaign v, CampaignVariant.is_winner v).

(** ** The three-variant example of the specification *)

Module ThreeVariants.
Definition campaign : Campaign.t :=
  Campaign.mk 7 "Launch" None "" "" "en" [("email", true)]
    Campaign.Status.COMPLETED default_metrics ∅.

Definition variant (id : nat) (label : string) : CampaignVariant.t :=
  CampaignVariant.mk id 7 label ∅ default_variant_metrics false.

(** [n] messages of variant [vid] in status [st], with identifiers from
    [first]. *)
Definition batch (first vid : nat) (st : CampaignMessage.Status.t) (n : nat)
    : list CampaignMessage.t :=
  map (fun i =>
         CampaignMessage.mk (first + i) 7
           (Customer.mk (first + i) "c@example.com" "" "" "" [])
           "email" "Hello" st 1 3 "" "" ∅ (Some vid))
      (seq 0 n).

(** A: 10 clicked, 20 opened; B: 15 clicked, 5 opened; C: 15 clicked,
    30 opened. *)
Definition start : State :=
  mkState campaign campaign
    (batch 100 1 CampaignMessage.Status.CLICKED 10
     ++ batch 200 1 CampaignMessage.Status.OPENED 20
     ++ batch 300 2 CampaignMessage.Status.CLICKED 15
     ++ batch 400 2 CampaignMessage.Status.OPENED 5
     ++ batch 500 3 CampaignMessage.Status.CLICKED 15
     ++ batch 600 3 CampaignMessage.Status.OPENED 30)%list
    [variant 1 "A"; variant 2 "B"; variant 3 "C"] [] [] 1000.

(** What the example reads of a variant after the aggregator has run. *)
Definition summary (v : CampaignVariant.t) : string * nat * nat * bool :=
  (CampaignVariant.label v,
   CampaignVariant.clicked (CampaignVariant.metrics v),
   CampaignVariant.opened (CampaignVariant.metrics v),
   CampaignVariant.is_winner v).
End ThreeVariants.

(** ** Repeated delivery runs and their invariants *)

(** One call of [send_pending_messages] per element of [forces], each on
    the state the previous one left, whether it returned or raised. *)
Fixpoint runs (env : Env) (forces : list bool) (s : State) : State :=
  match forces with
  | [] => s
  | force :: rest => runs env rest (snd (send_pending_messages env force s))
  end.

(** The message as the loop holds it when it calls the dispatcher. *)
Definition prepared (message : CampaignMessage.t) : CampaignMessage.t :=
  CampaignMessage.set_attempts (CampaignMessage.attempts message + 1)
    (CampaignMessage.set_status CampaignMessage.Status.SENDING message).

Definition is_fallback_log (entry : CampaignLog.t) : bool :=
  String.eqb (CampaignLog.action entry) "Fallback scheduled".

(** The 'Fallback scheduled' entries written for message [i]. *)
Definition fallback_logs (i : nat) (l : list CampaignLog.t) : list CampaignLog.t :=
  List.filter
    (fun entry => is_fallback_log entry
                  && bool_decide (CampaignLog.message entry = Some i)) l.

(** Within its budget, and strictly within it while still to be sent. *)
Definition bounded (m : CampaignMessage.t) : Prop :=
  1 <= CampaignMessage.max_attempts m ->
  CampaignMessage.attempts m <= CampaignMessage.max_attempts m
  /\ (is_pending m = true ->
      CampaignMessage.attempts m < CampaignMessage.max_attempts m).

(** Primary keys are unique and below the counter. *)
Definition well_keyed (s : State) : Prop :=
  NoDup (map CampaignMessage.id (messages s))
  /\ Forall (fun m => CampaignMessage.id m < next_id s) (messages s).

(** A message has at most one 'Fallback scheduled' entry, and once it has
    one it is no longer to be sent. *)
Definition fallback_logged_once (s : State) : Prop :=
  forall i,
    length (fallback_logs i (logs s)) <= 1
    /\ (fallback_logs i (logs s) <> [] ->
        i < next_id s
        /\ forall m, In m (messages s) -> CampaignMessage.id m = i ->
             is_pending m = false).

Definition delivery_inv (s : State) : Prop :=
  well_keyed s /\ Forall bounded (messages s) /\ fallback_logged_once s.

(** ** A message whose budget is zero *)

Module ZeroBudget.
Definition message : CampaignMessage.t :=
  CampaignMessage.mk 1 7 Scenario.alice "email" "Hi Alice"
    CampaignMessage.Status.PENDING 0 0 "" "" ∅ None.

Definition start : State :=
  mkState Scenario.campaign Scenario.campaign [message] [] [] [] 2.
End ZeroBudget.

(** ** Three failing runs on one message with the default budget *)

Module Retries.
Definition message : CampaignMessage.t :=
  CampaignMessage.mk 1 7 Scenario.alice "email" "Hi Alice"
    CampaignMessage.Status.PENDING 0 3 "" ""
    (<["fallback_channels" := JList ["facebook"]]> ∅) None.

Definition start : State :=
  mkState Scenario.campaign Scenario.campaign [message] [] [] [] 2.
End Retries.

(** What one iteration of the delivery loop on [m] does to the state: the
    rows with the key of [m] get the fields [g] writes, at most one row is
    appended, and the log grows by [newlogs]. *)
Definition step_shape (env : Env) (m : CampaignMessage.t) (s s' : State) : Prop :=
  exists g extra newlogs st,
    self_campaign s' = self_campaign s
    /\ messages s' = (update_message (CampaignMessage.id m) g (messages s) ++ extra)%list
    /\ logs s' = (logs s ++ newlogs)%list
    /\ (forall r,
          CampaignMessage.id (g r) = CampaignMessage.id r
          /\ CampaignMessage.max_attempts (g r) = CampaignMessage.max_attempts r
          /\ CampaignMessage.attempts (g r) = CampaignMessage.attempts m + 1
          /\ CampaignMessage.status (g r) = st)
    /\ ((st = CampaignMessage.Status.SENT
         /\ exists result,
              dispatch_message env (self_campaign s) (prepared m) = inr result)
        \/ (st = CampaignMessage.Status.PENDING
            /\ CampaignMessage.attempts m + 1 < CampaignMessage.max_attempts m)
        \/ (st = CampaignMessage.Status.FAILED
            /\ CampaignMessage.max_attempts m <= CampaignMessage.attempts m + 1))
    /\ ((extra = [] /\ next_id s' = next_id s)
        \/ exists row,
             extra = [row]
             /\ CampaignMessage.id row = next_id s
             /\ next_id s' = S (next_id s)
             /\ CampaignMessage.attempts row = 0)
    /\ (List.filter is_fallback_log newlogs = []
        \/ exists entry,
             List.filter is_fallback_log newlogs = [entry]
             /\ CampaignLog.message entry = Some (CampaignMessage.id m)
             /\ st = CampaignMessage.Status.FAILED).

(** ** Channel resolution *)

(** The campaign enables [ch]: its [channels] object maps it to a true value. *)
Definition enabled_in (campaign : Campaign.t) (ch : string) : Prop :=
  In ch (map fst (List.filter (fun item => snd item) (Campaign.channels campaign))).

(** The customer can receive [ch]: the phone channels need a phone number. *)
Definition receivable (customer : Customer.t) (ch : string) : Prop :=
  Customer.phone_number customer = "" ->
  ch <> CampaignMessage.Channel.WHATSAPP /\ ch <> CampaignMessage.Channel.SMS.

(** ** Examples for channel resolution *)

Module Preferences.
(** A customer with a phone number who prefers sms, then email. *)
Definition bob : Customer.t :=
  Customer.mk 2 "bob@example.com" "+15550100" "Bob" "Stone" ["sms"; "email"].

Definition campaign : Campaign.t :=
  Campaign.mk 8 "Autumn" (Some (Product.mk "Lamp")) "" "" "en"
    [("email", true); ("whatsapp", true); ("sms", true); ("facebook", false)]
    Campaign.Status.SCHEDULED default_metrics ∅.
End Preferences.

(** [s] contains no opening brace, the character that opens every
    placeholder. *)
Definition brace_free (s : string) : Prop :=
  ~ In "{"%char (list_ascii_of_string s).

(** ** Uniqueness of the triple (campaign, customer, channel) *)

(** No two rows of the message table share a triple. *)
Definition triple_unique (s : State) : Prop :=
  forall cid cust ch,
    length (List.filter (same_triple cid cust ch) (messages s)) <= 1.

(** The 'Messages prepared' entry [build_messages] writes when it returns
    [created]. *)
Definition prepared_entry (campaign : Campaign.t) (created : nat)
    (variant : option CampaignVariant.t) : CampaignLog.t :=
  CampaignLog.mk (Campaign.id campaign) None "Messages prepared" ""
    (<["created" := JNum (Z.of_nat created)]>
       (<["variant" :=
            match variant with
            | Some v => JStr (CampaignVariant.label v)
            | None => JNull
            end]> ∅)).

(** What a build has kept when its counter is [acc]: the campaign and the
    log as they were in [s], no row removed, and at most [acc] rows added. *)
Definition build_progress (s : State) (acc : nat) (st : State) : Prop :=
  self_campaign st = self_campaign s
  /\ campaign_row st = campaign_row s
  /\ logs st = logs s
  /\ length (messages s) <= length (messages st)
  /\ length (messages st) <= length (messages s) + acc.

(** ** Messages used in the examples of dispatching *)

Module Dispatching.
(** A message on a channel no sender is written for. *)
Definition telegram : CampaignMessage.t :=
  CampaignMessage.mk 5 7 Scenario.alice "telegram" "Hi Alice"
    CampaignMessage.Status.PENDING 0 3 "" "" ∅ None.

(** A WhatsApp message for a customer without a phone number. *)
Definition whatsapp_without_phone : CampaignMessage.t :=
  CampaignMessage.mk 6 7 Scenario.alice "whatsapp" "Hi Alice"
    CampaignMessage.Status.PENDING 0 3 "" "" ∅ None.
End Dispatching.

(** ** What the delivery loop writes *)

(** A row as the loop leaves it after a dispatch, or as it spawns it: sent
    with no error, or pending or failed with an error of at most 500
    characters. *)
Definition settled (r : CampaignMessage.t) : Prop :=
  (CampaignMessage.status r = CampaignMessage.Status.SENT
   \/ CampaignMessage.status r = CampaignMessage.Status.PENDING
   \/ CampaignMessage.status r = CampaignMessage.Status.FAILED)
  /\ String.length (CampaignMessage.last_error r) <= 500.

(** The campaign status a run that dispatched something ends with. *)
Definition final_status (remaining : nat) (counts : Counts) : Campaign.Status.t :=
  if Nat.eqb remaining 0
  then (if Nat.eqb (failed counts) 0
        then Campaign.Status.COMPLETED else Campaign.Status.FAILED)
  else Campaign.Status.RUNNING.

(** The end of a run that dispatched something: the campaign is finalized
    when no message is left to send. *)
Definition finish_run (counts : Counts) (s : State) : State :=
  if Nat.eqb (length (pending_queryset s)) 0
  then snd (_finalize (if negb (Nat.eqb (failed counts) 0)
                       then Campaign.Status.FAILED
                       else Campaign.Status.COMPLETED) s)
  else s.

(** [s'] has the campaign object and row, the notifications and the
    variants of [s]. *)
Definition same_campaign (s s' : State) : Prop :=
  self_campaign s' = self_campaign s
  /\ campaign_row s' = campaign_row s
  /\ notifications s' = notifications s
  /\ variants s' = variants s.

(** ** Recomputed variant metrics *)

(** Some message of the campaign belongs to variant [vid]. *)
Definition has_messages (cid vid : nat) (l : list CampaignMessage.t) : bool :=
  existsb (fun m => of_campaign cid m
                    && bool_decide (CampaignMessage.variant m = Some vid)) l.

(** The metrics [update_campaign_metrics] stores for variant [vid]. *)
Definition counted_metrics (cid vid : nat) (l : list CampaignMessage.t)
    : CampaignVariant.Metrics :=
  CampaignVariant.mk_metrics
    (count_variant_status cid (Some vid) CampaignMessage.Status.SENT l)
    (count_variant_status cid (Some vid) CampaignMessage.Status.SENT l)
    (count_variant_status cid (Some vid) CampaignMessage.Status.OPENED l)
    (count_variant_status cid (Some vid) CampaignMessage.Status.CLICKED l)
    0.

(** ** A campaign whose metrics object is empty *)

Module EmptyMetrics.
Definition campaign : Campaign.t :=
  Campaign.mk 7 "Launch" None "" "" "en" [("email", true)]
    Campaign.Status.SCHEDULED ∅ ∅.

Definition message : CampaignMessage.t :=
  CampaignMessage.mk 1 7 Scenario.alice "email" "Hi Alice"
    CampaignMessage.Status.PENDING 0 3 "" "" ∅ None.

Definition start : State := mkState campaign campaign [message] [] [] [] 2.
End EmptyMetrics.

(** ** CustomerImportService._unique_slug

    [slugify] is Django's; it is taken as a parameter. [taken] holds the
    slugs of the user's tags, which the loop only reads. The [while] loop is
    given [fuel]: one unit per test of [exists()]. *)

(** The candidate tested at the [i]-th turn of the loop. *)
Definition slug_candidate (base : string) (i : nat) : string :=
  match i with
  | O => base
  | S _ => base +:+ "-" +:+ pretty i
  end.

Fixpoint unique_slug_loop (fuel : nat) (taken : list string) (base slug : string)
    (idx : nat) : option string :=
  match fuel with
  | O => None
  | S fuel' =>
      if str_in slug taken
      then unique_slug_loop fuel' taken base (base +:+ "-" +:+ pretty idx) (S idx)
      else Some slug
  end.

Definition _unique_slug (slugify : string -> string) (user_email : string)
    (taken : list string) (fuel : nat) (value : string) : option string :=
  let base :=
    if String.eqb (slugify value) "" then slugify user_email else slugify value in
  unique_slug_loop fuel taken base base 1.

(** ** CampaignExecutionService.dispatch: the targets of the variants

    [slice_step skip step l] is Python's [l[skip::step]] for a step of at
    least one, the only case [dispatch] uses: [skip] elements are passed over
    before the next one is taken. *)
Fixpoint slice_step {A : Type} (skip step : nat) (l : list A) : list A :=
  match l with
  | [] => []
  | x :: l' =>
      match skip with
      | O => x :: slice_step (step - 1) step l'
      | S skip' => slice_step skip' step l'
      end
  end.

Definition enumerate {A : Type} (l : list A) : list (nat * A) :=
  combine (seq 0 (length l)) l.

(** The customers each variant is built for, in the order of the loop over
    [enumerate(variants)]. *)
Definition variant_targets (variants : list CampaignVariant.t)
    (customers : list Customer.t) : list (CampaignVariant.t * list Customer.t) :=
  map (fun '(idx, variant) =>
         (variant, slice_step idx (length variants) customers))
      (enumerate variants).

(** The part of [dispatch] that builds the messages, given the generated
    variants, the customers and the generated payload; [personalize_call] is
    the call of [_personalize] inside [build_messages]. *)
Definition build_for_variants_with (env : Env)
    (personalize_call : Campaign.t -> json -> Customer.t -> string -> outcome string)
    (variants : list CampaignVariant.t) (customers : list Customer.t)
    (payload : gmap string json) : M nat :=
  match variants with
  | [] => build_messages_with env personalize_call customers payload None
  | _ :: _ =>
      for_fold (variant_targets variants customers) 0
        (fun created '(variant, targeted) =>
           match targeted with
           | [] => ret created
           | _ :: _ =>
               let* n := build_messages_with env personalize_call targeted
                           (CampaignVariant.channel_payload variant)
                           (Some variant) in
               ret (created + n)
           end)
  end.

(** The build phase of [dispatch], as written. *)
Definition build_for_variants (env : Env) : list CampaignVariant.t ->
    list Customer.t -> gmap string json -> M nat :=
  build_for_variants_with env personalize_as_called.

(** What the build phase has kept when its counter is [acc]: the campaign as
    it was in [s], no row removed, and at most [acc] rows added. *)
Definition targets_progress (s : State) (acc : nat) (st : State) : Prop :=
  self_campaign st = self_campaign s
  /\ campaign_row st = campaign_row s
  /\ length (messages s) <= length (messages st)
  /\ length (messages st) <= length (messages s) + acc.

(** The number of (customer, resolved channel) pairs of a list of customers. *)
Definition channel_pairs (campaign : Campaign.t) (customers : list Customer.t) : nat :=
  list_sum (map (fun c => length (_resolve_channels campaign c)) customers).

Module Buckets.
(** Three variants and two customers. *)
Definition variant (id : nat) (label : string) : CampaignVariant.t :=
  CampaignVariant.mk id 7 label Scenario.content default_variant_metrics false.
Definition variants : list CampaignVariant.t :=
  [variant 1 "A"; variant 2 "B"; variant 3 "C"].
Definition customers : list Customer.t :=
  [Scenario.alice; Preferences.bob].
End Buckets.

(** ** RateLimiter

    The readings of [time.monotonic()] are taken as rationals, in seconds; the
    limiter only subtracts and compares them, and the rounding of the float
    subtraction is not modelled. A call of [wait_for_slot] reads
    the clock once on entry ([now]) and, when the quota of the window is used
    up, once more after the sleep ([after]); it is given both readings and
    returns the time it slept, if it did. *)
Module RateLimiter.
Record t := mk {
    per_minute : Z;
    _window_start : Q;
    _sent : Z
  }.

Definition init (per_minute : Z) (now : Q) : t :=
  mk (Z.max per_minute 1) now 0.

Definition window : Q := 60%Q.

Definition wait_for_slot (now after : Q) (self : t) : t * option Q :=
  let self :=
    if Qle_bool window (now - _window_start self)%Q
    then mk (per_minute self) now 0
    else self in
  if (_sent self <? per_minute self)%Z
  then (mk (per_minute self) (_window_start self) (_sent self + 1), None)
  else
    let sleep_for := (window - (now - _window_start self))%Q in
    (mk (per_minute self) after 1,
     if Qle_bool sleep_for 0%Q then None else Some sleep_for).

(** A sequence of calls, each with its clock readings; the result is the
    limiter after the last call and the times slept, in order. *)
Fixpoint run (calls : list (Q * Q)) (self : t) : t * list Q :=
  match calls with
  | [] => (self, [])
  | (now, after) :: calls' =>
      let '(self', slept) := wait_for_slot now after self in
      let '(self'', sleeps) := run calls' self' in
      (self'', (match slept with Some d => [d] | None => [] end ++ sleeps)%list)
  end.

(** The readings of a monotonic clock never decrease: [last] is the reading
    before the calls. *)
Fixpoint monotonic (last : Q) (calls : list (Q * Q)) : Prop :=
  match calls with
  | [] => True
  | (now, after) :: calls' =>
      (last <= now)%Q /\ (now <= after)%Q /\ monotonic after calls'
  end.
End RateLimiter.

(** ** A campaign object that is behind its row

    The orchestrator was given the campaign when its metrics were the
    defaults; since then the row's revenue has been set to 99.5. *)
Module StaleObject.
Definition row : Campaign.t :=
  Campaign.set_metrics (<["revenue" := JReal (199 # 2)%Q]> default_metrics)
    Scenario.campaign.

Definition start : State := mkState Scenario.campaign row [] [] [] [] 1.
End StaleObject.

(** ** Two flagged variants

    A has the higher (clicked, opened) pair and is flagged; so is B. *)
Module TwoFlagged.
Definition variant (id : nat) (label : string) (clicked : nat) : CampaignVariant.t :=
  CampaignVariant.mk id 7 label ∅ (CampaignVariant.mk_metrics 0 0 0 clicked 0) true.

Definition start : State :=
  mkState Scenario.campaign Scenario.campaign []
    [variant 1 "A" 5; variant 2 "B" 3] [] [] 1.
End TwoFlagged.

(** * Properties *)

(** ** Generic facts about the loop combinator *)

(** A property of the state kept by every iteration is kept by the loop,
    whether it ends normally or by an exception. *)
Lemma for_fold_preserves {A B} (I : State -> Prop) (l : list A)
    (body : B -> A -> M B) :
  (forall acc x s, In x l -> I s -> I (snd (body acc x s))) ->
  forall acc s, I s -> I (snd (for_fold l acc body s)).
Proof.
  induction l as [|x l IH]; intros Hbody acc s Hs; simpl.
  - exact Hs.
  - unfold bind.
    pose proof (Hbody acc x s (or_introl eq_refl) Hs) as Hx.
    destruct (body acc x s) as [[acc'|e] s1]; simpl in *.
    + apply IH; [|exact Hx].
      intros acc0 y s0 Hy. apply Hbody. now right.
    + exact Hx.
Qed.

Lemma snd_bind_ret {A B} (m : M A) (f : A -> B) (s : State) :
  snd (bind m (fun a => ret (f a)) s) = snd (m s).
Proof. unfold bind, ret. destruct (m s) as [[a|e] s1]; reflexivity. Qed.

(** ** The personalization call of [build_messages] *)

Lemma call_with_three_arguments campaign base_content customer channel :
  call__personalize campaign [PJson base_content; PCustomer customer; PStr channel]
  = Raise arity_error.
Proof. unfold call__personalize. destruct base_content; reflexivity. Qed.

(** C2. The call [self._personalize(base_content, customer, channel)] made
    by [build_messages] passes one positional argument more than the method
    declares: for every campaign, template, customer and channel it raises
    [TypeError], so no personalized content is produced or stored. *)
Theorem personalize_as_called_raises :
  forall (campaign : Campaign.t) (base_content : json) (customer : Customer.t)
         (channel : string),
    personalize_as_called campaign base_content customer channel = Raise arity_error.
Proof.
  intros campaign base_content customer channel.
  apply call_with_three_arguments.
Qed.

(** With the two arguments the method declares, the body replaces the five
    placeholders and leaves any other token as it is. *)
Example personalize_body_example :
  _personalize
    (Campaign.mk 7 "Spring" (Some (Product.mk "Lamp")) "" "" "en" []
       Campaign.Status.DRAFT ∅ ∅)
    "Hi {{first_name}} {{last_name}} ({{full_name}}, {{customer_email}}): {{product_name}} {{coupon}}"
    (Customer.mk 1 "alice@example.com" "" "Alice" "Liddell" [])
  = "Hi Alice Liddell (Alice Liddell, alice@example.com): Lamp {{coupon}}".
Proof. vm_compute. reflexivity. Qed.

Section AsWritten.

Variable env : Env.

Lemma build_channel_as_written content variant customer created channel s :
  snd (build_channel env personalize_as_called content variant customer created channel s) = s
  /\ (fst (build_channel env personalize_as_called content variant customer created channel s)
        = Ok created
      \/ fst (build_channel env personalize_as_called content variant customer created channel s)
        = Raise arity_error).
Proof.
  unfold build_channel, bind, get_state.
  destruct (negb (truthy (_variant_content content (_template_key channel) variant))).
  - split; [reflexivity | now left].
  - unfold personalize_as_called. rewrite call_with_three_arguments.
    split; [reflexivity | now right].
Qed.

Lemma for_fold_as_written {A} (l : list A) (body : nat -> A -> M nat) :
  (forall acc x s, snd (body acc x s) = s
     /\ (fst (body acc x s) = Ok acc \/ fst (body acc x s) = Raise arity_error)) ->
  forall acc s, snd (for_fold l acc body s) = s
     /\ (fst (for_fold l acc body s) = Ok acc
         \/ fst (for_fold l acc body s) = Raise arity_error).
Proof.
  intros Hbody. induction l as [|x l IH]; intros acc s; simpl.
  - split; [reflexivity | now left].
  - unfold bind. destruct (Hbody acc x s) as [Hs Hr].
    destruct (body acc x s) as [r s1]; simpl in *; subst s1.
    destruct Hr as [-> | ->].
    + apply IH.
    + split; [reflexivity | now right].
Qed.

Lemma build_customer_as_written content variant created customer s :
  snd (build_customer env personalize_as_called content variant created customer s) = s
  /\ (fst (build_customer env personalize_as_called content variant created customer s)
        = Ok created
      \/ fst (build_customer env personalize_as_called content variant created customer s)
        = Raise arity_error).
Proof.
  unfold build_customer, bind, get_state.
  apply for_fold_as_written. intros. apply build_channel_as_written.
Qed.

(** C3. [build_messages] as written never returns a positive count and
    never writes a message: whatever the customers, content and variant, it
    either returns 0 (no customer has a channel with content) or raises the
    [TypeError] of the personalization call, and the message table is the
    one it started with. *)
Theorem build_messages_as_written :
  forall (customers : list Customer.t) (content : gmap string json)
         (variant : option CampaignVariant.t) (s : State),
    messages (snd (build_messages env customers content variant s)) = messages s
    /\ (fst (build_messages env customers content variant s) = Ok 0
        \/ fst (build_messages env customers content variant s) = Raise arity_error).
Proof.
  intros customers content variant s.
  unfold build_messages, build_messages_with, bind.
  destruct (for_fold_as_written customers
              (build_customer env personalize_as_called content variant)
              (build_customer_as_written content variant) 0 s) as [Hs Hr].
  destruct (for_fold customers 0 _ s) as [r s1]; simpl in *; subst s1.
  destruct Hr as [-> | ->]; simpl.
  - split; [reflexivity | now left].
  - split; [reflexivity | now right].
Qed.

End AsWritten.

(** ** The end-to-end scenario *)

(** C1. In the scenario of the specification (channels email and whatsapp
    enabled, the one customer Alice with an email and no phone number, the
    contents "Hi first_name" for email and "..." for whatsapp),
    [build_messages] raises the [TypeError] of its personalization call at
    the email channel and leaves the state as it was: no message is
    produced, whatever the providers. *)
Theorem end_to_end_build_raises :
  forall env : Env,
    build_messages env [Scenario.alice] Scenario.content None Scenario.start
    = (Raise arity_error, Scenario.start).
Proof. intros env. vm_compute. reflexivity. Qed.

(** The same scenario with the personalization called on the two arguments
    the method declares: one email message "Hi Alice", one send, and the
    campaign completed. *)
Example end_to_end_two_args :
  let built :=
    build_messages_with Scenario.providers_up personalize_two_args
      [Scenario.alice] Scenario.content None Scenario.start in
  let sent := send_pending_messages Scenario.providers_up true (snd built) in
  fst built = Ok 1
  /\ map (fun m => (CampaignMessage.channel m, CampaignMessage.content m))
         (messages (snd built)) = [("email", "Hi Alice")]
  /\ fst sent = Ok (mkCounts 1 0)
  /\ Campaign.status
       (campaign_row (snd (save_campaign_status Campaign.Status.RUNNING (snd built))))
     = Campaign.Status.RUNNING
  /\ Campaign.status (campaign_row (snd sent)) = Campaign.Status.COMPLETED.
Proof. vm_compute. repeat split; reflexivity. Qed.

(** ** Draft guard *)

(** C9. On a campaign whose status is draft, [send_pending_messages] with
    [force = False] raises the [ValueError] of the guard and returns the
    state it was given: campaign object and row, messages, logs, variants
    and notifications are all unchanged. *)
Theorem draft_guard :
  forall (env : Env) (s : State),
    Campaign.status (self_campaign s) = Campaign.Status.DRAFT ->
    send_pending_messages env false s
    = (Raise (ValueError "Campaign must be scheduled or running before dispatch"), s).
Proof.
  intros env s Hdraft.
  unfold send_pending_messages, bind, get_state, raise.
  rewrite Hdraft. reflexivity.
Qed.

Lemma draft_guard_witness :
  Campaign.status (self_campaign Scenario.start) = Campaign.Status.DRAFT
  /\ send_pending_messages Scenario.providers_up false Scenario.start
     = (Raise (ValueError "Campaign must be scheduled or running before dispatch"),
        Scenario.start).
Proof.
  split; [reflexivity|].
  apply (draft_guard Scenario.providers_up Scenario.start). reflexivity.
Defined.

(** ** Channel eligibility *)

Lemma str_in_In x l : str_in x l = true <-> In x l.
Proof.
  unfold str_in. rewrite existsb_exists. split.
  - intros [y [Hy Heq]]. apply String.eqb_eq in Heq. now subst.
  - intros H. exists x. split; [exact H | apply String.eqb_refl].
Qed.

(** Without a phone number the loop of [_resolve_channels] never appends
    a phone channel. *)
Lemma resolve_loop_no_phone enabled ordered :
  forall deduped ch,
    ch = CampaignMessage.Channel.WHATSAPP \/ ch = CampaignMessage.Channel.SMS ->
    ~ In ch deduped ->
    ~ In ch (resolve_loop enabled "" ordered deduped).
Proof.
  induction ordered as [|c rest IH]; intros deduped ch Hch Hnot; simpl.
  - exact Hnot.
  - destruct (negb (str_in c enabled)); [now apply IH|].
    destruct (String.eqb c CampaignMessage.Channel.WHATSAPP) eqn:Hw; simpl;
      [now apply IH|].
    destruct (String.eqb c CampaignMessage.Channel.SMS) eqn:Hs; simpl;
      [now apply IH|].
    destruct (negb (str_in c deduped)); [|now apply IH].
    apply IH; [exact Hch|].
    rewrite in_app_iff. intros [Hin | [Heq | []]]; [now apply Hnot|].
    subst c. destruct Hch as [-> | ->].
    + rewrite String.eqb_refl in Hw. discriminate.
    + rewrite String.eqb_refl in Hs. discriminate.
Qed.

Lemma resolve_channels_no_phone campaign customer ch :
  Customer.phone_number customer = "" ->
  ch = CampaignMessage.Channel.WHATSAPP \/ ch = CampaignMessage.Channel.SMS ->
  ~ In ch (_resolve_channels campaign customer).
Proof.
  intros Hphone Hch. unfold _resolve_channels. rewrite Hphone.
  apply resolve_loop_no_phone; [exact Hch | intros []].
Qed.

Lemma fallback_channels_no_phone campaign primary customer ch :
  Customer.phone_number customer = "" ->
  ch = CampaignMessage.Channel.WHATSAPP \/ ch = CampaignMessage.Channel.SMS ->
  ~ In ch (_fallback_channels campaign primary customer).
Proof.
  intros Hphone Hch Hin. unfold _fallback_channels in Hin.
  apply filter_In in Hin. destruct Hin as [Hin _].
  now apply (resolve_channels_no_phone campaign customer ch).
Qed.

Lemma message_metadata_fallback campaign content channel customer variant :
  message_metadata campaign content channel customer variant !! "fallback_channels"
  = Some (JList (_fallback_channels campaign channel customer)).
Proof.
  unfold message_metadata.
  rewrite !lookup_insert_ne by discriminate.
  apply lookup_insert_eq.
Qed.

Lemma same_triple_spec cid cust ch m :
  same_triple cid cust ch m = true ->
  CampaignMessage.campaign m = cid
  /\ Customer.id (CampaignMessage.customer m) = Customer.id cust
  /\ CampaignMessage.channel m = ch.
Proof.
  unfold same_triple. rewrite !andb_true_iff.
  intros [[H1 H2] H3].
  apply Nat.eqb_eq in H1. apply Nat.eqb_eq in H2. apply String.eqb_eq in H3.
  auto.
Qed.

(** A row of the table after an upsert is a row of the table before it, or
    carries the channel, the customer and the metadata of the upsert. *)
Lemma update_or_create_rows env cid cust ch d s r :
  In r (messages (snd (update_or_create env cid cust ch d s))) ->
  In r (messages s)
  \/ (CampaignMessage.channel r = ch
      /\ Customer.id (CampaignMessage.customer r) = Customer.id cust
      /\ CampaignMessage.metadata r = d_metadata d).
Proof.
  unfold update_or_create, bind, get_state.
  destruct (List.filter (same_triple cid cust ch) (messages s)) as [|obj [|obj2 others]] eqn:Hf;
    simpl.
  - rewrite in_app_iff. intros [Hin | [<- | []]]; [now left | right]. simpl. auto.
  - unfold update_message. rewrite in_map_iff. intros [x [Hx Hin]].
    destruct (Nat.eqb (CampaignMessage.id x) (CampaignMessage.id obj)).
    + right. subst r.
      assert (Hobj : In obj (List.filter (same_triple cid cust ch) (messages s)))
        by (rewrite Hf; now left).
      apply filter_In in Hobj. destruct Hobj as [_ Hobj].
      apply same_triple_spec in Hobj. destruct Hobj as (_ & H2 & H3).
      simpl. auto.
    + left. now subst r.
  - intros Hin. now left.
Qed.

Section Eligibility.

Variable env : Env.
Variable personalize_call : Campaign.t -> json -> Customer.t -> string -> outcome string.
Variable cid : nat.
Variable before : list CampaignMessage.t.

Lemma build_channel_eligible content variant customer created channel s :
  (Customer.id customer = cid -> Customer.phone_number customer = "") ->
  In channel (_resolve_channels (self_campaign s) customer) ->
  eligible cid before s ->
  eligible cid before (snd (build_channel env personalize_call content variant customer
                   created channel s)).
Proof.
  intros Hphone Hch Hs. unfold build_channel.
  unfold bind at 1. unfold get_state.
  destruct (negb (truthy _)); [exact Hs|].
  destruct (personalize_call _ _ _ _) as [personalized|e]; [|exact Hs].
  rewrite snd_bind_ret.
  intros r Hr. apply update_or_create_rows in Hr.
  destruct Hr as [Hold | (Hc & Hcu & Hmeta)]; [now apply Hs|].
  right. intros Hid. rewrite Hcu in Hid. specialize (Hphone Hid).
  unfold phone_free. rewrite Hc, Hmeta. simpl d_metadata.
  rewrite message_metadata_fallback.
  split; [|split].
  - intros ->. eapply (resolve_channels_no_phone (self_campaign s) customer);
      [exact Hphone | | exact Hch]. now left.
  - intros ->. eapply (resolve_channels_no_phone (self_campaign s) customer);
      [exact Hphone | | exact Hch]. now right.
  - intros l Hl. injection Hl as <-.
    split; apply fallback_channels_no_phone; auto.
Qed.

Lemma build_customer_eligible content variant created customer s :
  (Customer.id customer = cid -> Customer.phone_number customer = "") ->
  eligible cid before s ->
  eligible cid before (snd (build_customer env personalize_call content variant created
                   customer s)).
Proof.
  intros Hphone Hs. unfold build_customer, bind, get_state.
  (* the campaign object is not written by the loop over the channels *)
  set (campaign := self_campaign s).
  assert (Hinv : forall acc s0,
    (eligible cid before s0 /\ self_campaign s0 = campaign) ->
    (eligible cid before (snd (for_fold (_resolve_channels campaign customer) acc
                      (build_channel env personalize_call content variant customer) s0))
     /\ self_campaign (snd (for_fold (_resolve_channels campaign customer) acc
                      (build_channel env personalize_call content variant customer) s0))
        = campaign)).
  { intros acc s0 H0.
    apply (for_fold_preserves
             (fun s1 => eligible cid before s1 /\ self_campaign s1 = campaign));
      [|exact H0].
    intros acc0 ch s1 Hin [He Hc]. split.
    - apply build_channel_eligible; [exact Hphone | now rewrite Hc | exact He].
    - unfold build_channel, bind, get_state.
      destruct (negb (truthy _)); [exact Hc|].
      destruct (personalize_call _ _ _ _); [|exact Hc].
      unfold update_or_create, bind, get_state.
      destruct (List.filter _ (messages s1)) as [|? [|? ?]]; exact Hc. }
  apply Hinv. split; [exact Hs | reflexivity].
Qed.

End Eligibility.

(** C4. Whatever the campaign, the content, the variant and the behaviour
    of the personalization call: when every customer passed to
    [build_messages] under the identifier [cid] has an empty phone number,
    every row the build creates or rewrites for that customer is on a
    channel other than whatsapp and sms, and the [fallback_channels] list in
    its metadata names neither; [_resolve_channels] and [_fallback_channels]
    never return them for such a customer. *)
Theorem channel_eligibility :
  forall (env : Env)
         (personalize_call : Campaign.t -> json -> Customer.t -> string -> outcome string)
         (customers : list Customer.t) (content : gmap string json)
         (variant : option CampaignVariant.t) (s : State) (cid : nat),
    (forall c, In c customers -> Customer.id c = cid -> Customer.phone_number c = "") ->
    (forall c campaign primary, In c customers -> Customer.id c = cid ->
       ~ In CampaignMessage.Channel.WHATSAPP (_resolve_channels campaign c)
       /\ ~ In CampaignMessage.Channel.SMS (_resolve_channels campaign c)
       /\ ~ In CampaignMessage.Channel.WHATSAPP (_fallback_channels campaign primary c)
       /\ ~ In CampaignMessage.Channel.SMS (_fallback_channels campaign primary c))
    /\ (forall r,
          In r (messages (snd (build_messages_with env personalize_call customers
                                 content variant s))) ->
          ~ In r (messages s) ->
          Customer.id (CampaignMessage.customer r) = cid ->
          phone_free r).
Proof.
  intros env personalize_call customers content variant s cid Hphone. split.
  - intros c campaign primary Hc Hid. specialize (Hphone c Hc Hid).
    repeat split.
    + apply resolve_channels_no_phone; auto.
    + apply resolve_channels_no_phone; auto.
    + apply fallback_channels_no_phone; auto.
    + apply fallback_channels_no_phone; auto.
  - assert (Hloop : eligible cid (messages s)
             (snd (for_fold customers 0
                     (build_customer env personalize_call content variant) s))).
    { apply (for_fold_preserves (eligible cid (messages s))).
      - intros acc c s0 Hin Hs0. apply build_customer_eligible; [|exact Hs0].
        now apply Hphone.
      - intros r Hr. now left. }
    intros r Hr Hnew Hid.
    unfold build_messages_with, bind in Hr.
    destruct (for_fold customers 0 _ s) as [[created|e] s1]; simpl in *.
    + destruct (Hloop r Hr) as [Hold | Hfree]; [contradiction | now apply Hfree].
    + destruct (Hloop r Hr) as [Hold | Hfree]; [contradiction | now apply Hfree].
Qed.

(** ** Fallback spawning *)

(** What [_queue_fallback] does to the message table: nothing, or one row
    appended for the first fallback channel when no row has its triple. *)
Lemma queue_fallback_messages env message s :
  messages (snd (_queue_fallback env message s)) = messages s
  \/ exists next rest,
       truthy (fallback_value message) = true
       /\ head_and_tail (fallback_value message) = Ok (next, rest)
       /\ List.filter (same_triple (Campaign.id (self_campaign s))
                         (CampaignMessage.customer message) next) (messages s) = []
       /\ messages (snd (_queue_fallback env message s))
          = (messages s ++ [fallback_row env s message next rest])%list.
Proof.
  unfold _queue_fallback. fold (fallback_value message).
  destruct (truthy (fallback_value message)) eqn:Ht; simpl; [|now left].
  destruct (head_and_tail (fallback_value message)) as [[next rest]|e] eqn:Hh;
    [|now left].
  unfold get_or_create, bind, get_state. cbn beta.
  destruct (List.filter _ (messages s)) as [|obj [|obj2 others]] eqn:Hf; simpl.
  - right. exists next, rest. repeat split; auto.
  - now left.
  - now left.
Qed.

Lemma fallback_row_len env s message next rest :
  fallback_len (fallback_row env s message next rest) = json_len rest.
Proof.
  unfold fallback_len, fallback_value, fallback_row. simpl.
  rewrite bool_decide_eq_false_2 by apply insert_non_empty.
  unfold dict_get.
  rewrite lookup_insert_ne by discriminate.
  now rewrite lookup_insert_eq.
Qed.

Lemma head_and_tail_len j next rest :
  head_and_tail j = Ok (next, rest) -> json_len j = S (json_len rest).
Proof.
  destruct j as [| | | |str|l]; simpl; try discriminate.
  - destruct str; [discriminate|]. intros H. injection H as _ <-. reflexivity.
  - destruct l; [discriminate|]. intros H. injection H as _ <-. reflexivity.
Qed.

Lemma spawns_shrinks env message r :
  spawns env message r -> fallback_len r + 1 = fallback_len message.
Proof.
  intros [s [Hin Hnew]].
  destruct (queue_fallback_messages env message s)
    as [Heq | (next & rest & _ & Hh & _ & Heq)]; rewrite Heq in Hin.
  - contradiction.
  - apply in_app_iff in Hin. destruct Hin as [Hin | [<- | []]]; [contradiction|].
    rewrite fallback_row_len. unfold fallback_len.
    rewrite (head_and_tail_len _ _ _ Hh). lia.
Qed.

(** C6. A row spawned by [_queue_fallback] carries a [fallback_channels]
    value exactly one shorter than the one of the failed message; a message
    whose [fallback_channels] is absent or empty makes [_queue_fallback]
    return without touching the state; and the relation "is spawned by" is
    well-founded, so every chain of spawns is finite. *)
Theorem fallback_chain_terminates :
  forall env : Env,
    (forall message r, spawns env message r ->
       fallback_len r + 1 = fallback_len message)
    /\ (forall message s,
          CampaignMessage.metadata message !! "fallback_channels" = None
          \/ CampaignMessage.metadata message !! "fallback_channels" = Some (JList []) ->
          _queue_fallback env message s = (Ok tt, s))
    /\ well_founded (fun r message => spawns env message r).
Proof.
  intros env. split; [|split].
  - apply spawns_shrinks.
  - intros message s Habsent. unfold _queue_fallback.
    assert (Hfalsy : truthy (if bool_decide (CampaignMessage.metadata message = ∅)
                             then JList []
                             else dict_get (CampaignMessage.metadata message)
                                    "fallback_channels") = false).
    { destruct (bool_decide _); [reflexivity|].
      unfold dict_get. destruct Habsent as [-> | ->]; reflexivity. }
    rewrite Hfalsy. reflexivity.
  - apply (well_founded_lt_compat _ fallback_len).
    intros r message Hsp. apply spawns_shrinks in Hsp. lia.
Qed.

(** C10. When the failed message has a first fallback channel [next] (its
    [fallback_channels] is truthy and can be indexed): if some row already
    has the triple (campaign, customer, [next]), [_queue_fallback] leaves
    the whole message table as it is; if none has, it appends exactly one
    row, with the content and variant of the failed message, status pending,
    the rest of the fallback list and the [fallback_of] pointer. *)
Theorem fallback_never_overwrites :
  forall (env : Env) (message : CampaignMessage.t) (s : State)
         (next : string) (rest : json),
    truthy (fallback_value message) = true ->
    head_and_tail (fallback_value message) = Ok (next, rest) ->
    let existing :=
      List.filter (same_triple (Campaign.id (self_campaign s))
                     (CampaignMessage.customer message) next) (messages s) in
    (existing <> [] ->
       messages (snd (_queue_fallback env message s)) = messages s)
    /\ (existing = [] ->
          messages (snd (_queue_fallback env message s))
          = (messages s ++ [fallback_row env s message next rest])%list).
Proof.
  intros env message s next rest Ht Hh existing. subst existing.
  unfold _queue_fallback. fold (fallback_value message).
  rewrite Ht, Hh. simpl.
  unfold get_or_create, bind, get_state. cbn beta.
  destruct (List.filter _ (messages s)) as [|obj [|obj2 others]] eqn:Hf; simpl.
  - split; [intros H; now contradiction H | reflexivity].
  - split; [reflexivity | discriminate].
  - split; [reflexivity | discriminate].
Qed.

(** ** Metrics *)

Lemma with_counts_lookup sent opened clicked (metrics : gmap string json) :
  with_counts sent opened clicked metrics !! "sent" = Some (JNum (Z.of_nat sent))
  /\ with_counts sent opened clicked metrics !! "opened" = Some (JNum (Z.of_nat opened))
  /\ with_counts sent opened clicked metrics !! "clicked" = Some (JNum (Z.of_nat clicked))
  /\ forall k, k <> "sent" -> k <> "opened" -> k <> "clicked" ->
       with_counts sent opened clicked metrics !! k = metrics !! k.
Proof.
  unfold with_counts. repeat split.
  - rewrite !lookup_insert_ne by discriminate. apply lookup_insert_eq.
  - rewrite lookup_insert_ne by discriminate. apply lookup_insert_eq.
  - apply lookup_insert_eq.
  - intros k H1 H2 H3. rewrite !lookup_insert_ne by congruence. reflexivity.
Qed.




(** ** Winner selection *)

Lemma outranks_false a b : outranks a b = false <-> lex_le (rank a) (rank b).
Proof.
  unfold outranks, lex_le.
  rewrite orb_false_iff, andb_false_iff, !Nat.ltb_ge, Nat.eqb_neq. lia.
Qed.

Lemma outranks_true a b : outranks a b = true -> lex_le (rank b) (rank a).
Proof.
  unfold outranks, lex_le.
  rewrite orb_true_iff, andb_true_iff, !Nat.ltb_lt, Nat.eqb_eq. lia.
Qed.

Lemma lex_le_refl p : lex_le p p.
Proof. unfold lex_le. lia. Qed.

Lemma lex_le_trans p q r : lex_le p q -> lex_le q r -> lex_le p r.
Proof. unfold lex_le. lia. Qed.

(** [first()] returns a row of the ordered set, and no row sorts before it. *)
Lemma first_by_rank_spec l :
  forall best,
    In (first_by_rank best l) (best :: l)
    /\ forall v, In v (best :: l) -> lex_le (rank v) (rank (first_by_rank best l)).
Proof.
  induction l as [|v0 l IH]; intros best; simpl.
  - split; [now left|]. intros v [<- | []]. apply lex_le_refl.
  - destruct (IH (if outranks v0 best then v0 else best)) as [Hin Hmax].
    split.
    + destruct Hin as [Heq | Hin]; [|now right; right].
      rewrite <- Heq. destruct (outranks v0 best); [right; now left | now left].
    + assert (Hb : lex_le (rank best) (rank (if outranks v0 best then v0 else best))).
      { destruct (outranks v0 best) eqn:Ho;
          [now apply outranks_true | apply lex_le_refl]. }
      assert (Hv : lex_le (rank v0) (rank (if outranks v0 best then v0 else best))).
      { destruct (outranks v0 best) eqn:Ho;
          [apply lex_le_refl | now apply outranks_false]. }
      pose proof (Hmax _ (or_introl eq_refl)) as Htop.
      intros v [<- | [<- | Hv0]].
      * eapply lex_le_trans; eauto.
      * eapply lex_le_trans; eauto.
      * apply Hmax. now right.
Qed.

Lemma winner_of_spec cid vs w :
  winner_of cid vs = Some w ->
  In w (variants_of cid vs)
  /\ forall v, In v (variants_of cid vs) -> lex_le (rank v) (rank w).
Proof.
  unfold winner_of. destruct (variants_of cid vs) as [|v l]; [discriminate|].
  intros H. injection H as <-. apply first_by_rank_spec.
Qed.

Lemma update_variant_row_frame cid msgs vs row :
  map variant_frame (update_variant_row cid msgs vs row) = map variant_frame vs.
Proof.
  unfold update_variant_row. destruct row as [vid|]; [|reflexivity].
  rewrite map_map. apply map_ext. intros v.
  destruct (Nat.eqb (CampaignVariant.id v) vid); reflexivity.
Qed.

Lemma recomputed_frame cid msgs groups :
  forall vs,
    map variant_frame (fold_left (update_variant_row cid msgs) groups vs)
    = map variant_frame vs.
Proof.
  induction groups as [|g groups IH]; intros vs; simpl; [reflexivity|].
  rewrite IH. apply update_variant_row_frame.
Qed.

Lemma same_frame_In vs vs' v :
  map variant_frame vs' = map variant_frame vs ->
  In v vs' -> exists v0, In v0 vs /\ variant_frame v0 = variant_frame v.
Proof.
  intros Hmap Hin. apply (in_map variant_frame) in Hin.
  rewrite Hmap in Hin. apply in_map_iff in Hin.
  destruct Hin as [v0 [Hf Hv0]]. exists v0. auto.
Qed.

Lemma same_frame_nonempty cid vs vs' :
  map variant_frame vs' = map variant_frame vs ->
  variants_of cid vs <> [] -> variants_of cid vs' <> [].
Proof.
  revert vs'. induction vs as [|v vs IH]; intros vs' Hmap Hne; [now contradiction Hne|].
  destruct vs' as [|v' vs']; [discriminate|].
  simpl in Hmap. injection Hmap as Hv Hmap.
  unfold variants_of in *. simpl in *.
  assert (Hc : CampaignVariant.campaign v' = CampaignVariant.campaign v).
  { unfold variant_frame in Hv. congruence. }
  rewrite Hc. destruct (Nat.eqb (CampaignVariant.campaign v) cid); [discriminate|].
  now apply IH.
Qed.

Lemma at_most_one_winner_frame cid vs vs' :
  map variant_frame vs' = map variant_frame vs ->
  at_most_one_winner cid vs -> at_most_one_winner cid vs'.
Proof.
  intros Hmap H a b Ha Hb Hca Hcb Hwa Hwb.
  destruct (same_frame_In _ _ _ Hmap Ha) as [a0 [Ha0 Hfa]].
  destruct (same_frame_In _ _ _ Hmap Hb) as [b0 [Hb0 Hfb]].
  unfold variant_frame in Hfa, Hfb.
  injection Hfa as Hia Hca0 Hwa0. injection Hfb as Hib Hcb0 Hwb0.
  rewrite <- Hia, <- Hib. apply H; congruence.
Qed.

(** The aggregator on a list of variants whose metrics are up to date. *)
Lemma flag_winner cid vs w :
  at_most_one_winner cid vs ->
  winner_of cid vs = Some w ->
  let vs' :=
    if CampaignVariant.is_winner w then vs
    else
      map (fun v => if Nat.eqb (CampaignVariant.id v) (CampaignVariant.id w)
                    then CampaignVariant.set_is_winner true v else v)
        (map (fun v => if Nat.eqb (CampaignVariant.campaign v) cid
                       then CampaignVariant.set_is_winner false v else v) vs) in
  exists w', In w' (variants_of cid vs')
    /\ CampaignVariant.is_winner w' = true
    /\ (forall v, In v (variants_of cid vs') -> lex_le (rank v) (rank w'))
    /\ (forall v, In v (variants_of cid vs') ->
          CampaignVariant.id v <> CampaignVariant.id w' ->
          CampaignVariant.is_winner v = false).
Proof.
  intros Hone Hw. destruct (winner_of_spec _ _ _ Hw) as [Hin Hmax].
  destruct (CampaignVariant.is_winner w) eqn:Hflag; cbn zeta.
  - exists w. repeat split; auto.
    intros v Hv Hid. destruct (CampaignVariant.is_winner v) eqn:Hvw; [|reflexivity].
    exfalso. apply Hid.
    unfold variants_of in Hin, Hv. apply filter_In in Hin, Hv.
    destruct Hin as [Hin Hc], Hv as [Hv Hcv].
    apply Nat.eqb_eq in Hc, Hcv. apply Hone; auto.
  - exists (CampaignVariant.set_is_winner true w).
    assert (Himg : forall v, In v (variants_of cid
              (map (fun v => if Nat.eqb (CampaignVariant.id v) (CampaignVariant.id w)
                    then CampaignVariant.set_is_winner true v else v)
                (map (fun v => if Nat.eqb (CampaignVariant.campaign v) cid
                       then CampaignVariant.set_is_winner false v else v) vs))) ->
            exists v0, In v0 (variants_of cid vs)
              /\ v = (if Nat.eqb (CampaignVariant.id v0) (CampaignVariant.id w)
                      then CampaignVariant.set_is_winner true v0
                      else CampaignVariant.set_is_winner false v0)).
    { intros v Hv. unfold variants_of in Hv. apply filter_In in Hv.
      destruct Hv as [Hv Hcv]. rewrite map_map in Hv. apply in_map_iff in Hv.
      destruct Hv as [v0 [Hv0 Hin0]]. exists v0.
      destruct (Nat.eqb (CampaignVariant.campaign v0) cid) eqn:Hc0.
      - split; [apply filter_In; auto|].
        simpl in Hv0. rewrite <- Hv0.
        destruct (Nat.eqb (CampaignVariant.id v0) (CampaignVariant.id w)); reflexivity.
      - exfalso. simpl in Hv0.
        destruct (Nat.eqb (CampaignVariant.id v0) (CampaignVariant.id w));
          subst v; simpl in Hcv; congruence. }
    repeat split.
    + unfold variants_of in *. apply filter_In in Hin. destruct Hin as [Hin Hc].
      apply filter_In. split; [|exact Hc].
      rewrite map_map. apply in_map_iff. exists w. split; [|exact Hin].
      rewrite Hc. simpl. now rewrite Nat.eqb_refl.
    + intros v Hv. destruct (Himg v Hv) as [v0 [Hv0 ->]].
      specialize (Hmax v0 Hv0).
      destruct (Nat.eqb (CampaignVariant.id v0) (CampaignVariant.id w)); exact Hmax.
    + intros v Hv Hid. destruct (Himg v Hv) as [v0 [Hv0 ->]].
      destruct (Nat.eqb (CampaignVariant.id v0) (CampaignVariant.id w)) eqn:He;
        [|reflexivity].
      apply Nat.eqb_eq in He. simpl in Hid. congruence.
Qed.

(** C8. On a campaign that has variants, of which at most one is flagged
    when the aggregator starts, [update_campaign_metrics] leaves exactly one
    variant of the campaign flagged [is_winner]: one whose (clicked, opened)
    pair no sibling exceeds in the lexicographic order, every sibling being
    unflagged; so at most one is flagged when the aggregator runs again.
    For A (10 clicked, 20 opened), B (15, 5) and C (15, 30), counted from
    their messages, exactly C is the winner. *)
Theorem winner_selection :
  (forall s : State,
     let cid := Campaign.id (self_campaign s) in
     let after := variants_of cid (variants (snd (update_campaign_metrics s))) in
     at_most_one_winner cid (variants s) ->
     variants_of cid (variants s) <> [] ->
     (exists w, In w after
        /\ CampaignVariant.is_winner w = true
        /\ (forall v, In v after -> lex_le (rank v) (rank w))
        /\ (forall v, In v after ->
              CampaignVariant.id v <> CampaignVariant.id w ->
              CampaignVariant.is_winner v = false))
     /\ at_most_one_winner cid (variants (snd (update_campaign_metrics s))))
  /\ map ThreeVariants.summary
       (variants (snd (update_campaign_metrics ThreeVariants.start)))
     = [("A", 10, 20, false); ("B", 15, 5, false); ("C", 15, 30, true)].
Proof.
  split; [|vm_compute; reflexivity].
  intros s cid after Hone Hne.
  assert (Hex : exists w, In w after
            /\ CampaignVariant.is_winner w = true
            /\ (forall v, In v after -> lex_le (rank v) (rank w))
            /\ (forall v, In v after ->
                  CampaignVariant.id v <> CampaignVariant.id w ->
                  CampaignVariant.is_winner v = false)).
  { subst after.
    unfold update_campaign_metrics, modify. cbn [snd]. fold cid.
    set (vs := fold_left (update_variant_row cid (messages s))
                 (variant_groups cid (messages s)) (variants s)).
    assert (Hframe : map variant_frame vs = map variant_frame (variants s))
      by apply recomputed_frame.
    pose proof (at_most_one_winner_frame cid _ _ Hframe Hone) as Hone'.
    pose proof (same_frame_nonempty cid _ _ Hframe Hne) as Hne'.
    destruct (winner_of cid vs) as [w|] eqn:Hw.
    - pose proof (flag_winner cid vs w Hone' Hw) as Hflag. cbn zeta in Hflag.
      destruct (CampaignVariant.is_winner w); exact Hflag.
    - exfalso. unfold winner_of in Hw.
      destruct (variants_of cid vs); [now apply Hne' | discriminate]. }
  split; [exact Hex|].
  destruct Hex as (w & _ & _ & _ & Hothers).
  assert (Hw : forall a, In a (variants (snd (update_campaign_metrics s))) ->
            CampaignVariant.campaign a = cid ->
            CampaignVariant.is_winner a = true ->
            CampaignVariant.id a = CampaignVariant.id w).
  { intros a Ha Hc Hflag.
    destruct (Nat.eq_dec (CampaignVariant.id a) (CampaignVariant.id w)) as [|Hne'];
      [assumption|].
    assert (Hin : In a after).
    { apply filter_In. split; [exact Ha | now apply Nat.eqb_eq]. }
    rewrite (Hothers a Hin Hne') in Hflag. discriminate. }
  intros a b Ha Hb Hca Hcb Hwa Hwb.
  rewrite (Hw a Ha Hca Hwa), (Hw b Hb Hcb Hwb). reflexivity.
Qed.

Lemma winner_selection_witness :
  exists w,
    In w (variants_of 7 (variants (snd (update_campaign_metrics ThreeVariants.start))))
    /\ CampaignVariant.is_winner w = true
    /\ (forall v,
          In v (variants_of 7 (variants (snd (update_campaign_metrics ThreeVariants.start)))) ->
          lex_le (rank v) (rank w))
    /\ (forall v,
          In v (variants_of 7 (variants (snd (update_campaign_metrics ThreeVariants.start)))) ->
          CampaignVariant.id v <> CampaignVariant.id w ->
          CampaignVariant.is_winner v = false).
Proof.
  refine (proj1 (proj1 winner_selection ThreeVariants.start _ _)).
  - intros a b Ha Hb _ _ Hwa _. exfalso.
    simpl in Ha. destruct Ha as [<- | [<- | [<- | []]]]; discriminate Hwa.
  - discriminate.
Defined.

(** C8 as stated fails: when the variant that sorts first is already
    flagged, the aggregator clears no flag. With A (5 clicked) and
    B (3 clicked) both flagged, both are flagged afterwards. *)
Lemma winner_selection_keeps_second_flag :
  ~ (forall s : State,
       let cid := Campaign.id (self_campaign s) in
       let after := variants_of cid (variants (snd (update_campaign_metrics s))) in
       variants_of cid (variants s) <> [] ->
       exists w, In w after
         /\ CampaignVariant.is_winner w = true
         /\ (forall v, In v after -> lex_le (rank v) (rank w))
         /\ (forall v, In v after ->
               CampaignVariant.id v <> CampaignVariant.id w ->
               CampaignVariant.is_winner v = false)).
Proof.
  intros H. destruct (H TwoFlagged.start) as (w & Hw & _ & _ & Hothers);
    [discriminate|].
  assert (Hafter : variants_of 7
                     (variants (snd (update_campaign_metrics TwoFlagged.start)))
                   = [TwoFlagged.variant 1 "A" 5; TwoFlagged.variant 2 "B" 3])
    by reflexivity.
  change (Campaign.id (self_campaign TwoFlagged.start)) with 7 in Hw, Hothers.
  rewrite Hafter in Hw, Hothers.
  destruct Hw as [<- | [<- | []]].
  - specialize (Hothers (TwoFlagged.variant 2 "B" 3)).
    discriminate Hothers; [right; left; reflexivity | discriminate].
  - specialize (Hothers (TwoFlagged.variant 1 "A" 5)).
    discriminate Hothers; [left; reflexivity | discriminate].
Qed.

(** ** Retry bound *)

Lemma dispatch_status env campaign message result :
  dispatch_message env campaign message = inr result ->
  DispatchResult.status result = CampaignMessage.Status.SENT.
Proof.
  unfold dispatch_message, _send_email, _send_whatsapp, _send_sms, _send_social.
  repeat match goal with
         | |- context [if ?b then _ else _] => destruct b
         | |- context [match ?x with _ => _ end] => destruct x
         end;
    intros H; try discriminate; injection H as <-; reflexivity.
Qed.

Lemma update_message_compose pk f h l :
  (forall r, CampaignMessage.id (f r) = CampaignMessage.id r) ->
  update_message pk h (update_message pk f l)
  = update_message pk (fun r => h (f r)) l.
Proof.
  intros Hid. unfold update_message. rewrite map_map. apply map_ext.
  intros r. destruct (Nat.eqb (CampaignMessage.id r) pk) eqn:He.
  - now rewrite Hid, He.
  - now rewrite He.
Qed.

Lemma update_message_ids pk f l :
  (forall r, CampaignMessage.id (f r) = CampaignMessage.id r) ->
  map CampaignMessage.id (update_message pk f l) = map CampaignMessage.id l.
Proof.
  intros Hid. unfold update_message. rewrite map_map. apply map_ext.
  intros r. destruct (Nat.eqb (CampaignMessage.id r) pk); [apply Hid | reflexivity].
Qed.

Lemma queue_fallback_shape env message s :
  exists extra newlogs,
    self_campaign (snd (_queue_fallback env message s)) = self_campaign s
    /\ messages (snd (_queue_fallback env message s)) = (messages s ++ extra)%list
    /\ logs (snd (_queue_fallback env message s)) = (logs s ++ newlogs)%list
    /\ ((extra = [] /\ next_id (snd (_queue_fallback env message s)) = next_id s)
        \/ exists row,
             extra = [row]
             /\ CampaignMessage.id row = next_id s
             /\ next_id (snd (_queue_fallback env message s)) = S (next_id s)
             /\ CampaignMessage.attempts row = 0)
    /\ (newlogs = []
        \/ exists entry,
             newlogs = [entry]
             /\ is_fallback_log entry = true
             /\ CampaignLog.message entry = Some (CampaignMessage.id message)).
Proof.
  unfold _queue_fallback. fold (fallback_value message).
  destruct (truthy (fallback_value message)); simpl;
    [|exists [], []; rewrite !app_nil_r; repeat split; auto].
  destruct (head_and_tail (fallback_value message)) as [[next rest]|e];
    [|exists [], []; simpl; rewrite !app_nil_r; repeat split; auto].
  unfold get_or_create, bind, get_state. cbn beta.
  destruct (List.filter _ (messages s)) as [|obj [|obj2 others]]; simpl.
  - eexists [_], [_]. repeat split.
    + right. eexists. repeat split.
    + right. eexists. repeat split.
  - eexists [], [_]. rewrite app_nil_r. repeat split.
    + now left.
    + right. eexists. repeat split.
  - exists [], []. rewrite !app_nil_r. repeat split; auto.
Qed.

Lemma handle_failure_shape env message exc s :
  let st :=
    if Nat.ltb (CampaignMessage.attempts message) (CampaignMessage.max_attempts message)
    then CampaignMessage.Status.PENDING else CampaignMessage.Status.FAILED in
  let s' := snd (_handle_failure env message exc s) in
  exists extra newlogs,
    self_campaign s' = self_campaign s
    /\ messages s'
       = (update_message (CampaignMessage.id message)
            (fun r => CampaignMessage.set_last_error (substring 0 500 exc)
                        (CampaignMessage.set_status st r))
            (messages s) ++ extra)%list
    /\ logs s' = (logs s ++ newlogs)%list
    /\ ((extra = [] /\ next_id s' = next_id s)
        \/ exists row,
             extra = [row]
             /\ CampaignMessage.id row = next_id s
             /\ next_id s' = S (next_id s)
             /\ CampaignMessage.attempts row = 0)
    /\ (List.filter is_fallback_log newlogs = []
        \/ exists entry,
             List.filter is_fallback_log newlogs = [entry]
             /\ CampaignLog.message entry = Some (CampaignMessage.id message)
             /\ st = CampaignMessage.Status.FAILED).
Proof.
  intros st s'. subst s'.
  unfold _handle_failure, log_create, bind, modify, get_state. cbn beta iota.
  cbn [CampaignMessage.attempts CampaignMessage.max_attempts CampaignMessage.id
       CampaignMessage.status CampaignMessage.last_error
       CampaignMessage.set_status CampaignMessage.set_last_error].
  fold st.
  destruct (Nat.ltb (CampaignMessage.attempts message)
              (CampaignMessage.max_attempts message)) eqn:Hretry; cbn [negb].
  - eexists [], [_]. rewrite app_nil_r. cbn. repeat split. all: now left.
  - match goal with
    | |- context [_queue_fallback env ?m ?s0] =>
        destruct (queue_fallback_shape env m s0)
          as (extra & newlogs & Hc & Hm & Hl & Hx & Hn)
    end.
    exists extra. eexists (_ :: newlogs).
    rewrite Hc, Hm, Hl. cbn. rewrite <- app_assoc. repeat split.
    + exact Hx.
    + destruct Hn as [-> | (entry & -> & Hfb & Hmsg)]; [now left | right].
      exists entry. cbn. rewrite Hfb. cbn in Hmsg. auto.
Qed.

Lemma send_one_shape env counts m s :
  step_shape env m s (snd (send_one env counts m s)).
Proof.
  unfold send_one. fold (prepared m).
  unfold bind at 1. unfold modify at 1. cbn beta iota.
  unfold bind at 1. unfold get_state at 1. cbn beta iota.
  cbn [self_campaign set_messages].
  destruct (dispatch_message env (self_campaign s) (prepared m)) as [exc|result] eqn:Hd;
    rewrite snd_bind_ret.
  - match goal with
    | |- context [_handle_failure env ?msg ?e ?s0] =>
        destruct (handle_failure_shape env msg e s0)
          as (extra & newlogs & Hc & Hm & Hl & Hx & Hn)
    end.
    cbn [messages logs next_id self_campaign set_messages] in Hc, Hm, Hl, Hx.
    rewrite update_message_compose in Hm by (intros r; reflexivity).
    eexists _, extra, newlogs,
      (if Nat.ltb (CampaignMessage.attempts (prepared m))
                  (CampaignMessage.max_attempts (prepared m))
       then CampaignMessage.Status.PENDING else CampaignMessage.Status.FAILED).
    split; [exact Hc|]. split; [exact Hm|].
    split; [exact Hl|]. split; [intros r; repeat split|].
    split; [|split; [exact Hx | exact Hn]].
    right. cbn [prepared CampaignMessage.attempts CampaignMessage.max_attempts
                CampaignMessage.set_attempts CampaignMessage.set_status].
    destruct (Nat.ltb (CampaignMessage.attempts m + 1) (CampaignMessage.max_attempts m))
      eqn:Hretry.
    + left. apply Nat.ltb_lt in Hretry. auto.
    + right. apply Nat.ltb_ge in Hretry. auto.
  - unfold _handle_success, log_create, bind, modify, get_state. cbn beta iota.
    cbn [messages logs next_id self_campaign set_messages set_logs snd].
    rewrite update_message_compose by (intros r; reflexivity).
    eexists _, [], [_], (DispatchResult.status result). rewrite app_nil_r.
    split; [reflexivity|]. split; [reflexivity|]. split; [reflexivity|].
    split; [intros r; repeat split|].
    split; [|split; [now left | now left]].
    left. split; [|now exists result].
    cbn. now apply dispatch_status in Hd.
Qed.

Lemma same_id_same_row (l : list CampaignMessage.t) a b :
  NoDup (map CampaignMessage.id l) -> In a l -> In b l ->
  CampaignMessage.id a = CampaignMessage.id b -> a = b.
Proof.
  induction l as [|x l IH]; simpl; intros Hnd Ha Hb Hid; [contradiction|].
  apply NoDup_cons in Hnd. destruct Hnd as [Hx Hnd].
  rewrite list_elem_of_In in Hx.
  destruct Ha as [<- | Ha], Hb as [<- | Hb].
  - reflexivity.
  - exfalso. apply Hx. rewrite Hid. now apply in_map.
  - exfalso. apply Hx. rewrite <- Hid. now apply in_map.
  - now apply IH.
Qed.

Lemma In_update_message pk g l r' :
  In r' (update_message pk g l) ->
  exists r, In r l
    /\ ((CampaignMessage.id r = pk /\ r' = g r)
        \/ (CampaignMessage.id r <> pk /\ r' = r)).
Proof.
  unfold update_message. rewrite in_map_iff. intros [r [Hr Hin]].
  exists r. split; [exact Hin|].
  destruct (Nat.eqb (CampaignMessage.id r) pk) eqn:He.
  - left. apply Nat.eqb_eq in He. auto.
  - right. apply Nat.eqb_neq in He. auto.
Qed.

Lemma update_message_other pk g l r :
  In r l -> CampaignMessage.id r <> pk -> In r (update_message pk g l).
Proof.
  intros Hin Hne. unfold update_message. apply in_map_iff. exists r.
  apply Nat.eqb_neq in Hne. rewrite Hne. auto.
Qed.

Lemma fallback_logs_app i l1 l2 :
  fallback_logs i (l1 ++ l2) = (fallback_logs i l1 ++ fallback_logs i l2)%list.
Proof. unfold fallback_logs. apply List.filter_app. Qed.

Lemma fallback_logs_filter i l :
  fallback_logs i l
  = List.filter (fun entry => bool_decide (CampaignLog.message entry = Some i))
      (List.filter is_fallback_log l).
Proof.
  unfold fallback_logs. induction l as [|x l IH]; simpl; [reflexivity|].
  destruct (is_fallback_log x); simpl; rewrite IH; reflexivity.
Qed.

(** One iteration on a message of the table that is still to be sent keeps
    the invariant, and leaves every row with another key as it is. *)
Lemma step_inv env m s s' :
  step_shape env m s s' ->
  delivery_inv s ->
  In m (messages s) ->
  is_pending m = true ->
  delivery_inv s'
  /\ (forall r, In r (messages s) ->
        CampaignMessage.id r <> CampaignMessage.id m -> In r (messages s')).
Proof.
  intros (g & extra & newlogs & st & _ & Hm & Hl & Hg & Hst & Hx & Hn)
         ((Hnd & Hlt) & Hb & Hfb) Hin Hpend.
  assert (Hgid : forall r, CampaignMessage.id (g r) = CampaignMessage.id r)
    by (intros r; apply Hg).
  assert (Hnid : next_id s <= next_id s').
  { destruct Hx as [[_ ->] | (row & _ & _ & -> & _)]; lia. }
  assert (Hm_lt : CampaignMessage.id m < next_id s).
  { rewrite List.Forall_forall in Hlt. now apply Hlt. }
  assert (Hm_b : bounded m).
  { rewrite List.Forall_forall in Hb. now apply Hb. }
  assert (Hst_np : st <> CampaignMessage.Status.PENDING \/
                   CampaignMessage.attempts m + 1 < CampaignMessage.max_attempts m).
  { destruct Hst as [[-> _] | [[_ H] | [-> _]]]; auto; left; discriminate. }
  assert (Hst_ns : st <> CampaignMessage.Status.SCHEDULED).
  { destruct Hst as [[-> _] | [[-> _] | [-> _]]]; discriminate. }
  split; [split; [split|split]|].
  - (* unique keys *)
    rewrite Hm, map_app, update_message_ids by exact Hgid.
    destruct Hx as [[-> _] | (row & -> & Hrow & _ & _)]; simpl;
      [now rewrite app_nil_r|].
    apply NoDup_app. split; [exact Hnd|]. split; [|apply NoDup_singleton].
    intros a Ha Ha'. apply list_elem_of_In in Ha. apply list_elem_of_In in Ha'.
    destruct Ha' as [<- | []]. apply in_map_iff in Ha. destruct Ha as [r [Hr Hrin]].
    rewrite List.Forall_forall in Hlt. specialize (Hlt r Hrin). lia.
  - (* keys below the counter *)
    rewrite Hm. apply List.Forall_app. split.
    + apply List.Forall_forall. intros r' Hr'.
      apply In_update_message in Hr'. destruct Hr' as [r [Hr Hcases]].
      rewrite List.Forall_forall in Hlt. specialize (Hlt r Hr).
      destruct Hcases as [[_ ->] | [_ ->]]; [rewrite Hgid|]; lia.
    + destruct Hx as [[-> _] | (row & -> & Hrow & -> & _)];
        [constructor | constructor; [lia | constructor]].
  - (* budget *)
    rewrite Hm. apply List.Forall_app. split.
    + apply List.Forall_forall. intros r' Hr'.
      apply In_update_message in Hr'. destruct Hr' as [r [Hr Hcases]].
      destruct Hcases as [[Hid ->] | [_ ->]];
        [|rewrite List.Forall_forall in Hb; now apply Hb].
      assert (r = m) by (apply (same_id_same_row (messages s)); auto). subst r.
      destruct (Hg m) as (_ & Hmax & Hatt & Hstatus).
      intros Hpos. rewrite Hmax in Hpos. destruct (Hm_b Hpos) as [_ Hlt_m].
      specialize (Hlt_m Hpend). rewrite Hmax, Hatt. split; [lia|].
      unfold is_pending. rewrite Hstatus, bool_decide_eq_true.
      unfold pending_statuses. rewrite !elem_of_cons, elem_of_nil.
      intros [-> | [-> | []]]; [|congruence].
      destruct Hst_np as [H | H]; [congruence | exact H].
    + destruct Hx as [[-> _] | (row & -> & _ & _ & Hatt)];
        [constructor | constructor; [|constructor]].
      intros Hpos. rewrite Hatt. split; lia.
  - (* fallback entries *)
    intros i. rewrite Hl, fallback_logs_app.
    destruct (Hfb i) as [Hlen Hold].
    assert (Hrows : fallback_logs i (logs s) <> [] ->
              i < next_id s' /\
              forall r', In r' (messages s') -> CampaignMessage.id r' = i ->
                is_pending r' = false).
    { intros Hne. destruct (Hold Hne) as [Hi Hrows]. split; [lia|].
      intros r' Hr' Hid. rewrite Hm in Hr'. apply in_app_iff in Hr'.
      destruct Hr' as [Hr' | Hr'].
      - apply In_update_message in Hr'. destruct Hr' as [r [Hr Hcases]].
        destruct Hcases as [[Hrid ->] | [_ ->]]; [|now apply Hrows].
        exfalso. rewrite Hgid in Hid.
        assert (is_pending m = false) by (apply Hrows; [exact Hin | congruence]).
        congruence.
      - destruct Hx as [[-> _] | (row & -> & Hrow & _ & _)]; [contradiction|].
        destruct Hr' as [<- | []]. lia. }
    destruct Hn as [Hnone | (entry & Hone & Hmsg & Hfailed)].
    + rewrite (fallback_logs_filter i newlogs), Hnone. simpl. rewrite app_nil_r.
      split; [exact Hlen | exact Hrows].
    + rewrite (fallback_logs_filter i newlogs), Hone. simpl.
      destruct (bool_decide (CampaignLog.message entry = Some i)) eqn:Hdec.
      * apply bool_decide_eq_true in Hdec. rewrite Hmsg in Hdec.
        injection Hdec as <-.
        assert (Hnil : fallback_logs (CampaignMessage.id m) (logs s) = []).
        { destruct (fallback_logs (CampaignMessage.id m) (logs s)) eqn:Hfl;
            [reflexivity|].
          exfalso. destruct Hold as [_ Hrows']; [discriminate|].
          specialize (Hrows' m Hin eq_refl). congruence. }
        rewrite Hnil. simpl. split; [lia|]. intros _. split; [lia|].
        intros r' Hr' Hid. rewrite Hm in Hr'. apply in_app_iff in Hr'.
        destruct Hr' as [Hr' | Hr'].
        -- apply In_update_message in Hr'. destruct Hr' as [r [Hr Hcases]].
           destruct Hcases as [[Hrid ->] | [Hrid ->]]; [|congruence].
           destruct (Hg r) as (_ & _ & _ & Hstatus).
           unfold is_pending. rewrite Hstatus, Hfailed. reflexivity.
        -- destruct Hx as [[-> _] | (row & -> & Hrow & _ & _)]; [contradiction|].
           destruct Hr' as [<- | []]. lia.
      * rewrite app_nil_r. split; [exact Hlen | exact Hrows].
  - (* rows with another key *)
    intros r Hr Hne. rewrite Hm. apply in_app_iff. left.
    now apply update_message_other.
Qed.

Lemma not_pending_other_key s m r :
  well_keyed s -> In m (messages s) -> is_pending m = true ->
  In r (messages s) -> is_pending r = false ->
  CampaignMessage.id r <> CampaignMessage.id m.
Proof.
  intros [Hnd _] Hm Hpm Hr Hpr Hid.
  assert (r = m) by (apply (same_id_same_row (messages s)); auto).
  congruence.
Qed.

(** The delivery loop over messages of the table that are still to be sent
    keeps the invariant and never touches a row that is not to be sent. *)
Lemma loop_inv env l :
  forall counts s,
    delivery_inv s ->
    NoDup (map CampaignMessage.id l) ->
    (forall m, In m l -> In m (messages s) /\ is_pending m = true) ->
    delivery_inv (snd (for_fold l counts (send_one env) s))
    /\ (forall r, In r (messages s) -> is_pending r = false ->
          In r (messages (snd (for_fold l counts (send_one env) s)))).
Proof.
  induction l as [|m l IH]; intros counts s Hinv Hnd Hl; simpl.
  - auto.
  - destruct (Hl m (or_introl eq_refl)) as [Hm Hpm].
    destruct (step_inv env m s _ (send_one_shape env counts m s) Hinv Hm Hpm)
      as [Hinv1 Hother].
    assert (Hkeep : forall r, In r (messages s) -> is_pending r = false ->
              In r (messages (snd (send_one env counts m s)))).
    { intros r Hr Hpr. apply Hother; [exact Hr|].
      apply (not_pending_other_key s); auto. apply Hinv. }
    unfold bind.
    destruct (send_one env counts m s) as [[counts'|e] s1]; simpl in *;
      [|auto].
    apply NoDup_cons in Hnd. destruct Hnd as [Hfresh Hnd].
    rewrite list_elem_of_In in Hfresh.
    destruct (IH counts' s1 Hinv1 Hnd) as [Hinv2 Hkeep2].
    + intros m2 Hm2. destruct (Hl m2 (or_intror Hm2)) as [Hin2 Hp2].
      split; [|exact Hp2]. apply Hother; [exact Hin2|].
      intros Hid. apply Hfresh. rewrite <- Hid. now apply in_map.
    + split; [exact Hinv2|]. intros r Hr Hpr. apply Hkeep2; auto.
Qed.

Lemma delivery_inv_ext s s' :
  messages s' = messages s -> logs s' = logs s -> next_id s' = next_id s ->
  delivery_inv s -> delivery_inv s'.
Proof.
  unfold delivery_inv, well_keyed, fallback_logged_once.
  intros -> -> ->. auto.
Qed.

Lemma NoDup_ids_filter (P : CampaignMessage.t -> bool) l :
  NoDup (map CampaignMessage.id l) ->
  NoDup (map CampaignMessage.id (List.filter P l)).
Proof.
  induction l as [|x l IH]; simpl; intros Hnd; [exact Hnd|].
  apply NoDup_cons in Hnd. destruct Hnd as [Hx Hnd].
  destruct (P x); simpl; [|now apply IH].
  apply NoDup_cons. split; [|now apply IH].
  rewrite list_elem_of_In in *. intros Hin. apply Hx.
  apply in_map_iff in Hin. destruct Hin as [r [Hr Hin]].
  apply filter_In in Hin. destruct Hin as [Hin _].
  rewrite <- Hr. now apply in_map.
Qed.

(** The state a call of [send_pending_messages] ends in is the one it was
    given, or has the tables the delivery loop left. *)
Lemma send_pending_elim env force s (P : State -> Prop) :
  P s ->
  (forall s0 s',
     messages s0 = messages s -> logs s0 = logs s -> next_id s0 = next_id s ->
     messages s' = messages (snd (for_fold (pending_queryset s0) (mkCounts 0 0)
                                    (send_one env) s0)) ->
     logs s' = logs (snd (for_fold (pending_queryset s0) (mkCounts 0 0)
                            (send_one env) s0)) ->
     next_id s' = next_id (snd (for_fold (pending_queryset s0) (mkCounts 0 0)
                                  (send_one env) s0)) ->
     P s') ->
  P (snd (send_pending_messages env force s)).
Proof.
  intros Hs Hloop. unfold send_pending_messages.
  unfold bind at 1. unfold get_state at 1. cbn beta iota.
  destruct (negb force && _); [exact Hs|].
  destruct (pending_queryset s) as [|m0 l0] eqn:Hq; [exact Hs|].
  unfold bind at 1. unfold save_campaign_status at 1. unfold modify at 1.
  cbn beta iota.
  unfold bind at 1. unfold get_state at 1. cbn beta iota.
  set (s0 := set_campaign_row _ (set_self_campaign _ s)).
  specialize (Hloop s0).
  unfold bind at 1.
  destruct (for_fold (pending_queryset s0) _ (send_one env) s0) as [[counts|e] s1];
    cbn [snd] in Hloop; [|now apply Hloop].
  unfold refresh_metrics, _finalize, save_campaign_status, bind, modify, get_state.
  cbn beta iota.
  match goal with
  | |- context [if ?b then _ else _] => destruct b
  end; cbn beta iota; now apply Hloop.
Qed.

(** One call of [send_pending_messages], returning or raising. *)
Lemma send_pending_inv env force s :
  delivery_inv s ->
  delivery_inv (snd (send_pending_messages env force s))
  /\ (forall r, In r (messages s) -> is_pending r = false ->
        In r (messages (snd (send_pending_messages env force s)))).
Proof.
  intros Hinv.
  apply (send_pending_elim env force s
           (fun s' => delivery_inv s'
              /\ (forall r, In r (messages s) -> is_pending r = false ->
                    In r (messages s')))); [auto|].
  intros s0 s' Hm0 Hl0 Hn0 Hm Hl Hn.
  assert (Hinv0 : delivery_inv s0) by (apply (delivery_inv_ext s); auto).
  destruct (loop_inv env (pending_queryset s0) (mkCounts 0 0) s0 Hinv0)
    as [Hinv1 Hkeep1].
  { apply NoDup_ids_filter. apply Hinv0. }
  { intros m Hin. unfold pending_queryset in Hin. apply filter_In in Hin.
    destruct Hin as [Hin Hp]. apply andb_true_iff in Hp. tauto. }
  split; [eapply delivery_inv_ext; eauto|].
  intros r Hr Hpr. rewrite Hm. apply Hkeep1; [now rewrite Hm0 | exact Hpr].
Qed.

Lemma runs_inv env forces :
  forall s,
    delivery_inv s ->
    delivery_inv (runs env forces s)
    /\ (forall r, In r (messages s) -> is_pending r = false ->
          In r (messages (runs env forces s))).
Proof.
  induction forces as [|force forces IH]; intros s Hinv; simpl; [auto|].
  destruct (send_pending_inv env force s Hinv) as [Hinv1 Hkeep1].
  destruct (IH _ Hinv1) as [Hinv2 Hkeep2].
  split; [exact Hinv2|]. intros r Hr Hpr. apply Hkeep2; auto.
Qed.

Lemma initial_inv s :
  NoDup (map CampaignMessage.id (messages s)) ->
  Forall (fun m => CampaignMessage.id m < next_id s) (messages s) ->
  Forall (fun m => CampaignMessage.attempts m = 0) (messages s) ->
  Forall (fun entry => is_fallback_log entry = false) (logs s) ->
  delivery_inv s.
Proof.
  intros Hnd Hlt Hzero Hlogs. split; [split; assumption|]. split.
  - eapply List.Forall_impl; [|exact Hzero].
    intros m Hm Hpos. rewrite Hm. split; lia.
  - intros i.
    assert (Hnil : fallback_logs i (logs s) = []).
    { rewrite fallback_logs_filter.
      assert (Hf : List.filter is_fallback_log (logs s) = []).
      { induction (logs s) as [|x l IH]; [reflexivity|]. simpl.
        apply List.Forall_cons_iff in Hlogs. destruct Hlogs as [-> Hl].
        now apply IH. }
      now rewrite Hf. }
    rewrite Hnil. simpl. split; [lia|]. intros H. now contradiction H.
Qed.

(** C5, amended. Over any number of calls of [send_pending_messages] on
    messages that start with [attempts = 0] (keys unique, no fallback entry
    logged yet), whatever the providers answer: a message whose
    [max_attempts] is at least 1 never has more attempts than [max_attempts],
    and is no longer pending or scheduled once it has reached it; a failed
    dispatch that brings [attempts] to [max_attempts] sets the status to
    failed; a row whose status is failed is never changed by a later call,
    so it is set to failed once; and no message gets more than one
    'Fallback scheduled' entry. *)
Theorem retry_bound :
  forall (env : Env) (forces : list bool) (s : State),
    NoDup (map CampaignMessage.id (messages s)) ->
    Forall (fun m => CampaignMessage.id m < next_id s) (messages s) ->
    Forall (fun m => CampaignMessage.attempts m = 0) (messages s) ->
    Forall (fun entry => is_fallback_log entry = false) (logs s) ->
    let s' := runs env forces s in
    (forall m, In m (messages s') ->
       1 <= CampaignMessage.max_attempts m ->
       CampaignMessage.attempts m <= CampaignMessage.max_attempts m
       /\ (is_pending m = true ->
           CampaignMessage.attempts m < CampaignMessage.max_attempts m))
    /\ (forall counts m exc r,
          In m (messages s') -> is_pending m = true ->
          dispatch_message env (self_campaign s') (prepared m) = inl exc ->
          CampaignMessage.max_attempts m <= CampaignMessage.attempts m + 1 ->
          In r (messages (snd (send_one env counts m s'))) ->
          CampaignMessage.id r = CampaignMessage.id m ->
          CampaignMessage.status r = CampaignMessage.Status.FAILED)
    /\ (forall more r,
          In r (messages s') ->
          CampaignMessage.status r = CampaignMessage.Status.FAILED ->
          In r (messages (runs env more s')))
    /\ (forall i, length (fallback_logs i (logs s')) <= 1).
Proof.
  intros env forces s Hnd Hlt Hzero Hlogs s'.
  pose proof (initial_inv s Hnd Hlt Hzero Hlogs) as Hinv0.
  destruct (runs_inv env forces s Hinv0) as [Hinv _]. fold s' in Hinv.
  pose proof Hinv as ((Hnd' & Hlt') & Hb & Hfb).
  split; [|split; [|split]].
  - intros m Hm. rewrite List.Forall_forall in Hb. now apply Hb.
  - intros counts m exc r Hm Hpm Hd Hmax Hr Hid.
    destruct (send_one_shape env counts m s')
      as (g & extra & newlogs & st & _ & Hmsgs & _ & Hg & Hst & Hx & _).
    rewrite Hmsgs in Hr. apply in_app_iff in Hr. destruct Hr as [Hr | Hr].
    + apply In_update_message in Hr. destruct Hr as [r0 [Hr0 Hcases]].
      destruct Hcases as [[_ ->] | [Hne ->]]; [|congruence].
      destruct (Hg r0) as (_ & _ & _ & ->).
      destruct Hst as [[_ [result Hres]] | [[_ Hlt0] | [-> _]]];
        [congruence | lia | reflexivity].
    + exfalso. destruct Hx as [[-> _] | (row & -> & Hrow & _ & _)];
        [contradiction|].
      destruct Hr as [<- | []].
      rewrite List.Forall_forall in Hlt'. specialize (Hlt' m Hm). lia.
  - intros more r Hr Hfailed.
    destruct (runs_inv env more s' Hinv) as [_ Hkeep].
    apply Hkeep; [exact Hr|]. unfold is_pending. now rewrite Hfailed.
  - intros i. apply Hfb.
Qed.

Lemma retry_bound_witness :
  Forall (fun m => CampaignMessage.attempts m = 0) (messages Retries.start)
  /\ forall m,
       In m (messages (runs Scenario.providers_down [true; true; true; true]
                         Retries.start)) ->
       1 <= CampaignMessage.max_attempts m ->
       CampaignMessage.attempts m <= CampaignMessage.max_attempts m
       /\ (is_pending m = true ->
           CampaignMessage.attempts m < CampaignMessage.max_attempts m).
Proof.
  split; [constructor; [reflexivity | constructor]|].
  apply (retry_bound Scenario.providers_down [true; true; true; true] Retries.start).
  - apply NoDup_singleton.
  - constructor; [simpl; lia | constructor].
  - constructor; [reflexivity | constructor].
  - constructor.
Defined.

(** Three failing runs on one message with the default budget of 3: the
    message ends failed with 3 attempts, one fallback row is spawned on the
    first fallback channel, and one 'Fallback scheduled' entry is logged. *)
Example three_failures :
  let s' := runs Scenario.providers_down [true; true; true] Retries.start in
  map (fun m => (CampaignMessage.channel m, CampaignMessage.status m,
                 CampaignMessage.attempts m)) (messages s')
  = [("email", CampaignMessage.Status.FAILED, 3);
     ("facebook", CampaignMessage.Status.PENDING, 0)]
  /\ length (fallback_logs 1 (logs s')) = 1.
Proof. vm_compute. split; reflexivity. Qed.

(** C5 as stated fails: a message whose [max_attempts] is 0 starts with
    [attempts = 0], is pending, and has 1 attempt after its first dispatch. *)
Lemma retry_bound_needs_budget :
  ~ (forall (env : Env) (forces : list bool) (s : State),
       NoDup (map CampaignMessage.id (messages s)) ->
       Forall (fun m => CampaignMessage.id m < next_id s) (messages s) ->
       Forall (fun m => CampaignMessage.attempts m = 0) (messages s) ->
       Forall (fun entry => is_fallback_log entry = false) (logs s) ->
       forall m, In m (messages (runs env forces s)) ->
         CampaignMessage.attempts m <= CampaignMessage.max_attempts m).
Proof.
  intros H.
  specialize (H Scenario.providers_down [true] ZeroBudget.start).
  assert (Hin : In (CampaignMessage.mk 1 7 Scenario.alice "email" "Hi Alice"
                      CampaignMessage.Status.FAILED 1 0 "connection refused" "" ∅ None)
                   (messages (runs Scenario.providers_down [true] ZeroBudget.start))).
  { vm_compute. left. reflexivity. }
  apply H in Hin.
  - simpl in Hin. lia.
  - apply NoDup_singleton.
  - constructor; [simpl; lia | constructor].
  - constructor; [reflexivity | constructor].
  - constructor.
Qed.

(** ** The statements at concrete inputs *)

Lemma channel_eligibility_witness :
  Customer.phone_number Scenario.alice = ""
  /\ forall r,
       In r (messages (snd (build_messages_with Scenario.providers_up
                              personalize_two_args [Scenario.alice]
                              Scenario.content None Scenario.start))) ->
       ~ In r (messages Scenario.start) ->
       Customer.id (CampaignMessage.customer r) = 1 ->
       phone_free r.
Proof.
  split; [reflexivity|].
  refine (proj2 (channel_eligibility Scenario.providers_up personalize_two_args
                   [Scenario.alice] Scenario.content None Scenario.start 1 _)).
  intros c [<- | []] _. reflexivity.
Defined.

Lemma fallback_never_overwrites_witness :
  messages (snd (_queue_fallback Scenario.providers_up Retries.message Retries.start))
  = (messages Retries.start
     ++ [fallback_row Scenario.providers_up Retries.start Retries.message
           "facebook" (JList [])])%list.
Proof.
  refine (proj2 (fallback_never_overwrites Scenario.providers_up Retries.message
                   Retries.start "facebook" (JList []) _ _) _);
    vm_compute; reflexivity.
Defined.

Lemma fallback_chain_terminates_witness :
  fallback_len (fallback_row Scenario.providers_up Retries.start Retries.message
                  "facebook" (JList [])) + 1
  = fallback_len Retries.message.
Proof.
  refine (proj1 (fallback_chain_terminates Scenario.providers_up) _ _ _).
  exists Retries.start. split.
  - vm_compute. right. left. reflexivity.
  - intros [H | []]. discriminate H.
Defined.

(** With the call on two arguments, a second build of the scenario returns
    the same count and rewrites the one row in place. *)
Example build_twice_two_args :
  let build :=
    build_messages_with Scenario.providers_up personalize_two_args
      [Scenario.alice] Scenario.content None in
  let once := build Scenario.start in
  let twice := build (snd once) in
  fst once = Ok 1 /\ fst twice = Ok 1
  /\ messages (snd twice) = messages (snd once)
  /\ length (messages (snd twice)) = 1.
Proof. vm_compute. repeat split; reflexivity. Qed.

(** ** More on channel resolution *)

Lemma resolve_loop_In enabled phone ordered :
  forall deduped ch,
    In ch (resolve_loop enabled phone ordered deduped)
    <-> In ch deduped
        \/ (In ch ordered /\ In ch enabled
            /\ (phone = "" -> ch <> CampaignMessage.Channel.WHATSAPP
                              /\ ch <> CampaignMessage.Channel.SMS)).
Proof.
  induction ordered as [|c rest IH]; intros deduped ch; simpl.
  - tauto.
  - destruct (str_in c enabled) eqn:Hen; simpl;
      [apply str_in_In in Hen
      | assert (~ In c enabled) by (intros H; apply str_in_In in H; congruence)].
    2:{ rewrite IH. intuition (subst; tauto). }
    destruct (String.eqb c CampaignMessage.Channel.WHATSAPP) eqn:Hw;
      [apply String.eqb_eq in Hw | apply String.eqb_neq in Hw];
    destruct (String.eqb c CampaignMessage.Channel.SMS) eqn:Hs;
      [apply String.eqb_eq in Hs | apply String.eqb_neq in Hs
      |apply String.eqb_eq in Hs | apply String.eqb_neq in Hs];
    destruct (String.eqb phone "") eqn:Hp;
      [apply String.eqb_eq in Hp | apply String.eqb_neq in Hp
      |apply String.eqb_eq in Hp | apply String.eqb_neq in Hp
      |apply String.eqb_eq in Hp | apply String.eqb_neq in Hp
      |apply String.eqb_eq in Hp | apply String.eqb_neq in Hp];
    simpl;
    try (destruct (str_in c deduped) eqn:Hd;
         [apply str_in_In in Hd
         | assert (~ In c deduped) by (intros H; apply str_in_In in H; congruence)];
         simpl);
    rewrite IH, ?in_app_iff; simpl;
    intuition (subst; try congruence; try tauto).
Qed.

Lemma resolve_loop_NoDup enabled phone ordered :
  forall deduped, NoDup deduped -> NoDup (resolve_loop enabled phone ordered deduped).
Proof.
  induction ordered as [|c rest IH]; intros deduped Hnd; simpl; [exact Hnd|].
  repeat match goal with
         | |- context [if ?b then _ else _] => destruct b eqn:?
         end; try (now apply IH).
  apply IH. apply NoDup_app. split; [exact Hnd|]. split; [|apply NoDup_singleton].
  intros x Hx Hx'. apply list_elem_of_In in Hx, Hx'. destruct Hx' as [<- | []].
  apply str_in_In in Hx.
  match goal with H : negb (str_in _ deduped) = true |- _ =>
    rewrite Hx in H; discriminate H end.
Qed.

(** X1. [_resolve_channels] returns exactly the channels the campaign
    enables and the customer can receive, each once: the customer's
    preferences change the order only, never the set. *)
Theorem resolve_channels_exact :
  forall (campaign : Campaign.t) (customer : Customer.t),
    NoDup (_resolve_channels campaign customer)
    /\ forall ch,
         In ch (_resolve_channels campaign customer)
         <-> enabled_in campaign ch /\ receivable customer ch.
Proof.
  intros campaign customer. split.
  - apply resolve_loop_NoDup. constructor.
  - intros ch. unfold _resolve_channels, enabled_in, receivable.
    rewrite resolve_loop_In. simpl.
    set (enabled := map fst (List.filter (fun item => snd item)
                               (Campaign.channels campaign))).
    split.
    + intros [[] | (_ & He & Hr)]. split; assumption.
    + intros [He Hr]. right. split; [|split; assumption].
      apply in_app_iff.
      destruct (str_in ch (Customer.preferred_channels customer)) eqn:Hp.
      * left. now apply str_in_In.
      * right. apply filter_In. split; [exact He | now rewrite Hp].
Qed.

Lemma resolve_loop_app enabled phone o1 :
  forall o2 deduped,
    resolve_loop enabled phone (o1 ++ o2) deduped
    = resolve_loop enabled phone o2 (resolve_loop enabled phone o1 deduped).
Proof.
  induction o1 as [|c o1 IH]; intros o2 deduped; simpl; [reflexivity|].
  repeat match goal with
         | |- context [if ?b then _ else _] => destruct b
         end; apply IH.
Qed.

Lemma resolve_loop_extends enabled phone ordered :
  forall deduped,
    exists added,
      resolve_loop enabled phone ordered deduped = (deduped ++ added)%list
      /\ forall ch, In ch added -> In ch ordered.
Proof.
  induction ordered as [|c rest IH]; intros deduped; simpl.
  - exists []. rewrite app_nil_r. split; [reflexivity | intros ch []].
  - repeat match goal with
           | |- context [if ?b then _ else _] => destruct b
           end;
      try (destruct (IH deduped) as [added [Heq Hin]]; exists added;
           split; [exact Heq | intros ch Hch; right; now apply Hin]).
    destruct (IH (deduped ++ [c])%list) as [added [Heq Hin]].
    exists (c :: added). rewrite Heq, <- app_assoc. split; [reflexivity|].
    intros ch [<- | Hch]; [now left | right; now apply Hin].
Qed.

(** X2. In the list [_resolve_channels] returns, a channel the customer
    prefers always comes before a channel the customer does not list. *)
Theorem resolve_channels_preferred_first :
  forall (campaign : Campaign.t) (customer : Customer.t) (a b : string),
    In a (_resolve_channels campaign customer) ->
    In b (_resolve_channels campaign customer) ->
    In a (Customer.preferred_channels customer) ->
    ~ In b (Customer.preferred_channels customer) ->
    exists l1 l2 l3,
      _resolve_channels campaign customer = (l1 ++ a :: l2 ++ b :: l3)%list.
Proof.
  intros campaign customer a b Ha Hb Hpa Hpb.
  unfold _resolve_channels in *. cbn zeta in *. rewrite resolve_loop_app in *.
  set (enabled := map fst (List.filter (fun item => snd item)
                             (Campaign.channels campaign))) in *.
  set (phone := Customer.phone_number customer) in *.
  set (preferred := Customer.preferred_channels customer) in *.
  set (others := List.filter (fun ch => negb (str_in ch preferred)) enabled) in *.
  set (first := resolve_loop enabled phone preferred []) in *.
  destruct (resolve_loop_extends enabled phone others first) as [added [Heq Hadded]].
  rewrite Heq in *.
  assert (Hfirst : forall ch, In ch first -> In ch preferred).
  { intros ch Hch. apply resolve_loop_In in Hch. destruct Hch as [[] | [H _]]. exact H. }
  assert (Hothers : forall ch, In ch added -> ~ In ch preferred).
  { intros ch Hch Hp. apply Hadded in Hch. apply filter_In in Hch.
    destruct Hch as [_ Hn]. apply str_in_In in Hp. rewrite Hp in Hn. discriminate. }
  apply in_app_iff in Ha, Hb.
  destruct Ha as [Ha | Ha]; [|exfalso; now apply (Hothers a)].
  destruct Hb as [Hb | Hb]; [exfalso; apply Hpb; now apply Hfirst|].
  apply in_split in Ha, Hb.
  destruct Ha as (l1 & l2 & ->), Hb as (l3 & l4 & ->).
  exists l1, (l2 ++ l3)%list, l4. now rewrite <- !app_assoc.
Qed.

Lemma filter_out_length (x : string) (l : list string) :
  NoDup l -> In x l ->
  length (List.filter (fun ch => negb (String.eqb ch x)) l) + 1 = length l.
Proof.
  induction l as [|c l IH]; simpl; intros Hnd Hin; [contradiction|].
  apply NoDup_cons in Hnd. destruct Hnd as [Hc Hnd]. rewrite list_elem_of_In in Hc.
  destruct (String.eqb c x) eqn:He; simpl.
  - apply String.eqb_eq in He. subst c.
    assert (Hall : List.filter (fun ch => negb (String.eqb ch x)) l = l).
    { clear IH Hnd Hin. induction l as [|d l IH]; simpl; [reflexivity|].
      destruct (String.eqb d x) eqn:Hd; simpl.
      - apply String.eqb_eq in Hd. subst d. exfalso. apply Hc. now left.
      - f_equal. apply IH. intros H. apply Hc. now right. }
    rewrite Hall. lia.
  - apply String.eqb_neq in He. destruct Hin as [-> | Hin]; [congruence|].
    rewrite <- (IH Hnd Hin). lia.
Qed.

Lemma NoDup_list_filter (P : string -> bool) (l : list string) :
  NoDup l -> NoDup (List.filter P l).
Proof.
  induction l as [|c l IH]; simpl; intros Hnd; [exact Hnd|].
  apply NoDup_cons in Hnd. destruct Hnd as [Hc Hnd].
  destruct (P c); [|now apply IH].
  apply NoDup_cons. split; [|now apply IH].
  rewrite list_elem_of_In in *. intros H. apply filter_In in H. tauto.
Qed.

(** X3. The fallback channels of a message are exactly the customer's
    resolved channels other than its own: the primary channel is never its
    own fallback, no channel is listed twice, and for a resolved primary the
    list is one shorter than the resolved list. *)
Theorem fallback_channels_exact :
  forall (campaign : Campaign.t) (primary : string) (customer : Customer.t),
    NoDup (_fallback_channels campaign primary customer)
    /\ (forall ch,
          In ch (_fallback_channels campaign primary customer)
          <-> In ch (_resolve_channels campaign customer) /\ ch <> primary)
    /\ (In primary (_resolve_channels campaign customer) ->
        length (_fallback_channels campaign primary customer) + 1
        = length (_resolve_channels campaign customer)).
Proof.
  intros campaign primary customer. unfold _fallback_channels. cbn zeta.
  assert (Hnd : NoDup (_resolve_channels campaign customer))
    by (apply resolve_loop_NoDup; constructor).
  split; [now apply NoDup_list_filter|]. split.
  - intros ch. rewrite filter_In, negb_true_iff, String.eqb_neq. tauto.
  - intros Hin. now apply filter_out_length.
Qed.

Lemma resolve_channels_preferred_first_witness :
  exists l1 l2 l3,
    _resolve_channels Preferences.campaign Preferences.bob
    = (l1 ++ "sms" :: l2 ++ "whatsapp" :: l3)%list.
Proof.
  apply (resolve_channels_preferred_first Preferences.campaign Preferences.bob
           "sms" "whatsapp").
  - vm_compute. left. reflexivity.
  - vm_compute. right. right. left. reflexivity.
  - left. reflexivity.
  - intros [H | [H | []]]; discriminate H.
Defined.

(** ** More on personalization *)

Lemma replace_from_no_brace old new s :
  brace_free s ->
  replace_from (String "{"%char old) new 0 s = s.
Proof.
  unfold brace_free. induction s as [|c s IH]; intros Hfree; [reflexivity|].
  cbn [replace_from String.prefix]. cbn [list_ascii_of_string In] in Hfree.
  destruct (ascii_dec "{"%char c) as [<- | Hne].
  - exfalso. apply Hfree. now left.
  - f_equal. apply IH. intros H. apply Hfree. now right.
Qed.

Lemma str_replace_no_brace template key value :
  brace_free template ->
  str_replace template ("{{" +:+ key +:+ "}}") value = template.
Proof.
  intros Hfree. unfold str_replace. cbn [String.append].
  now apply (replace_from_no_brace (String "{"%char (key +:+ "}}")) value template).
Qed.

Lemma personalize_fold_no_brace (l : list (string * string)) template :
  brace_free template ->
  fold_left
    (fun content kv => str_replace content ("{{" +:+ fst kv +:+ "}}") (snd kv))
    l template = template.
Proof.
  intros Hfree. induction l as [|kv l IH]; [reflexivity|].
  cbn [fold_left]. rewrite str_replace_no_brace by exact Hfree. exact IH.
Qed.

(** [strip] removes every kind of whitespace, not blanks only. *)
Example strip_whitespace :
  strip (String (ascii_of_nat 9) " Al" +:+ String (ascii_of_nat 10) " ") = "Al".
Proof. reflexivity. Qed.

(** X4. A template that contains no opening brace is stored as it is:
    [_personalize] changes nothing outside placeholders, whatever the
    campaign and the customer. *)
Theorem personalize_without_placeholder :
  forall (campaign : Campaign.t) (customer : Customer.t) (template : string),
    brace_free template ->
    _personalize campaign template customer = template.
Proof.
  intros campaign customer template Hfree. unfold _personalize.
  now apply personalize_fold_no_brace.
Qed.

Lemma personalize_without_placeholder_witness :
  _personalize Preferences.campaign "Spring sale starts today" Preferences.bob
  = "Spring sale starts today".
Proof.
  apply (personalize_without_placeholder Preferences.campaign Preferences.bob).
  unfold brace_free. vm_compute. intuition discriminate.
Defined.

Lemma append_cons c s1 s2 : String c s1 +:+ s2 = String c (s1 +:+ s2).
Proof. reflexivity. Qed.

Lemma append_empty s : "" +:+ s = s.
Proof. reflexivity. Qed.

Lemma brace_free_app s1 s2 :
  brace_free (s1 +:+ s2) <-> brace_free s1 /\ brace_free s2.
Proof.
  unfold brace_free. induction s1 as [|c s1 IH];
    rewrite ?append_cons, ?append_empty; cbn [list_ascii_of_string In]; tauto.
Qed.

Lemma replace_from_after_text old new pre s :
  brace_free pre ->
  replace_from (String "{"%char old) new 0 (pre +:+ s)
  = pre +:+ replace_from (String "{"%char old) new 0 s.
Proof.
  unfold brace_free. induction pre as [|c pre IH]; intros Hfree; [reflexivity|].
  rewrite !append_cons. cbn [replace_from String.prefix].
  cbn [list_ascii_of_string In] in Hfree.
  destruct (ascii_dec "{"%char c) as [<- | Hne].
  - exfalso. apply Hfree. now left.
  - f_equal. apply IH. intros H. apply Hfree. now right.
Qed.

Lemma replace_from_skip old new s1 :
  forall s2, replace_from old new (String.length s1) (s1 +:+ s2)
             = replace_from old new 0 s2.
Proof.
  induction s1 as [|c s1 IH]; intros s2; [reflexivity|].
  rewrite append_cons. cbn [String.length replace_from]. apply IH.
Qed.

Lemma prefix_append s1 s2 : String.prefix s1 (s1 +:+ s2) = true.
Proof.
  induction s1 as [|c s1 IH]; [now destruct s2|].
  rewrite append_cons. cbn [String.prefix].
  destruct (ascii_dec c c); [exact IH | congruence].
Qed.

Lemma replace_from_match c old new s :
  replace_from (String c old) new 0 (String c old +:+ s)
  = new +:+ replace_from (String c old) new 0 s.
Proof.
  rewrite append_cons at 1. cbn [replace_from].
  rewrite <- append_cons, prefix_append. f_equal.
  cbn [String.length]. rewrite Nat.sub_1_r. cbn [Nat.pred].
  apply replace_from_skip.
Qed.

Lemma append_assoc s1 s2 s3 : (s1 +:+ s2) +:+ s3 = s1 +:+ s2 +:+ s3.
Proof.
  induction s1 as [|c s1 IH]; [reflexivity|].
  rewrite !append_cons. now rewrite IH.
Qed.

(** The step of the loop for the key of the placeholder. *)
Lemma str_replace_same before key after value :
  brace_free before -> brace_free after ->
  str_replace (before +:+ "{{" +:+ key +:+ "}}" +:+ after)
    ("{{" +:+ key +:+ "}}") value
  = before +:+ value +:+ after.
Proof.
  intros Hb Ha.
  change (str_replace (before +:+ "{{" +:+ key +:+ "}}" +:+ after)
            ("{{" +:+ key +:+ "}}") value)
    with (replace_from (String "{" (String "{" (key +:+ "}}"))) value 0
            (before +:+ "{{" +:+ key +:+ "}}" +:+ after)).
  rewrite replace_from_after_text by exact Hb. f_equal.
  replace ("{{" +:+ key +:+ "}}" +:+ after)
    with (String "{" (String "{" (key +:+ "}}")) +:+ after)
    by (rewrite !append_cons, append_empty, append_assoc; reflexivity).
  rewrite replace_from_match. f_equal.
  now apply replace_from_no_brace.
Qed.

(** The step of the loop for another key [other]. *)
Lemma str_replace_other before other key after value :
  brace_free before -> brace_free (key +:+ "}}" +:+ after) ->
  String.prefix ("{{" +:+ other +:+ "}}") ("{{" +:+ key +:+ "}}" +:+ after) = false ->
  str_replace (before +:+ "{{" +:+ key +:+ "}}" +:+ after)
    ("{{" +:+ other +:+ "}}") value
  = before +:+ "{{" +:+ key +:+ "}}" +:+ after.
Proof.
  intros Hb Hk Hp.
  change (str_replace (before +:+ "{{" +:+ key +:+ "}}" +:+ after)
            ("{{" +:+ other +:+ "}}") value)
    with (replace_from (String "{" (String "{" (other +:+ "}}"))) value 0
            (before +:+ "{{" +:+ key +:+ "}}" +:+ after)).
  rewrite replace_from_after_text by exact Hb. f_equal.
  change ("{{" +:+ other +:+ "}}") with (String "{" (String "{" (other +:+ "}}"))) in Hp.
  change ("{{" +:+ key +:+ "}}" +:+ after)
    with (String "{" (String "{" (key +:+ "}}" +:+ after))) in *.
  cbn [replace_from]. rewrite Hp. f_equal.
  remember (key +:+ "}}" +:+ after) as rest eqn:Hrest.
  destruct rest as [|c rest].
  - reflexivity.
  - cbn [replace_from String.prefix].
    destruct (ascii_dec "{" "{") as [_ | Hne]; [|congruence].
    destruct (ascii_dec "{" c) as [<- | Hc].
    + exfalso. apply Hk. now left.
    + f_equal. f_equal. apply replace_from_no_brace.
      intros H. apply Hk. now right.
Qed.

Ltac placeholder_side :=
  repeat match goal with
         | |- brace_free (_ +:+ _) => apply brace_free_app; split
         | |- brace_free _ => first [assumption | vm_compute; intuition discriminate]
         | |- String.prefix _ _ = false => vm_compute; reflexivity
         end.

(** X5. A placeholder for one of the five keys, standing in text that has
    no other opening brace, is replaced by the value of that key and the
    text around it is kept, provided the value itself has no opening brace. *)
Theorem personalize_placeholder :
  forall (campaign : Campaign.t) (customer : Customer.t)
         (key value before after : string),
    In (key, value) (replacements campaign customer) ->
    brace_free before -> brace_free after -> brace_free value ->
    _personalize campaign (before +:+ "{{" +:+ key +:+ "}}" +:+ after) customer
    = before +:+ value +:+ after.
Proof.
  intros campaign customer key value before after Hin Hb Ha Hv.
  assert (Hdone : brace_free (before +:+ value +:+ after)) by placeholder_side.
  unfold _personalize, replacements in *.
  cbn [In] in Hin.
  destruct Hin as [H | [H | [H | [H | [H | []]]]]]; injection H as <- <-;
    cbn [fold_left fst snd];
    rewrite ?str_replace_other by placeholder_side;
    rewrite str_replace_same by assumption;
    match type of Hdone with
    | brace_free ?t => rewrite ?(str_replace_no_brace t) by exact Hdone
    end;
    reflexivity.
Qed.

Lemma personalize_placeholder_witness :
  _personalize Preferences.campaign ("Dear " +:+ "{{" +:+ "first_name" +:+ "}}" +:+ ", hello")
    Preferences.bob
  = "Dear " +:+ "Bob" +:+ ", hello".
Proof.
  apply (personalize_placeholder Preferences.campaign Preferences.bob
           "first_name" "Bob" "Dear " ", hello").
  - left. reflexivity.
  - vm_compute. intuition discriminate.
  - vm_compute. intuition discriminate.
  - vm_compute. intuition discriminate.
Defined.

(** ** More on [build_messages] *)

Lemma same_triple_ext cid cust ch cid' cust' ch' r :
  cid' = cid -> Customer.id cust' = Customer.id cust -> ch' = ch ->
  same_triple cid' cust' ch' r = same_triple cid cust ch r.
Proof. intros -> H ->. unfold same_triple. now rewrite H. Qed.

Lemma filter_map_same {A} (P : A -> bool) (f : A -> A) (l : list A) :
  (forall x, In x l -> P (f x) = P x) ->
  length (List.filter P (map f l)) = length (List.filter P l).
Proof.
  induction l as [|x l IH]; simpl; intros H; [reflexivity|].
  rewrite (H x (or_introl eq_refl)).
  destruct (P x); simpl; rewrite IH; auto.
Qed.

Lemma update_message_ids_at pk f l :
  (forall r, CampaignMessage.id r = pk -> CampaignMessage.id (f r) = pk) ->
  map CampaignMessage.id (update_message pk f l) = map CampaignMessage.id l.
Proof.
  intros Hid. unfold update_message. rewrite map_map. apply map_ext.
  intros r. destruct (Nat.eqb (CampaignMessage.id r) pk) eqn:He; [|reflexivity].
  apply Nat.eqb_eq in He. rewrite He. now apply Hid.
Qed.

(** An upsert keeps primary keys and triples unique. *)
Lemma update_or_create_unique env cid cust ch d s :
  well_keyed s -> triple_unique s ->
  well_keyed (snd (update_or_create env cid cust ch d s))
  /\ triple_unique (snd (update_or_create env cid cust ch d s)).
Proof.
  intros [Hnd Hlt] Hu. unfold update_or_create, bind, get_state.
  destruct (List.filter (same_triple cid cust ch) (messages s))
    as [|obj [|obj2 others]] eqn:Hf; simpl.
  - split; [split|]; simpl.
    + rewrite map_app. apply NoDup_app. split; [exact Hnd|].
      split; [|apply NoDup_singleton].
      intros a Ha Ha'. apply list_elem_of_In in Ha, Ha'.
      destruct Ha' as [<- | []]. apply in_map_iff in Ha.
      destruct Ha as [r [Hr Hin]].
      rewrite List.Forall_forall in Hlt. specialize (Hlt r Hin). simpl in Hr. lia.
    + apply List.Forall_app. split.
      * eapply List.Forall_impl; [|exact Hlt]. simpl. intros; lia.
      * constructor; [simpl; lia | constructor].
    + intros cid' cust' ch'. simpl. rewrite List.filter_app, length_app. simpl.
      destruct (same_triple cid' cust' ch' _) eqn:Hs; simpl.
      * apply same_triple_spec in Hs. simpl in Hs. destruct Hs as (H1 & H2 & H3).
        assert (Hsame : List.filter (same_triple cid' cust' ch') (messages s)
                        = List.filter (same_triple cid cust ch) (messages s)).
        { apply filter_ext. intros r. apply same_triple_ext; congruence. }
        rewrite Hsame, Hf. simpl. lia.
      * specialize (Hu cid' cust' ch'). lia.
  - assert (Hobj : In obj (messages s)).
    { assert (H : In obj (List.filter (same_triple cid cust ch) (messages s)))
        by (rewrite Hf; now left).
      apply filter_In in H. tauto. }
    assert (Hrow : forall r, In r (messages s) ->
              CampaignMessage.id r = CampaignMessage.id obj -> r = obj).
    { intros r Hr Hid. now apply (same_id_same_row (messages s)). }
    split; [split|]; simpl.
    + rewrite update_message_ids_at; [exact Hnd|]. intros r _. reflexivity.
    + unfold update_message. apply List.Forall_map.
      rewrite List.Forall_forall in *. intros r Hr.
      destruct (Nat.eqb (CampaignMessage.id r) (CampaignMessage.id obj));
        [simpl; now apply (Hlt obj) | now apply Hlt].
    + intros cid' cust' ch'. simpl. unfold update_message.
      rewrite filter_map_same; [apply Hu|].
      intros r Hr.
      destruct (Nat.eqb (CampaignMessage.id r) (CampaignMessage.id obj)) eqn:He;
        [|reflexivity].
      apply Nat.eqb_eq in He. rewrite (Hrow r Hr He). reflexivity.
  - split; [split|]; assumption.
Qed.

Lemma build_channel_unique env personalize_call content variant customer created
    channel s :
  well_keyed s /\ triple_unique s ->
  well_keyed (snd (build_channel env personalize_call content variant customer
                     created channel s))
  /\ triple_unique (snd (build_channel env personalize_call content variant customer
                           created channel s)).
Proof.
  intros [Hk Hu].
  set (P := fun st => well_keyed st /\ triple_unique st).
  change (P (snd (build_channel env personalize_call content variant customer
                    created channel s))).
  unfold build_channel.
  unfold bind at 1. unfold get_state.
  destruct (negb (truthy _)); [now split|].
  destruct (personalize_call _ _ _ _) as [personalized|e]; [|now split].
  rewrite snd_bind_ret. now apply update_or_create_unique.
Qed.

(** X6. Whatever the personalization call does, [build_messages] keeps the
    message table well keyed: if no two rows share a primary key or a triple
    (campaign, customer, channel) before the build, none do after it, whether
    it returns or raises. *)
Theorem build_messages_keeps_triples_unique :
  forall (env : Env)
         (personalize_call : Campaign.t -> json -> Customer.t -> string -> outcome string)
         (customers : list Customer.t) (content : gmap string json)
         (variant : option CampaignVariant.t) (s : State),
    well_keyed s -> triple_unique s ->
    well_keyed (snd (build_messages_with env personalize_call customers content
                       variant s))
    /\ triple_unique (snd (build_messages_with env personalize_call customers
                             content variant s)).
Proof.
  intros env personalize_call customers content variant s Hk Hu.
  assert (Hloop : well_keyed (snd (for_fold customers 0
                     (build_customer env personalize_call content variant) s))
                  /\ triple_unique (snd (for_fold customers 0
                     (build_customer env personalize_call content variant) s))).
  { apply (for_fold_preserves (fun st => well_keyed st /\ triple_unique st));
      [|now split].
    intros acc customer st _ Hst. unfold build_customer, bind, get_state.
    apply (for_fold_preserves (fun st => well_keyed st /\ triple_unique st));
      [|exact Hst].
    intros acc0 channel st0 _ Hst0. now apply build_channel_unique. }
  unfold build_messages_with, bind.
  destruct (for_fold customers 0 _ s) as [[created|e] s1]; simpl in *; exact Hloop.
Qed.

Lemma build_messages_keeps_triples_unique_witness :
  triple_unique Scenario.start
  /\ triple_unique
       (snd (build_messages_with Scenario.providers_up personalize_two_args
               [Scenario.alice; Scenario.alice] Scenario.content None
               Scenario.start)).
Proof.
  assert (Hu : triple_unique Scenario.start) by (intros cid cust ch; simpl; lia).
  split; [exact Hu|].
  apply (build_messages_keeps_triples_unique Scenario.providers_up
           personalize_two_args [Scenario.alice; Scenario.alice] Scenario.content
           None Scenario.start); [|exact Hu].
  split; [apply NoDup_nil_2 | constructor].
Defined.

(** A relation between the accumulator and the state that every iteration
    keeps holds when the loop returns. *)
Lemma for_fold_rel {A B} (R : B -> State -> Prop) (l : list A)
    (body : B -> A -> M B) :
  (forall acc x st acc' st',
     In x l -> R acc st -> body acc x st = (Ok acc', st') -> R acc' st') ->
  forall acc st acc' st',
    R acc st -> for_fold l acc body st = (Ok acc', st') -> R acc' st'.
Proof.
  induction l as [|x l IH]; intros Hbody acc st acc' st' HR Hrun; simpl in Hrun.
  - unfold ret in Hrun. injection Hrun as <- <-. exact HR.
  - unfold bind in Hrun. destruct (body acc x st) as [[acc1|e] st1] eqn:Hx;
      [|discriminate].
    eapply IH; [| |exact Hrun].
    + intros acc0 y st0 acc0' st0' Hy. apply Hbody. now right.
    + eapply Hbody; [now left | exact HR | exact Hx].
Qed.

(** When every iteration adds at most [w x] to the counter, the loop adds at
    most the sum of the weights. *)
Lemma for_fold_weight {A} (R : nat -> State -> Prop) (w : A -> nat) (l : list A)
    (body : nat -> A -> M nat) :
  (forall acc x st acc' st',
     R acc st -> body acc x st = (Ok acc', st') -> R acc' st' /\ acc' <= acc + w x) ->
  forall acc st acc' st',
    R acc st -> for_fold l acc body st = (Ok acc', st') ->
    R acc' st' /\ acc' <= acc + list_sum (map w l).
Proof.
  intros Hbody. induction l as [|x l IH]; intros acc st acc' st' HI Hrun;
    simpl in Hrun.
  - unfold ret in Hrun. injection Hrun as <- <-. simpl. split; [exact HI | lia].
  - unfold bind in Hrun. destruct (body acc x st) as [[acc1|e] st1] eqn:Hx;
      [|discriminate].
    destruct (Hbody _ _ _ _ _ HI Hx) as [HI1 Hle1].
    destruct (IH _ _ _ _ HI1 Hrun) as [HI' Hle']. simpl. split; [exact HI' | lia].
Qed.

(** What an upsert leaves alone, and how many rows it can add. *)
Lemma update_or_create_frame env cid cust ch d s :
  self_campaign (snd (update_or_create env cid cust ch d s)) = self_campaign s
  /\ campaign_row (snd (update_or_create env cid cust ch d s)) = campaign_row s
  /\ logs (snd (update_or_create env cid cust ch d s)) = logs s
  /\ length (messages s) <= length (messages (snd (update_or_create env cid cust ch d s)))
  /\ length (messages (snd (update_or_create env cid cust ch d s)))
     <= length (messages s) + 1.
Proof.
  unfold update_or_create, bind, get_state.
  destruct (List.filter _ (messages s)) as [|obj [|obj2 others]]; simpl.
  - rewrite length_app. simpl. repeat split; lia.
  - unfold update_message. rewrite length_map. repeat split; lia.
  - repeat split; lia.
Qed.

Lemma build_channel_progress env personalize_call content variant customer s
    acc channel st acc' st' :
  build_progress s acc st ->
  build_channel env personalize_call content variant customer acc channel st
  = (Ok acc', st') ->
  build_progress s acc' st' /\ acc' <= acc + 1.
Proof.
  intros (Hc & Hr & Hl & Hge & Hle). unfold build_channel.
  unfold bind at 1. unfold get_state.
  destruct (negb (truthy _)).
  { unfold ret. intros H. injection H as <- <-.
    split; [repeat split; auto | lia]. }
  destruct (personalize_call _ _ _ _) as [personalized|e];
    [|unfold raise; discriminate].
  unfold bind, ret.
  match goal with
  | |- context [update_or_create ?e ?c ?cu ?ch ?d st] =>
      pose proof (update_or_create_frame e c cu ch d st) as (Fc & Fr & Fl & Fge & Fle);
      destruct (update_or_create e c cu ch d st) as [[[]|e0] st1]
  end; [|discriminate].
  intros H. injection H as <- <-. simpl in *.
  split; [|lia]. unfold build_progress. repeat split; try congruence; lia.
Qed.

Lemma build_customer_progress env personalize_call content variant s
    acc customer st acc' st' :
  build_progress s acc st ->
  build_customer env personalize_call content variant acc customer st
  = (Ok acc', st') ->
  build_progress s acc' st'
  /\ acc' <= acc + length (_resolve_channels (self_campaign s) customer).
Proof.
  intros Hp. unfold build_customer, bind, get_state.
  assert (Hcamp : self_campaign st = self_campaign s) by apply Hp.
  rewrite Hcamp. intros Hrun. split.
  - eapply (for_fold_rel (build_progress s)); [|exact Hp|exact Hrun].
    intros acc0 ch st0 acc0' st0' _ H0 Hb.
    eapply build_channel_progress; eauto.
  - destruct (for_fold_weight (fun _ _ => True) (fun _ => 1)
                (_resolve_channels (self_campaign s) customer)
                (build_channel env personalize_call content variant customer))
      with (acc := acc) (st := st) (acc' := acc') (st' := st') as [_ Hle]; auto.
    + intros acc0 ch st0 acc0' st0' _ Hb. split; [exact I|].
      unfold build_channel, bind, get_state, ret, raise in Hb.
      destruct (negb (truthy _)); [injection Hb as <- _; lia|].
      destruct (personalize_call _ _ _ _); [|discriminate].
      destruct (update_or_create _ _ _ _ _ st0) as [[[]|e0] st1];
        [injection Hb as <- _; lia | discriminate].
    + assert (Hsum : forall l : list string, list_sum (map (fun _ => 1) l) = length l).
      { induction l as [|x l IH]; simpl; auto. }
      rewrite Hsum in Hle. exact Hle.
Qed.

(** What a build that returns has done. *)
Lemma build_messages_outcome :
  forall (env : Env)
         (personalize_call : Campaign.t -> json -> Customer.t -> string -> outcome string)
         (customers : list Customer.t) (content : gmap string json)
         (variant : option CampaignVariant.t) (s s' : State) (created : nat),
    build_messages_with env personalize_call customers content variant s
    = (Ok created, s') ->
    length (messages s) <= length (messages s')
    /\ length (messages s') <= length (messages s) + created
    /\ created
       <= list_sum (map (fun c => length (_resolve_channels (self_campaign s) c))
                      customers)
    /\ self_campaign s' = self_campaign s
    /\ campaign_row s' = campaign_row s
    /\ logs s' = (logs s ++ [prepared_entry (self_campaign s) created variant])%list.
Proof.
  intros env personalize_call customers content variant s s' created.
  unfold build_messages_with. unfold bind at 1.
  destruct (for_fold customers 0
              (build_customer env personalize_call content variant) s)
    as [[n|e] s1] eqn:Hloop; [|discriminate].
  assert (H0 : build_progress s 0 s) by (unfold build_progress; repeat split; lia).
  assert (Hp : build_progress s n s1).
  { eapply (for_fold_rel (build_progress s)); [|exact H0|exact Hloop].
    intros acc c st acc' st' _ Hst Hb.
    eapply build_customer_progress; eauto. }
  assert (Hw : n <= 0 + list_sum
                 (map (fun c => length (_resolve_channels (self_campaign s) c))
                    customers)).
  { eapply (for_fold_weight (build_progress s)); [|exact H0|exact Hloop].
    intros acc c st acc' st' Hst Hb.
    eapply build_customer_progress; eauto. }
  destruct Hp as (Hc & Hr & Hl & Hge & Hle).
  unfold bind, get_state, log_create, modify, ret. intros H.
  injection H as <- <-. simpl. unfold prepared_entry.
  rewrite Hc, Hl. repeat split; auto; lia.
Qed.

(** X7. When [build_messages] returns [created], whatever the
    personalization call does: it has removed no row and added at most
    [created] rows, [created] is at most the number of (customer, resolved
    channel) pairs, the campaign object and row are as they were, and the log
    has grown by exactly one 'Messages prepared' entry that records
    [created]. *)
Theorem build_messages_count :
  forall (env : Env)
         (personalize_call : Campaign.t -> json -> Customer.t -> string -> outcome string)
         (customers : list Customer.t) (content : gmap string json)
         (variant : option CampaignVariant.t) (s s' : State) (created : nat),
    build_messages_with env personalize_call customers content variant s
    = (Ok created, s') ->
    length (messages s) <= length (messages s')
    /\ length (messages s') <= length (messages s) + created
    /\ created
       <= list_sum (map (fun c => length (_resolve_channels (self_campaign s) c))
                      customers)
    /\ self_campaign s' = self_campaign s
    /\ campaign_row s' = campaign_row s
    /\ logs s' = (logs s ++ [prepared_entry (self_campaign s) created variant])%list.
Proof. exact build_messages_outcome. Qed.

Lemma build_messages_count_witness :
  length (messages
            (snd (build_messages_with Scenario.providers_up personalize_two_args
                    [Scenario.alice; Scenario.alice] Scenario.content None
                    Scenario.start)))
  <= length (messages Scenario.start) + 2.
Proof.
  refine (proj1 (proj2 (build_messages_count Scenario.providers_up
                          personalize_two_args [Scenario.alice; Scenario.alice]
                          Scenario.content None Scenario.start _ 2 _))).
  vm_compute. reflexivity.
Defined.

(** ** More on dispatching *)

(** X8. A message on any channel other than email, whatsapp and sms is
    reported sent without any provider being asked: the social channels and
    every unknown channel succeed whatever the providers do. *)
Theorem dispatch_without_provider :
  forall (env : Env) (campaign : Campaign.t) (message : CampaignMessage.t),
    CampaignMessage.channel message <> CampaignMessage.Channel.EMAIL ->
    CampaignMessage.channel message <> CampaignMessage.Channel.WHATSAPP ->
    CampaignMessage.channel message <> CampaignMessage.Channel.SMS ->
    exists metadata,
      dispatch_message env campaign message
      = inr (DispatchResult.mk CampaignMessage.Status.SENT metadata None).
Proof.
  intros env campaign message He Hw Hs. unfold dispatch_message.
  apply String.eqb_neq in He, Hw, Hs. rewrite He, Hw, Hs.
  destruct (str_in _ _); unfold _send_social; eexists; reflexivity.
Qed.

Lemma dispatch_without_provider_witness :
  exists metadata,
    dispatch_message Scenario.providers_down Scenario.campaign Dispatching.telegram
    = inr (DispatchResult.mk CampaignMessage.Status.SENT metadata None).
Proof.
  apply (dispatch_without_provider Scenario.providers_down Scenario.campaign
           Dispatching.telegram); discriminate.
Defined.

(** X9. A whatsapp or sms message for a customer without a phone number
    always fails to dispatch, whatever the providers would answer. *)
Theorem dispatch_needs_phone :
  forall (env : Env) (campaign : Campaign.t) (message : CampaignMessage.t),
    CampaignMessage.channel message = CampaignMessage.Channel.WHATSAPP
    \/ CampaignMessage.channel message = CampaignMessage.Channel.SMS ->
    Customer.phone_number (CampaignMessage.customer message) = "" ->
    exists exc, dispatch_message env campaign message = inl exc.
Proof.
  intros env campaign message Hch Hphone. unfold dispatch_message.
  destruct Hch as [-> | ->]; simpl; unfold _send_whatsapp, _send_sms;
    rewrite Hphone; simpl.
  - destruct (negb (twilio_client env) || negb (twilio_from env));
      eexists; reflexivity.
  - destruct (negb (sms_api_key env)); eexists; reflexivity.
Qed.

Lemma dispatch_needs_phone_witness :
  exists exc,
    dispatch_message Scenario.providers_up Scenario.campaign
      Dispatching.whatsapp_without_phone = inl exc.
Proof.
  apply (dispatch_needs_phone Scenario.providers_up Scenario.campaign
           Dispatching.whatsapp_without_phone).
  - left. reflexivity.
  - reflexivity.
Defined.

(** ** More on the delivery loop *)

Lemma substring_length_le n s : String.length (substring 0 n s) <= n.
Proof.
  revert s. induction n as [|n IH]; intros s.
  - destruct s; simpl; lia.
  - destruct s as [|c s]; simpl; [lia|]. specialize (IH s). lia.
Qed.

Lemma fallback_row_settled env s message next rest :
  settled (fallback_row env s message next rest).
Proof. unfold settled, fallback_row. simpl. split; [auto | lia]. Qed.

Lemma updated_rows_settled pk (f : CampaignMessage.t -> CampaignMessage.t) l r' :
  (forall r, settled (f r)) ->
  In r' (update_message pk f l) ->
  (exists r, In r l /\ CampaignMessage.id r <> pk /\ r' = r) \/ settled r'.
Proof.
  intros Hf Hin. apply In_update_message in Hin.
  destruct Hin as [r [Hr [[Hid ->] | [Hne ->]]]].
  - right. apply Hf.
  - left. exists r. auto.
Qed.

(** The rows of the table after [_handle_failure]. *)
Lemma handle_failure_rows env message exc s r' :
  In r' (messages (snd (_handle_failure env message exc s))) ->
  (exists r, In r (messages s)
     /\ CampaignMessage.id r <> CampaignMessage.id message /\ r' = r)
  \/ settled r'.
Proof.
  unfold _handle_failure, log_create, bind, modify, get_state. cbn beta iota.
  assert (Hupd : forall (st : bool) r0,
    settled (CampaignMessage.set_last_error (substring 0 500 exc)
               (CampaignMessage.set_status
                  (if st then CampaignMessage.Status.PENDING
                   else CampaignMessage.Status.FAILED) r0))).
  { intros st r0. unfold settled. simpl. split; [|apply substring_length_le].
    destruct st; auto. }
  destruct (Nat.ltb _ _) eqn:Hretry; cbn [negb].
  - cbn. intros Hin. eapply updated_rows_settled; [|exact Hin].
    intros r0. apply (Hupd true).
  - match goal with
    | |- context [_queue_fallback env ?m ?s0] =>
        destruct (queue_fallback_messages env m s0)
          as [Heq | (next & rest & _ & _ & _ & Heq)]; rewrite Heq
    end; cbn.
    + intros Hin. eapply updated_rows_settled; [|exact Hin].
      intros r0. apply (Hupd false).
    + intros Hin. apply in_app_iff in Hin. destruct Hin as [Hin | [<- | []]].
      * eapply updated_rows_settled; [|exact Hin]. intros r0. apply (Hupd false).
      * right. apply fallback_row_settled.
Qed.

(** The rows of the table after one iteration of the loop. *)
Lemma send_one_rows env counts m s r' :
  In r' (messages (snd (send_one env counts m s))) ->
  In r' (messages s) \/ settled r'.
Proof.
  unfold send_one. fold (prepared m).
  unfold bind at 1. unfold modify at 1. cbn beta iota.
  unfold bind at 1. unfold get_state at 1. cbn beta iota.
  cbn [self_campaign set_messages].
  destruct (dispatch_message env (self_campaign s) (prepared m)) as [exc|result] eqn:Hd;
    rewrite snd_bind_ret.
  - intros Hin. apply handle_failure_rows in Hin.
    destruct Hin as [(r & Hr & Hne & ->) | Hs]; [|now right].
    cbn [messages set_messages] in Hr.
    apply In_update_message in Hr.
    destruct Hr as [r0 [Hr0 [[Hid ->] | [_ ->]]]]; [|now left].
    exfalso. apply Hne. simpl. exact Hid.
  - unfold _handle_success, log_create, bind, modify, get_state. cbn beta iota.
    cbn [messages logs next_id self_campaign set_messages set_logs snd].
    rewrite update_message_compose by (intros r; reflexivity).
    intros Hin. apply In_update_message in Hin.
    destruct Hin as [r0 [Hr0 [[Hid ->] | [_ ->]]]]; [|now left].
    right. unfold settled. simpl. split; [|lia].
    left. now apply dispatch_status in Hd.
Qed.

(** X10. Every row a call of [send_pending_messages] writes or creates,
    whether the call returns or raises, is left sent, pending or failed,
    never sending, with a [last_error] of at most 500 characters; every
    other row of the table after the call is a row of the table before it. *)
Theorem delivery_settles_rows :
  forall (env : Env) (force : bool) (s : State) (r : CampaignMessage.t),
    In r (messages (snd (send_pending_messages env force s))) ->
    In r (messages s) \/ settled r.
Proof.
  intros env force s r.
  apply (send_pending_elim env force s
           (fun s' => In r (messages s') -> In r (messages s) \/ settled r));
    [now left|].
  intros s0 s' Hm0 _ _ Hm _ _. rewrite Hm, <- Hm0.
  apply (for_fold_preserves
           (fun st => In r (messages st) -> In r (messages s0) \/ settled r));
    [|now left].
  intros acc m st _ Hst Hin. apply send_one_rows in Hin.
  destruct Hin as [Hin | Hin]; [now apply Hst | now right].
Qed.

Lemma delivery_settles_rows_witness :
  In (CampaignMessage.mk 1 7 Scenario.alice "email" "Hi Alice"
        CampaignMessage.Status.PENDING 1 3 "connection refused" ""
        (<["fallback_channels" := JList ["facebook"]]> ∅) None)
     (messages Retries.start)
  \/ settled (CampaignMessage.mk 1 7 Scenario.alice "email" "Hi Alice"
                CampaignMessage.Status.PENDING 1 3 "connection refused" ""
                (<["fallback_channels" := JList ["facebook"]]> ∅) None).
Proof.
  apply (delivery_settles_rows Scenario.providers_down true Retries.start).
  vm_compute. left. reflexivity.
Defined.

(** X11. With nothing pending or scheduled, [send_pending_messages] returns
    zero counts and changes nothing, not even the campaign status, as soon
    as the draft guard lets it through. *)
Theorem empty_queue_is_noop :
  forall (env : Env) (force : bool) (s : State),
    pending_queryset s = [] ->
    force = true \/ Campaign.status (self_campaign s) <> Campaign.Status.DRAFT ->
    send_pending_messages env force s = (Ok (mkCounts 0 0), s).
Proof.
  intros env force s Hq Hguard. unfold send_pending_messages, bind, get_state.
  assert (Hg : negb force
               && bool_decide (Campaign.status (self_campaign s) = Campaign.Status.DRAFT)
               = false).
  { destruct Hguard as [-> | Hne]; [reflexivity|].
    rewrite bool_decide_eq_false_2 by exact Hne. apply andb_false_r. }
  rewrite Hg, Hq. reflexivity.
Qed.

Lemma empty_queue_is_noop_witness :
  pending_queryset Scenario.start = []
  /\ send_pending_messages Scenario.providers_up true Scenario.start
     = (Ok (mkCounts 0 0), Scenario.start).
Proof.
  split; [reflexivity|].
  apply (empty_queue_is_noop Scenario.providers_up true Scenario.start);
    [reflexivity | now left].
Defined.

(** A run that returns: either the queue was empty, or the loop returned
    and the run ended with the metrics refreshed and the campaign finalized
    if nothing is left. *)
Lemma send_pending_ok env force s counts s' :
  send_pending_messages env force s = (Ok counts, s') ->
  (pending_queryset s = [] /\ counts = mkCounts 0 0 /\ s' = s)
  \/ (pending_queryset s <> []
      /\ exists st1,
           for_fold (pending_queryset s) (mkCounts 0 0) (send_one env)
             (snd (save_campaign_status Campaign.Status.RUNNING s))
           = (Ok counts, st1)
           /\ s' = finish_run counts (snd (refresh_metrics st1))).
Proof.
  unfold send_pending_messages.
  unfold bind at 1. unfold get_state at 1. cbn beta iota.
  destruct (negb force && _); [unfold raise; discriminate|].
  destruct (pending_queryset s) as [|m0 l0] eqn:Hq.
  { unfold ret. intros H. injection H as <- <-. left. auto. }
  unfold bind at 1. unfold save_campaign_status at 1. unfold modify at 1.
  cbn beta iota.
  unfold bind at 1. unfold get_state at 1. cbn beta iota.
  match goal with
  | |- context [pending_queryset ?s0] =>
      change (pending_queryset s0) with (pending_queryset s); rewrite Hq
  end.
  unfold bind at 1.
  match goal with
  | |- context [for_fold ?l ?c ?b ?s0] =>
      destruct (for_fold l c b s0) as [[counts1|e] st1] eqn:Hloop
  end; [|discriminate].
  intros H. right. split; [discriminate|]. exists st1.
  unfold save_campaign_status, modify. cbn [snd].
  unfold bind, get_state, refresh_metrics, modify, ret in H. cbn beta iota in H.
  unfold finish_run, refresh_metrics, modify. cbn [snd].
  match type of H with
  | context [if Nat.eqb ?n 0 then _ else _] =>
      match goal with
      | |- context [if Nat.eqb ?n' 0 then _ else _] => change n' with n
      end;
      destruct (Nat.eqb n 0)
  end.
  - unfold _finalize, save_campaign_status, bind, modify in *. cbn beta iota in *.
    injection H as <- <-. split; [exact Hloop | reflexivity].
  - injection H as <- <-. split; [exact Hloop | reflexivity].
Qed.

Lemma send_one_counts env counts m s counts' s' :
  send_one env counts m s = (Ok counts', s') ->
  sent counts' + failed counts' = sent counts + failed counts + 1.
Proof.
  unfold send_one.
  unfold bind at 1. unfold modify at 1. cbn beta iota.
  unfold bind at 1. unfold get_state at 1. cbn beta iota.
  destruct (dispatch_message _ _ _) as [exc|result]; unfold bind, ret;
    match goal with
    | |- context [let (_, _) := ?c in _] => destruct c as [[[]|e] st]
    end; try discriminate; intros H; injection H as <- _; simpl; lia.
Qed.

Lemma for_fold_counts env l :
  forall counts s counts' s',
    for_fold l counts (send_one env) s = (Ok counts', s') ->
    sent counts' + failed counts' = sent counts + failed counts + length l.
Proof.
  induction l as [|m l IH]; intros counts s counts' s' Hrun; simpl in Hrun.
  - unfold ret in Hrun. injection Hrun as <- _. simpl. lia.
  - unfold bind in Hrun.
    destruct (send_one env counts m s) as [[counts1|e] s1] eqn:Hone; [|discriminate].
    apply send_one_counts in Hone. apply IH in Hrun. simpl. lia.
Qed.

(** X12. When [send_pending_messages] returns, the two counts add up to the
    number of messages that were pending or scheduled when it was called:
    each of them was dispatched once and counted once. *)
Theorem delivery_counts_every_message :
  forall (env : Env) (force : bool) (s s' : State) (counts : Counts),
    send_pending_messages env force s = (Ok counts, s') ->
    sent counts + failed counts = length (pending_queryset s).
Proof.
  intros env force s s' counts Hrun. apply send_pending_ok in Hrun.
  destruct Hrun as [(-> & -> & _) | (_ & st1 & Hloop & _)]; [reflexivity|].
  apply for_fold_counts in Hloop. simpl in Hloop. lia.
Qed.

Lemma delivery_counts_every_message_witness :
  sent (mkCounts 0 1) + failed (mkCounts 0 1)
  = length (pending_queryset Retries.start).
Proof.
  refine (delivery_counts_every_message Scenario.providers_down true
            Retries.start _ (mkCounts 0 1) _).
  vm_compute. reflexivity.
Defined.

(** *** What an iteration leaves alone *)

Lemma same_campaign_refl s : same_campaign s s.
Proof. unfold same_campaign. auto. Qed.

Lemma same_campaign_trans s1 s2 s3 :
  same_campaign s1 s2 -> same_campaign s2 s3 -> same_campaign s1 s3.
Proof. unfold same_campaign. intuition congruence. Qed.

Lemma queue_fallback_frame env message s :
  same_campaign s (snd (_queue_fallback env message s)).
Proof.
  unfold _queue_fallback.
  destruct (negb (truthy _)); [apply same_campaign_refl|].
  destruct (head_and_tail _) as [[next rest]|e]; [|apply same_campaign_refl].
  unfold get_or_create, create_message, log_create, bind, get_state, modify, ret,
    raise. cbn beta iota.
  destruct (List.filter _ (messages s)) as [|obj [|obj2 others]];
    unfold same_campaign; simpl; auto.
Qed.

Lemma handle_failure_frame env message exc s :
  same_campaign s (snd (_handle_failure env message exc s)).
Proof.
  unfold _handle_failure, log_create, bind, modify, get_state. cbn beta iota.
  destruct (Nat.ltb _ _); cbn [negb].
  - unfold same_campaign. simpl. auto.
  - eapply same_campaign_trans; [|apply queue_fallback_frame].
    unfold same_campaign. simpl. auto.
Qed.

Lemma send_one_frame env counts m s :
  same_campaign s (snd (send_one env counts m s)).
Proof.
  unfold send_one.
  unfold bind at 1. unfold modify at 1. cbn beta iota.
  unfold bind at 1. unfold get_state at 1. cbn beta iota.
  destruct (dispatch_message _ _ _) as [exc|result]; rewrite snd_bind_ret.
  - eapply same_campaign_trans; [|apply handle_failure_frame].
    unfold same_campaign. simpl. auto.
  - unfold _handle_success, log_create, bind, modify, get_state.
    unfold same_campaign. simpl. auto.
Qed.

Lemma loop_frame env l counts s :
  same_campaign s (snd (for_fold l counts (send_one env) s)).
Proof.
  apply (for_fold_preserves (same_campaign s)); [|apply same_campaign_refl].
  intros acc m st _ Hst. eapply same_campaign_trans; [exact Hst|].
  apply send_one_frame.
Qed.

(** X13. A call of [send_pending_messages] that dispatched something and
    returned leaves the campaign, object and row alike, running when a
    message is still pending or scheduled, and otherwise failed if any
    dispatch of this run failed and completed if none did; it adds one
    notification in the second case and none in the first. *)
Theorem delivery_final_status :
  forall (env : Env) (force : bool) (s s' : State) (counts : Counts),
    send_pending_messages env force s = (Ok counts, s') ->
    pending_queryset s <> [] ->
    let remaining := length (pending_queryset s') in
    Campaign.status (self_campaign s') = final_status remaining counts
    /\ Campaign.status (campaign_row s') = final_status remaining counts
    /\ length (notifications s')
       = length (notifications s) + (if Nat.eqb remaining 0 then 1 else 0).
Proof.
  intros env force s s' counts Hrun Hne remaining. subst remaining.
  apply send_pending_ok in Hrun.
  destruct Hrun as [(Hq & _) | (_ & st1 & Hloop & ->)]; [contradiction|].
  pose proof (loop_frame env (pending_queryset s) (mkCounts 0 0)
                (snd (save_campaign_status Campaign.Status.RUNNING s))) as Hf.
  rewrite Hloop in Hf. destruct Hf as (Hc & Hr & Hn & _). cbn [snd] in *.
  unfold save_campaign_status, modify in Hc, Hr, Hn. cbn in Hc, Hr, Hn.
  assert (Hq : pending_queryset
                 (finish_run counts (snd (refresh_metrics st1)))
               = pending_queryset (snd (refresh_metrics st1))).
  { unfold finish_run. destruct (Nat.eqb _ 0); [|reflexivity].
    unfold _finalize, save_campaign_status, bind, modify, pending_queryset.
    reflexivity. }
  rewrite Hq. unfold finish_run, final_status.
  destruct (Nat.eqb (length (pending_queryset (snd (refresh_metrics st1)))) 0).
  - unfold _finalize, save_campaign_status, refresh_metrics, bind, modify. cbn.
    rewrite length_app, Hn. simpl.
    destruct (Nat.eqb (failed counts) 0); simpl; repeat split; lia.
  - unfold refresh_metrics, modify. cbn.
    rewrite Hr, Hn. simpl.
    destruct (bool_decide _); simpl; rewrite ?Hc; simpl; repeat split; lia.
Qed.

Lemma delivery_final_status_witness :
  Campaign.status
    (campaign_row (snd (send_pending_messages Scenario.providers_down true
                          Retries.start)))
  = final_status
      (length (pending_queryset
                 (snd (send_pending_messages Scenario.providers_down true
                         Retries.start))))
      (mkCounts 0 1).
Proof.
  refine (proj1 (proj2 (delivery_final_status Scenario.providers_down true
                          Retries.start _ (mkCounts 0 1) _ _))).
  - vm_compute. reflexivity.
  - discriminate.
Defined.

Lemma step_well_keyed env m s s' :
  step_shape env m s s' -> well_keyed s -> well_keyed s'.
Proof.
  intros (g & extra & newlogs & st & _ & Hm & _ & Hg & _ & Hx & _) [Hnd Hlt].
  assert (Hgid : forall r, CampaignMessage.id (g r) = CampaignMessage.id r)
    by (intros r; apply Hg).
  split.
  - rewrite Hm, map_app, update_message_ids by exact Hgid.
    destruct Hx as [[-> _] | (row & -> & Hrow & _ & _)]; simpl;
      [now rewrite app_nil_r|].
    apply NoDup_app. split; [exact Hnd|]. split; [|apply NoDup_singleton].
    intros a Ha Ha'. apply list_elem_of_In in Ha. apply list_elem_of_In in Ha'.
    destruct Ha' as [<- | []]. apply in_map_iff in Ha. destruct Ha as [r [Hr Hrin]].
    rewrite List.Forall_forall in Hlt. specialize (Hlt r Hrin). lia.
  - rewrite Hm. apply List.Forall_app. split.
    + apply List.Forall_forall. intros r' Hr'.
      apply In_update_message in Hr'. destruct Hr' as [r [Hr Hcases]].
      rewrite List.Forall_forall in Hlt. specialize (Hlt r Hr).
      destruct Hx as [[_ Hn] | (row & _ & _ & Hn & _)];
        destruct Hcases as [[_ ->] | [_ ->]]; rewrite ?Hgid, Hn; lia.
    + destruct Hx as [[-> _] | (row & -> & Hrow & -> & _)];
        [constructor | constructor; [lia | constructor]].
Qed.

(** The loop, when it returns, has given one more attempt to each message
    it was handed and has left the rows with other keys as they were. *)
Lemma loop_one_attempt env l :
  forall counts s counts' s',
    well_keyed s ->
    NoDup (map CampaignMessage.id l) ->
    (forall m, In m l -> In m (messages s)) ->
    for_fold l counts (send_one env) s = (Ok counts', s') ->
    well_keyed s'
    /\ (forall m, In m l ->
          exists r', In r' (messages s')
            /\ CampaignMessage.id r' = CampaignMessage.id m
            /\ CampaignMessage.attempts r' = CampaignMessage.attempts m + 1)
    /\ (forall r, In r (messages s) ->
          ~ In (CampaignMessage.id r) (map CampaignMessage.id l) ->
          In r (messages s')).
Proof.
  induction l as [|m l IH]; intros counts s counts' s' Hk Hnd Hl Hrun;
    simpl in Hrun.
  - unfold ret in Hrun. injection Hrun as _ <-.
    split; [exact Hk|]. split; [intros m []|auto].
  - unfold bind in Hrun.
    pose proof (send_one_shape env counts m s) as Hshape.
    destruct (send_one env counts m s) as [[counts1|e] s1] eqn:Hone; [|discriminate].
    cbn [snd] in Hshape.
    pose proof (step_well_keyed env m s s1 Hshape Hk) as Hk1.
    destruct Hshape as (g & extra & newlogs & st & _ & Hm & _ & Hg & _ & _ & _).
    apply NoDup_cons in Hnd. destruct Hnd as [Hfresh Hnd].
    rewrite list_elem_of_In in Hfresh.
    assert (Hother : forall r, In r (messages s) ->
              CampaignMessage.id r <> CampaignMessage.id m -> In r (messages s1)).
    { intros r Hr Hne. rewrite Hm. apply in_app_iff. left.
      now apply update_message_other. }
    destruct (IH counts1 s1 counts' s' Hk1 Hnd) as (Hk' & Hdone & Hkeep);
      [|exact Hrun|].
    { intros m2 Hm2. apply Hother; [apply Hl; now right|].
      intros Hid. apply Hfresh. rewrite <- Hid. now apply in_map. }
    split; [exact Hk'|]. split.
    + intros m2 [<- | Hm2]; [|now apply Hdone].
      exists (g m). destruct (Hg m) as (Hid & _ & Hatt & _).
      split; [|split; assumption].
      apply Hkeep; [|now rewrite Hid].
      rewrite Hm. apply in_app_iff. left. unfold update_message.
      apply in_map_iff. exists m. rewrite Nat.eqb_refl.
      split; [reflexivity | apply Hl; now left].
    + intros r Hr Hnot. apply Hkeep.
      * apply Hother; [exact Hr|]. intros Hid. apply Hnot. left. now rewrite Hid.
      * intros Hin. apply Hnot. now right.
Qed.

(** X14. A call of [send_pending_messages] that returns has dispatched each
    message that was pending or scheduled exactly once: on a table with
    unique keys, the row of such a message has one attempt more after the
    call, and every other row of the table is there unchanged. *)
Theorem delivery_attempts_once :
  forall (env : Env) (force : bool) (s s' : State) (counts : Counts),
    well_keyed s ->
    send_pending_messages env force s = (Ok counts, s') ->
    (forall m, In m (pending_queryset s) ->
       exists r', In r' (messages s')
         /\ CampaignMessage.id r' = CampaignMessage.id m
         /\ CampaignMessage.attempts r' = CampaignMessage.attempts m + 1)
    /\ (forall r, In r (messages s) -> ~ In r (pending_queryset s) ->
          In r (messages s')).
Proof.
  intros env force s s' counts Hk Hrun. apply send_pending_ok in Hrun.
  destruct Hrun as [(Hq & _ & ->) | (_ & st1 & Hloop & ->)].
  { rewrite Hq. split; [intros m [] | auto]. }
  assert (Hmsgs : messages (finish_run counts (snd (refresh_metrics st1)))
                  = messages st1).
  { unfold finish_run. destruct (Nat.eqb _ 0); reflexivity. }
  rewrite Hmsgs.
  destruct (loop_one_attempt env (pending_queryset s) (mkCounts 0 0)
              (snd (save_campaign_status Campaign.Status.RUNNING s)) counts st1)
    as (_ & Hdone & Hkeep); [exact Hk | | | exact Hloop |].
  { apply NoDup_ids_filter. apply Hk. }
  { intros m Hm. apply filter_In in Hm. apply Hm. }
  split; [exact Hdone|].
  intros r Hr Hnot. apply Hkeep; [exact Hr|].
  intros Hin. apply Hnot. apply in_map_iff in Hin.
  destruct Hin as [q [Hid Hq]].
  assert (q = r); [|now subst].
  apply (same_id_same_row (messages s)); [apply Hk | | exact Hr | exact Hid].
  apply filter_In in Hq. apply Hq.
Qed.

Lemma delivery_attempts_once_witness :
  well_keyed Retries.start
  /\ forall m, In m (pending_queryset Retries.start) ->
       exists r',
         In r' (messages (snd (send_pending_messages Scenario.providers_down true
                                 Retries.start)))
         /\ CampaignMessage.id r' = CampaignMessage.id m
         /\ CampaignMessage.attempts r' = CampaignMessage.attempts m + 1.
Proof.
  assert (Hk : well_keyed Retries.start).
  { split; [apply NoDup_singleton | constructor; [simpl; lia | constructor]]. }
  split; [exact Hk|].
  refine (proj1 (delivery_attempts_once Scenario.providers_down true
                   Retries.start _ (mkCounts 0 1) Hk _)).
  vm_compute. reflexivity.
Defined.

(** ** More on metrics *)

Lemma with_counts_idempotent sent opened clicked (metrics : gmap string json) :
  with_counts sent opened clicked (with_counts sent opened clicked metrics)
  = with_counts sent opened clicked metrics.
Proof.
  apply map_eq. intros k.
  destruct (with_counts_lookup sent opened clicked
              (with_counts sent opened clicked metrics)) as (Hs & Ho & Hc & Hk).
  destruct (with_counts_lookup sent opened clicked metrics) as (Hs' & Ho' & Hc' & _).
  destruct (decide (k = "sent")) as [-> | H1]; [congruence|].
  destruct (decide (k = "opened")) as [-> | H2]; [congruence|].
  destruct (decide (k = "clicked")) as [-> | H3]; [congruence|].
  now apply Hk.
Qed.

Lemma with_counts_non_empty sent opened clicked (metrics : gmap string json) :
  with_counts sent opened clicked metrics <> ∅.
Proof. unfold with_counts. apply insert_non_empty. Qed.

(** X15. [refresh_metrics] is idempotent on the metrics: a second call
    right after the first stores the same metrics map in the row, leaves the
    same map in the campaign object, and does not touch the messages. *)
Theorem refresh_metrics_idempotent :
  forall s : State,
    let once := snd (refresh_metrics s) in
    let twice := snd (refresh_metrics once) in
    Campaign.metrics (campaign_row twice) = Campaign.metrics (campaign_row once)
    /\ Campaign.metrics (self_campaign twice) = Campaign.metrics (self_campaign once)
    /\ messages twice = messages once.
Proof.
  intros s once twice. subst twice once.
  unfold refresh_metrics, modify. cbn [snd].
  destruct (bool_decide (Campaign.metrics (self_campaign s) = ∅)) eqn:Hempty.
  - cbn [self_campaign set_self_campaign set_campaign_row messages campaign_row].
    rewrite Hempty. cbn. repeat split; reflexivity.
  - cbn [self_campaign set_self_campaign set_campaign_row messages campaign_row
         Campaign.set_metrics Campaign.metrics Campaign.id].
    rewrite bool_decide_eq_false_2 by apply with_counts_non_empty.
    cbn [Campaign.set_metrics Campaign.metrics Campaign.id].
    rewrite with_counts_idempotent. repeat split; reflexivity.
Qed.

(** X16. The notification of a finalized run carries the metrics of the
    campaign object, not of the row: the refreshed counts when the object's
    metrics were not empty at the start of the run, and an empty map when
    they were, although the row has received the counts. *)
Theorem final_notification_metrics :
  forall (env : Env) (force : bool) (s s' : State) (counts : Counts),
    send_pending_messages env force s = (Ok counts, s') ->
    pending_queryset s <> [] ->
    pending_queryset s' = [] ->
    exists n,
      notifications s' = (notifications s ++ [n])%list
      /\ Campaign.metrics (campaign_row s') <> ∅
      /\ (Campaign.metrics (self_campaign s) = ∅ -> Notification.details n = ∅)
      /\ (Campaign.metrics (self_campaign s) <> ∅ ->
          Notification.details n = Campaign.metrics (campaign_row s')).
Proof.
  intros env force s s' counts Hrun Hne Hdone.
  apply send_pending_ok in Hrun.
  destruct Hrun as [(Hq & _) | (_ & st1 & Hloop & ->)]; [contradiction|].
  pose proof (loop_frame env (pending_queryset s) (mkCounts 0 0)
                (snd (save_campaign_status Campaign.Status.RUNNING s))) as Hf.
  rewrite Hloop in Hf. destruct Hf as (Hc & Hr & Hn & _). cbn [snd] in *.
  unfold save_campaign_status, modify in Hc, Hr, Hn. cbn in Hc, Hr, Hn.
  assert (Hq : pending_queryset
                 (finish_run counts (snd (refresh_metrics st1)))
               = pending_queryset (snd (refresh_metrics st1))).
  { unfold finish_run. destruct (Nat.eqb _ 0); [|reflexivity].
    unfold _finalize, save_campaign_status, bind, modify, pending_queryset.
    reflexivity. }
  rewrite Hq in Hdone. unfold finish_run. rewrite Hdone. cbn [length Nat.eqb].
  clear Hq Hdone Hloop.
  destruct st1 as [sc cr ms vs lg nt ni]. cbn in Hc, Hr, Hn. subst sc cr nt.
  unfold _finalize, save_campaign_status, refresh_metrics, bind, modify.
  cbn beta iota. cbn [snd].
  eexists. split; [cbn; reflexivity|]. cbn.
  split; [apply with_counts_non_empty|].
  destruct (bool_decide (Campaign.metrics (self_campaign s) = ∅)) eqn:Hempty.
  - apply bool_decide_eq_true in Hempty. cbn.
    split; [auto | intros H; contradiction].
  - apply bool_decide_eq_false in Hempty. cbn.
    split; [intros H; contradiction | reflexivity].
Qed.

Lemma final_notification_metrics_witness :
  exists n,
    notifications (snd (send_pending_messages Scenario.providers_up true
                          EmptyMetrics.start))
    = (notifications EmptyMetrics.start ++ [n])%list
    /\ Campaign.metrics
         (campaign_row (snd (send_pending_messages Scenario.providers_up true
                               EmptyMetrics.start))) <> ∅
    /\ (Campaign.metrics (self_campaign EmptyMetrics.start) = ∅ ->
        Notification.details n = ∅)
    /\ (Campaign.metrics (self_campaign EmptyMetrics.start) <> ∅ ->
        Notification.details n
        = Campaign.metrics
            (campaign_row (snd (send_pending_messages Scenario.providers_up true
                                  EmptyMetrics.start)))).
Proof.
  refine (final_notification_metrics Scenario.providers_up true
            EmptyMetrics.start _ (mkCounts 1 0) _ _ _).
  - vm_compute. reflexivity.
  - discriminate.
  - vm_compute. reflexivity.
Defined.

Lemma recompute_fold cid msgs groups :
  forall vs,
    fold_left (update_variant_row cid msgs) groups vs
    = map (fun v =>
             if bool_decide (Some (CampaignVariant.id v) ∈ groups)
             then CampaignVariant.set_metrics
                    (counted_metrics cid (CampaignVariant.id v) msgs) v
             else v) vs.
Proof.
  induction groups as [|g groups IH]; intros vs; cbn [fold_left].
  - rewrite <- (map_id vs) at 1. apply map_ext. intros v.
    rewrite bool_decide_eq_false_2; [reflexivity | apply not_elem_of_nil].
  - rewrite IH. destruct g as [vid|]; cbn [update_variant_row].
    + fold (counted_metrics cid vid msgs).
      rewrite map_map. apply map_ext. intros v.
      destruct (Nat.eqb (CampaignVariant.id v) vid) eqn:He.
      * apply Nat.eqb_eq in He. subst vid.
        cbn [CampaignVariant.id CampaignVariant.set_metrics].
        rewrite (bool_decide_eq_true_2 (Some (CampaignVariant.id v)
                                          ∈ Some (CampaignVariant.id v) :: groups))
          by (apply elem_of_cons; now left).
        destruct (bool_decide _); reflexivity.
      * apply Nat.eqb_neq in He.
        assert (Hiff : Some (CampaignVariant.id v) ∈ Some vid :: groups
                       <-> Some (CampaignVariant.id v) ∈ groups).
        { rewrite elem_of_cons. split; [|tauto]. intros [H | H]; [congruence | exact H]. }
        rewrite (bool_decide_ext _ _ Hiff). reflexivity.
    + apply map_ext. intros v.
      assert (Hiff : Some (CampaignVariant.id v) ∈ None :: groups
                     <-> Some (CampaignVariant.id v) ∈ groups).
      { rewrite elem_of_cons. split; [|tauto]. intros [H | H]; [discriminate | exact H]. }
      rewrite (bool_decide_ext _ _ Hiff). reflexivity.
Qed.

Lemma variant_group_has_messages cid vid msgs :
  Some vid ∈ variant_groups cid msgs <-> has_messages cid vid msgs = true.
Proof.
  unfold variant_groups, has_messages.
  rewrite elem_of_remove_dups, list_elem_of_In, in_map_iff, existsb_exists.
  split.
  - intros [m [Hv Hm]]. apply filter_In in Hm. destruct Hm as [Hm Hc].
    exists m. split; [exact Hm|]. rewrite Hc. simpl. now apply bool_decide_eq_true.
  - intros [m [Hm Hc]]. apply andb_true_iff in Hc. destruct Hc as [Hc Hv].
    apply bool_decide_eq_true in Hv. exists m. split; [exact Hv|].
    apply filter_In. auto.
Qed.

(** X17. After [update_campaign_metrics], a variant to which at least one
    message of the campaign belongs carries the counts of those messages in
    status sent, opened and clicked, with delivered equal to sent and no
    conversions; every other variant keeps the metrics it had. *)
Theorem variant_metrics_recomputed :
  forall s : State,
    map CampaignVariant.metrics (variants (snd (update_campaign_metrics s)))
    = map (fun v =>
             if has_messages (Campaign.id (self_campaign s)) (CampaignVariant.id v)
                  (messages s)
             then counted_metrics (Campaign.id (self_campaign s))
                    (CampaignVariant.id v) (messages s)
             else CampaignVariant.metrics v)
          (variants s).
Proof.
  intros s. unfold update_campaign_metrics, modify. cbn [snd].
  set (cid := Campaign.id (self_campaign s)).
  set (vs := fold_left (update_variant_row cid (messages s))
               (variant_groups cid (messages s)) (variants s)).
  assert (Hvs : map CampaignVariant.metrics vs
                = map (fun v =>
                         if has_messages cid (CampaignVariant.id v) (messages s)
                         then counted_metrics cid (CampaignVariant.id v) (messages s)
                         else CampaignVariant.metrics v) (variants s)).
  { subst vs. rewrite recompute_fold, map_map. apply map_ext. intros v.
    destruct (has_messages cid (CampaignVariant.id v) (messages s)) eqn:Hh.
    - rewrite bool_decide_eq_true_2; [reflexivity|].
      now apply variant_group_has_messages.
    - rewrite bool_decide_eq_false_2; [reflexivity|].
      intros H. apply variant_group_has_messages in H. congruence. }
  destruct (winner_of cid vs) as [w|]; [|exact Hvs].
  destruct (CampaignVariant.is_winner w); [exact Hvs|].
  cbn [variants set_variants set_self_campaign set_campaign_row].
  rewrite <- Hvs, !map_map. apply map_ext. intros v.
  destruct (Nat.eqb (CampaignVariant.campaign v) cid);
    destruct (Nat.eqb _ (CampaignVariant.id w)); reflexivity.
Qed.

(** ** The slug of a new tag *)

Lemma append_length s1 s2 :
  String.length (s1 +:+ s2) = String.length s1 + String.length s2.
Proof.
  induction s1 as [|c s1 IH]; [reflexivity|].
  rewrite append_cons. simpl. now rewrite IH.
Qed.

Lemma slug_candidate_inj base : Inj (=) (=) (slug_candidate base).
Proof.
  intros [|i] [|j] H; simpl in H.
  - reflexivity.
  - exfalso. apply (f_equal String.length) in H.
    rewrite !append_length in H. simpl in H. lia.
  - exfalso. apply (f_equal String.length) in H.
    rewrite !append_length in H. simpl in H. lia.
  - apply String.app_inj in H. apply (String.app_inj "-") in H.
    now apply pretty_nat_inj in H.
Qed.

(** Not all of [n] candidates can be taken when fewer than [n] slugs are. *)
Lemma candidates_not_all_taken base (taken : list string) n :
  length taken < n ->
  ~ (forall i, i < n -> In (slug_candidate base i) taken).
Proof.
  intros Hlen Hall.
  assert (Hnd : NoDup (slug_candidate base <$> seq 0 n)).
  { apply NoDup_fmap_2; [apply slug_candidate_inj | apply NoDup_seq]. }
  assert (Hsub : slug_candidate base <$> seq 0 n ⊆+ taken).
  { apply NoDup_submseteq; [exact Hnd|]. intros x Hx.
    apply list_elem_of_fmap in Hx. destruct Hx as [i [-> Hi]].
    apply elem_of_seq in Hi. apply list_elem_of_In. apply Hall. lia. }
  apply submseteq_length in Hsub. rewrite length_fmap, length_seq in Hsub. lia.
Qed.

(** Either the first [n] candidates are all taken, or there is a first free
    one among them. *)
Lemma first_free_candidate base (taken : list string) n :
  (forall i, i < n -> In (slug_candidate base i) taken)
  \/ exists j, j < n
       /\ (forall i, i < j -> In (slug_candidate base i) taken)
       /\ ~ In (slug_candidate base j) taken.
Proof.
  induction n as [|n [Hall | (j & Hj & Hbelow & Hfree)]].
  - left. intros i Hi. lia.
  - destruct (in_dec string_dec (slug_candidate base n) taken) as [Hin | Hout].
    + left. intros i Hi.
      destruct (Nat.eq_dec i n) as [-> | Hne]; [exact Hin | apply Hall; lia].
    + right. exists n. split; [lia | split; assumption].
  - right. exists j. split; [lia | split; assumption].
Qed.

(** The loop, started at the [k]-th candidate, returns the first free candidate
    from there on, as soon as the fuel reaches it. *)
Lemma unique_slug_loop_finds taken base j :
  forall k fuel,
    (forall i, k <= i < k + j -> In (slug_candidate base i) taken) ->
    ~ In (slug_candidate base (k + j)) taken ->
    j < fuel ->
    unique_slug_loop fuel taken base (slug_candidate base k) (S k)
    = Some (slug_candidate base (k + j)).
Proof.
  induction j as [|j IH]; intros k fuel Hbelow Hfree Hfuel;
    (destruct fuel as [|fuel]; [lia|]); cbn [unique_slug_loop].
  - rewrite Nat.add_0_r in *.
    destruct (str_in (slug_candidate base k) taken) eqn:Hin.
    + apply str_in_In in Hin. contradiction.
    + reflexivity.
  - destruct (str_in (slug_candidate base k) taken) eqn:Hin.
    + change (base +:+ "-" +:+ pretty (S k)) with (slug_candidate base (S k)).
      replace (k + S j) with (S k + j) in * by lia.
      apply IH; [| assumption | lia].
      intros i Hi. apply Hbelow. lia.
    + exfalso. assert (Hk : In (slug_candidate base k) taken) by (apply Hbelow; lia).
      apply str_in_In in Hk. congruence.
Qed.

(** X18. [_unique_slug] always returns: with one more test than the user has
    tags the loop ends, more fuel does not change its result, and the slug it
    returns is used by none of the user's tags and is the base or the base
    followed by a dash and a counter not above the number of tags. *)
Theorem unique_slug_is_free (slugify : string -> string) (user_email : string)
    (taken : list string) (value : string) :
  exists slug,
    (forall extra,
       _unique_slug slugify user_email taken (S (length taken) + extra) value
       = Some slug)
    /\ ~ In slug taken
    /\ exists i, i <= length taken
         /\ slug = slug_candidate
                     (if String.eqb (slugify value) ""
                      then slugify user_email else slugify value) i.
Proof.
  unfold _unique_slug.
  set (base := if String.eqb (slugify value) "" then slugify user_email
               else slugify value).
  destruct (first_free_candidate base taken (S (length taken)))
    as [Hall | (j & Hj & Hbelow & Hfree)].
  - exfalso. apply (candidates_not_all_taken base taken (S (length taken)));
      [lia | exact Hall].
  - exists (slug_candidate base j). split; [| split; [exact Hfree |]].
    + intros extra.
      apply (unique_slug_loop_finds taken base j 0 (S (length taken) + extra));
        [intros i Hi; apply Hbelow; lia | exact Hfree | lia].
    + exists j. split; [lia | reflexivity].
Qed.

(** ** The targets of the variants *)

Lemma slice_step_lookup {A : Type} (step : nat) (l : list A) :
  0 < step ->
  forall skip i, slice_step skip step l !! i = l !! (skip + i * step).
Proof.
  intros Hstep. induction l as [|x l IH]; intros skip i.
  - reflexivity.
  - destruct skip as [|skip]; cbn [slice_step].
    + destruct i as [|i].
      * reflexivity.
      * cbn [lookup list_lookup]. rewrite IH.
        replace (0 + S i * step) with (S (step - 1 + i * step)) by lia.
        reflexivity.
    + rewrite IH. reflexivity.
Qed.

Lemma slice_step_nil_iff {A : Type} (step : nat) (l : list A) :
  forall skip, slice_step skip step l = [] <-> length l <= skip.
Proof.
  induction l as [|x l IH]; intros skip.
  - simpl. split; [lia | reflexivity].
  - destruct skip as [|skip]; cbn [slice_step length].
    + split; [discriminate | lia].
    + rewrite IH. lia.
Qed.

Lemma concat_slices_nil {A : Type} (step : nat) (idxs : list nat) :
  concat (map (fun skip => slice_step skip step (@nil A)) idxs) = [].
Proof. induction idxs as [|i idxs IH]; [reflexivity | exact IH]. Qed.

(** The slices that start at [0], ..., [step - 1] hold every element once. *)
Lemma slices_partition {A : Type} (k : nat) (l : list A) :
  Permutation
    (concat (map (fun skip => slice_step skip (S k) l) (seq 0 (S k)))) l.
Proof.
  induction l as [|x l IH].
  - rewrite concat_slices_nil. constructor.
  - cbn [seq map concat slice_step].
    replace (S k - 1) with k by lia.
    rewrite <- seq_shift, map_map. cbn [slice_step app].
    constructor.
    etransitivity; [|exact IH].
    rewrite seq_S, map_app, concat_app. cbn [map concat Nat.add].
    rewrite app_nil_r. apply Permutation_app_comm.
Qed.

Lemma enumerate_fst {A : Type} (l : list A) :
  forall start, map fst (combine (seq start (length l)) l) = seq start (length l).
Proof.
  induction l as [|x l IH]; intros start; [reflexivity|].
  cbn [length seq combine map fst]. now rewrite IH.
Qed.

Lemma enumerate_lookup {A : Type} (l : list A) :
  forall start idx x,
    l !! idx = Some x -> combine (seq start (length l)) l !! idx = Some (start + idx, x).
Proof.
  induction l as [|y l IH]; intros start idx x H; [discriminate|].
  destruct idx as [|idx]; simpl in *.
  - injection H as ->. now rewrite Nat.add_0_r.
  - rewrite (IH (S start) idx x H). f_equal. f_equal. lia.
Qed.

Lemma variant_targets_slices variants customers :
  map snd (variant_targets variants customers)
  = map (fun idx => slice_step idx (length variants) customers)
      (seq 0 (length variants)).
Proof.
  unfold variant_targets, enumerate.
  rewrite <- (enumerate_fst variants 0) at 2. rewrite !map_map.
  apply map_ext. now intros [idx v].
Qed.

Lemma variant_targets_lookup variants customers idx variant :
  variants !! idx = Some variant ->
  variant_targets variants customers !! idx
  = Some (variant, slice_step idx (length variants) customers).
Proof.
  intros H. unfold variant_targets, enumerate.
  change (map ?f ?l) with (f <$> l).
  rewrite list_lookup_fmap, (enumerate_lookup variants 0 idx variant H).
  reflexivity.
Qed.

(** X19. When [dispatch] has variants, the customers it builds messages for,
    taken over all variants, are the campaign's customers, each one once: no
    customer is left out and none is targeted under two variants. *)
Theorem dispatch_targets_partition :
  forall (v : CampaignVariant.t) (variants : list CampaignVariant.t)
         (customers : list Customer.t),
    Permutation
      (concat (map snd (variant_targets (v :: variants) customers)))
      customers.
Proof.
  intros v variants customers.
  rewrite variant_targets_slices. apply slices_partition.
Qed.

(** X20. The customer at position [p] of the list is targeted under the
    variant at position [p mod n], where [n] is the number of variants, and is
    the [p / n]-th customer of that variant. *)
Theorem dispatch_target_of_customer :
  forall (variants : list CampaignVariant.t) (customers : list Customer.t)
         (p : nat) (c : Customer.t),
    variants <> [] ->
    customers !! p = Some c ->
    exists variant targeted,
      variants !! (p mod length variants) = Some variant
      /\ variant_targets variants customers !! (p mod length variants)
         = Some (variant, targeted)
      /\ targeted !! (p / length variants) = Some c.
Proof.
  intros variants customers p c Hne Hp.
  assert (Hlen : 0 < length variants) by (destruct variants; [congruence | simpl; lia]).
  assert (Hlt : p mod length variants < length variants)
    by (apply Nat.mod_upper_bound; lia).
  destruct (lookup_lt_is_Some_2 variants _ Hlt) as [variant Hv].
  exists variant, (slice_step (p mod length variants) (length variants) customers).
  split; [exact Hv | split].
  - now apply variant_targets_lookup.
  - rewrite slice_step_lookup by exact Hlen.
    replace (p mod length variants + p / length variants * length variants)
      with p; [exact Hp|].
    rewrite (Nat.div_mod_eq p (length variants)) at 1. lia.
Qed.

Lemma dispatch_target_of_customer_witness :
  Buckets.variants <> []
  /\ Buckets.customers !! 1 = Some Preferences.bob
  /\ exists variant targeted,
       Buckets.variants !! (1 mod length Buckets.variants) = Some variant
       /\ variant_targets Buckets.variants Buckets.customers
            !! (1 mod length Buckets.variants)
          = Some (variant, targeted)
       /\ targeted !! (1 / length Buckets.variants) = Some Preferences.bob.
Proof.
  split; [discriminate | split; [reflexivity|]].
  apply (dispatch_target_of_customer Buckets.variants Buckets.customers 1
           Preferences.bob); [discriminate | reflexivity].
Defined.

(** X21. A variant is built for no customer, and so skipped by [dispatch],
    exactly when its position is at least the number of customers: with fewer
    customers than variants the last variants get no message. *)
Theorem dispatch_target_empty_iff :
  forall (variants : list CampaignVariant.t) (customers : list Customer.t)
         (idx : nat) (variant : CampaignVariant.t) (targeted : list Customer.t),
    variant_targets variants customers !! idx = Some (variant, targeted) ->
    (targeted = [] <-> length customers <= idx).
Proof.
  intros variants customers idx variant targeted H.
  assert (Hin : is_Some (variants !! idx)).
  { apply lookup_lt_is_Some. apply lookup_lt_Some in H.
    unfold variant_targets, enumerate in H.
    rewrite length_map, length_combine, length_seq in H. lia. }
  destruct Hin as [v Hv].
  rewrite (variant_targets_lookup variants customers idx v Hv) in H.
  injection H as _ <-. apply slice_step_nil_iff.
Qed.

Lemma dispatch_target_empty_iff_witness :
  variant_targets Buckets.variants Buckets.customers !! 2
  = Some (Buckets.variant 3 "C", [])
  /\ (@nil Customer.t = [] <-> length Buckets.customers <= 2).
Proof.
  split; [reflexivity|].
  apply (dispatch_target_empty_iff Buckets.variants Buckets.customers 2
           (Buckets.variant 3 "C") []).
  reflexivity.
Defined.

Lemma list_sum_Permutation (l1 l2 : list nat) :
  Permutation l1 l2 -> list_sum l1 = list_sum l2.
Proof. induction 1; simpl; lia. Qed.

Lemma channel_pairs_concat campaign (ls : list (list Customer.t)) :
  channel_pairs campaign (concat ls) = list_sum (map (channel_pairs campaign) ls).
Proof.
  unfold channel_pairs. induction ls as [|l ls IH]; [reflexivity|].
  cbn [concat map list_sum]. rewrite map_app, list_sum_app.
  now rewrite IH.
Qed.

Lemma channel_pairs_targets campaign v variants customers :
  list_sum (map (fun vt => channel_pairs campaign (snd vt))
              (variant_targets (v :: variants) customers))
  = channel_pairs campaign customers.
Proof.
  rewrite <- (map_map snd (channel_pairs campaign)), <- channel_pairs_concat.
  unfold channel_pairs. apply list_sum_Permutation, Permutation_map.
  rewrite variant_targets_slices. apply slices_partition.
Qed.

(** One turn of the loop over the variants. *)
Lemma build_target_progress env personalize_call s acc vt st acc' st' :
  targets_progress s acc st ->
  (let '(variant, targeted) := vt in
   match targeted with
   | [] => ret acc
   | _ :: _ =>
       let* n := build_messages_with env personalize_call targeted
                   (CampaignVariant.channel_payload variant) (Some variant) in
       ret (acc + n)
   end) st = (Ok acc', st') ->
  targets_progress s acc' st'
  /\ acc' <= acc + channel_pairs (self_campaign s) (snd vt).
Proof.
  intros (Hc & Hr & Hge & Hle). destruct vt as [variant targeted].
  destruct targeted as [|c targeted].
  - unfold ret. intros H. injection H as <- <-.
    split; [repeat split; assumption | lia].
  - unfold bind.
    destruct (build_messages_with env personalize_call (c :: targeted) _ _ st)
      as [[n|e] st1] eqn:Hb; [|discriminate].
    unfold ret. intros H. injection H as <- <-.
    destruct (build_messages_outcome _ _ _ _ _ _ _ _ Hb)
      as (Hge1 & Hle1 & Hn & Hc1 & Hr1 & _).
    rewrite Hc in Hn. unfold targets_progress, channel_pairs. cbn [snd].
    rewrite Hc1, Hr1. repeat split; auto; lia.
Qed.

(** What the build phase of [dispatch] has done when it returns. *)
Lemma build_for_variants_outcome env personalize_call variants customers payload
    s s' created :
  build_for_variants_with env personalize_call variants customers payload s
  = (Ok created, s') ->
  targets_progress s created s'
  /\ created <= channel_pairs (self_campaign s) customers.
Proof.
  destruct variants as [|v variants]; cbn [build_for_variants_with]; intros Hrun.
  - destruct (build_messages_outcome _ _ _ _ _ _ _ _ Hrun)
      as (Hge & Hle & Hn & Hc & Hr & _).
    split; [repeat split; assumption | exact Hn].
  - assert (H0 : targets_progress s 0 s)
      by (unfold targets_progress; repeat split; lia).
    destruct (for_fold_weight (targets_progress s)
                (fun vt => channel_pairs (self_campaign s) (snd vt))
                _ _
                (fun acc vt st acc' st' Hst Hb =>
                   build_target_progress env personalize_call s acc vt st acc' st'
                     Hst Hb)
                _ _ _ _ H0 Hrun) as [Hp Hle].
    rewrite channel_pairs_targets in Hle. split; [exact Hp | exact Hle].
Qed.

(** X22. When the build phase of [dispatch] returns [created], with or
    without variants and whatever the personalization call does: no row was
    removed, at most [created] rows were added, the campaign object and row
    are as they were, and [created] is at most the number of (customer,
    resolved channel) pairs of the customers: splitting the customers over the
    variants counts no customer twice. *)
Theorem dispatch_build_count :
  forall (env : Env)
         (personalize_call : Campaign.t -> json -> Customer.t -> string -> outcome string)
         (variants : list CampaignVariant.t) (customers : list Customer.t)
         (payload : gmap string json) (s s' : State) (created : nat),
    build_for_variants_with env personalize_call variants customers payload s
    = (Ok created, s') ->
    length (messages s) <= length (messages s')
    /\ length (messages s') <= length (messages s) + created
    /\ created <= channel_pairs (self_campaign s) customers
    /\ self_campaign s' = self_campaign s
    /\ campaign_row s' = campaign_row s.
Proof.
  intros env personalize_call variants customers payload s s' created Hrun.
  destruct (build_for_variants_outcome _ _ _ _ _ _ _ _ Hrun)
    as [(Hc & Hr & Hge & Hle) Hn].
  repeat split; assumption.
Qed.

Lemma dispatch_build_count_witness :
  build_for_variants_with Scenario.providers_up personalize_two_args
    Buckets.variants Buckets.customers Scenario.content Scenario.start
  = (Ok 3,
     snd (build_for_variants_with Scenario.providers_up personalize_two_args
            Buckets.variants Buckets.customers Scenario.content Scenario.start))
  /\ 3 <= channel_pairs (self_campaign Scenario.start) Buckets.customers.
Proof.
  split; [vm_compute; reflexivity|].
  refine (proj1 (proj2 (proj2 (dispatch_build_count Scenario.providers_up
            personalize_two_args Buckets.variants Buckets.customers
            Scenario.content Scenario.start _ 3 _)))).
  vm_compute. reflexivity.
Defined.

(** ** The rate limiter *)

Lemma sleep_for_bounds (now start : Q) :
  (start <= now)%Q -> ~ (60 <= now - start)%Q ->
  (0 < 60 - (now - start))%Q /\ (60 - (now - start) <= 60)%Q.
Proof.
  intros Hle Hnot. split.
  - apply Qnot_le_lt in Hnot. apply (proj1 (Qlt_minus_iff _ _)) in Hnot. exact Hnot.
  - apply Qle_minus_iff.
    assert (Heq : (60 + - (60 - (now - start)) == now + - start)%Q) by ring.
    rewrite Heq.
    apply (proj1 (Qle_minus_iff _ _)). exact Hle.
Qed.

Lemma window_not_elapsed_at_start (now : Q) : ~ (60 <= now - now)%Q.
Proof.
  intros H. assert (Heq : (now - now == 0)%Q) by ring.
  rewrite Heq in H. apply H. reflexivity.
Qed.

(** One call keeps the quota and leaves the counter between one and the
    quota. *)
Lemma wait_for_slot_counter now after self :
  (1 <= RateLimiter.per_minute self)%Z ->
  (0 <= RateLimiter._sent self)%Z ->
  RateLimiter.per_minute (fst (RateLimiter.wait_for_slot now after self))
  = RateLimiter.per_minute self
  /\ (1 <= RateLimiter._sent (fst (RateLimiter.wait_for_slot now after self))
      <= RateLimiter.per_minute self)%Z.
Proof.
  intros Hpm Hsent. unfold RateLimiter.wait_for_slot.
  destruct (Qle_bool _ _); cbn [RateLimiter.per_minute RateLimiter._sent];
    match goal with |- context [(?a <? ?b)%Z] => destruct (Z.ltb_spec a b) end;
    cbn [fst RateLimiter.per_minute RateLimiter._sent]; lia.
Qed.

Lemma run_counter calls :
  forall self,
    (1 <= RateLimiter.per_minute self)%Z ->
    (0 <= RateLimiter._sent self <= RateLimiter.per_minute self)%Z ->
    RateLimiter.per_minute (fst (RateLimiter.run calls self))
    = RateLimiter.per_minute self
    /\ (0 <= RateLimiter._sent (fst (RateLimiter.run calls self))
        <= RateLimiter.per_minute self)%Z
    /\ (calls = [] \/ (1 <= RateLimiter._sent (fst (RateLimiter.run calls self)))%Z).
Proof.
  induction calls as [|[now after] calls IH]; intros self Hpm Hsent.
  - simpl. split; [reflexivity | split; [exact Hsent | now left]].
  - cbn [RateLimiter.run].
    destruct (wait_for_slot_counter now after self Hpm (proj1 Hsent)) as [Hpm1 Hs1].
    destruct (RateLimiter.wait_for_slot now after self) as [self1 slept].
    cbn [fst] in Hpm1, Hs1.
    destruct (IH self1) as (Hpm2 & Hs2 & Hone); [lia | lia |].
    rewrite (surjective_pairing (RateLimiter.run calls self1)). cbn [fst].
    split; [congruence | split; [lia|]].
    right. destruct Hone as [-> | Hone]; [|exact Hone].
    cbn [RateLimiter.run fst]. lia.
Qed.

(** X23. However it is created and whatever the clock reads, a rate limiter
    has a quota of at least one, and after any number of calls of
    [wait_for_slot] its counter is between zero and the quota, and at least
    one once a call was made. *)
Theorem rate_limiter_counter_bounds :
  forall (per_minute : Z) (start : Q) (calls : list (Q * Q)),
    RateLimiter.per_minute
      (fst (RateLimiter.run calls (RateLimiter.init per_minute start)))
    = Z.max per_minute 1
    /\ (0 <= RateLimiter._sent
               (fst (RateLimiter.run calls (RateLimiter.init per_minute start)))
        <= Z.max per_minute 1)%Z
    /\ (calls = []
        \/ (1 <= RateLimiter._sent
                   (fst (RateLimiter.run calls
                           (RateLimiter.init per_minute start))))%Z).
Proof.
  intros per_minute start calls.
  apply (run_counter calls (RateLimiter.init per_minute start)); simpl; lia.
Qed.

(** One call under a monotonic clock: the window never starts after the last
    reading, and a sleep lasts more than zero and at most sixty seconds. *)
Lemma wait_for_slot_sleep now after self :
  (RateLimiter._window_start self <= now)%Q -> (now <= after)%Q ->
  (RateLimiter._window_start (fst (RateLimiter.wait_for_slot now after self))
   <= after)%Q
  /\ match snd (RateLimiter.wait_for_slot now after self) with
     | Some d => (0 < d)%Q /\ (d <= 60)%Q
     | None => True
     end.
Proof.
  intros Hstart Hafter. unfold RateLimiter.wait_for_slot, RateLimiter.window.
  destruct (Qle_bool 60 (now - RateLimiter._window_start self)) eqn:Hw;
    cbn [RateLimiter.per_minute RateLimiter._sent RateLimiter._window_start];
    match goal with |- context [(?a <? ?b)%Z] => destruct (a <? b)%Z end;
    cbn [fst snd RateLimiter._window_start].
  - split; [exact Hafter | exact I].
  - split; [apply Qle_refl|].
    destruct (Qle_bool (60 - (now - now)) 0); [exact I|].
    apply sleep_for_bounds; [apply Qle_refl | apply window_not_elapsed_at_start].
  - split; [eapply Qle_trans; eassumption | exact I].
  - split; [apply Qle_refl|].
    destruct (Qle_bool (60 - (now - RateLimiter._window_start self)) 0); [exact I|].
    apply sleep_for_bounds; [exact Hstart|].
    intros H. apply Qle_bool_iff in H. congruence.
Qed.

Lemma run_sleeps calls :
  forall self last,
    (RateLimiter._window_start self <= last)%Q ->
    RateLimiter.monotonic last calls ->
    List.Forall (fun d => (0 < d)%Q /\ (d <= 60)%Q)
      (snd (RateLimiter.run calls self)).
Proof.
  induction calls as [|[now after] calls IH]; intros self last Hstart Hmono.
  - constructor.
  - cbn [RateLimiter.run]. destruct Hmono as (Hnow & Hafter & Hrest).
    destruct (wait_for_slot_sleep now after self) as [Hstart1 Hslept];
      [eapply Qle_trans; eassumption | exact Hafter |].
    destruct (RateLimiter.wait_for_slot now after self) as [self1 slept].
    cbn [fst snd] in Hstart1, Hslept.
    specialize (IH self1 after Hstart1 Hrest).
    destruct (RateLimiter.run calls self1) as [self2 sleeps]. cbn [snd] in *.
    destruct slept as [d|]; [constructor; assumption | exact IH].
Qed.

(** X24. Under a clock whose readings never decrease, every sleep of a rate
    limiter lasts more than zero and at most sixty seconds, over any sequence
    of calls. *)
Theorem rate_limiter_sleeps_bounded :
  forall (per_minute : Z) (start : Q) (calls : list (Q * Q)),
    RateLimiter.monotonic start calls ->
    List.Forall (fun d => (0 < d)%Q /\ (d <= 60)%Q)
      (snd (RateLimiter.run calls (RateLimiter.init per_minute start))).
Proof.
  intros per_minute start calls Hmono.
  apply (run_sleeps calls _ start); [apply Qle_refl | exact Hmono].
Qed.

Lemma rate_limiter_sleeps_bounded_witness :
  RateLimiter.monotonic 0 [(1, 1); (2, 60); (120, 120)]%Q
  /\ snd (RateLimiter.run [(1, 1); (2, 60); (120, 120)]%Q (RateLimiter.init 1 0))
     = [(60 - (2 - 0))%Q]
  /\ List.Forall (fun d => (0 < d)%Q /\ (d <= 60)%Q)
       (snd (RateLimiter.run [(1, 1); (2, 60); (120, 120)]%Q
               (RateLimiter.init 1 0))).
Proof.
  split; [|split].
  - cbn. repeat split; apply Qle_bool_imp_le; reflexivity.
  - reflexivity.
  - apply (rate_limiter_sleeps_bounded 1 0 [(1, 1); (2, 60); (120, 120)]%Q).
    cbn. repeat split; apply Qle_bool_imp_le; reflexivity.
Defined.

(** While the quota lasts no call sleeps. *)
Lemma run_within_quota calls :
  forall self,
    (0 <= RateLimiter._sent self)%Z ->
    (RateLimiter._sent self + Z.of_nat (length calls)
     <= RateLimiter.per_minute self)%Z ->
    snd (RateLimiter.run calls self) = [].
Proof.
  induction calls as [|[now after] calls IH]; intros self Hsent Hquota.
  - reflexivity.
  - cbn [RateLimiter.run]. cbn [length] in Hquota.
    assert (Hstep : exists self1,
               RateLimiter.wait_for_slot now after self = (self1, None)
               /\ (0 <= RateLimiter._sent self1)%Z
               /\ (RateLimiter._sent self1 + Z.of_nat (length calls)
                   <= RateLimiter.per_minute self1)%Z).
    { unfold RateLimiter.wait_for_slot.
      destruct (Qle_bool _ _);
        cbn [RateLimiter.per_minute RateLimiter._sent RateLimiter._window_start];
        match goal with |- context [(?a <? ?b)%Z] => destruct (Z.ltb_spec a b) end;
        try lia; eexists; (split; [reflexivity|]);
        cbn [RateLimiter.per_minute RateLimiter._sent]; lia. }
    destruct Hstep as (self1 & -> & Hsent1 & Hquota1).
    rewrite (surjective_pairing (RateLimiter.run calls self1)).
    rewrite (IH self1 Hsent1 Hquota1). reflexivity.
Qed.

(** X25. A new rate limiter lets as many calls through as its quota without
    sleeping, whatever the clock reads. *)
Theorem rate_limiter_quota_is_free :
  forall (per_minute : Z) (start : Q) (calls : list (Q * Q)),
    (Z.of_nat (length calls) <= Z.max per_minute 1)%Z ->
    snd (RateLimiter.run calls (RateLimiter.init per_minute start)) = [].
Proof.
  intros per_minute start calls Hlen.
  apply run_within_quota; simpl; lia.
Qed.

Lemma rate_limiter_quota_is_free_witness :
  (Z.of_nat (length [(1, 1); (1, 1)]%Q) <= Z.max 2 1)%Z
  /\ snd (RateLimiter.run [(1, 1); (1, 1)]%Q (RateLimiter.init 2 0)) = [].
Proof.
  split; [simpl; lia|].
  apply (rate_limiter_quota_is_free 2 0 [(1, 1); (1, 1)]%Q). simpl. lia.
Defined.
